(** * Simulador de tarifas eléctricas: the cost-simulation engine

    A shallow embedding of [src/simulacion/costes.py]: the period classifier,
    the zero-safe percentage, the KPI columns, the annual ranking and the
    monthly best-tariff selection.

    Modelling choices.
    - A pandas [DataFrame] is a list of rows in index order; a [Series] is a
      list of cells.  A column added from other columns of the same row
      ([anio], [mes]) is a function of the row.  Column-name suffixes
      ([_anual], [_mes]) only rename columns and are not modelled.
    - Python's [float] is IEEE binary64.  The engine is written once over an
      arithmetic interface ([Arith]) with two instances: [binary64] (Rocq's
      primitive floats, the arithmetic CPython executes, rounding included)
      and [exact] (canonical rationals, the arithmetic without rounding).
    - pandas reductions: the grouped [sum] adds the cells of a group in row
      order with the compensated (Kahan) accumulation pandas uses, skipping
      missing cells; [max] and [median] skip missing cells.
    - [sort_values] with its default [kind="quicksort"] is an argument of the
      annual pipeline.  pandas documents that the rows come back permuted into
      ascending order with the missing costs last, and documents only
      [mergesort] and [stable] as stable: the order of rows of equal cost is
      left open, as a rearrangement of the rows ([mezcla]) made before a
      stable sort.
    - An exception is a value: a pipeline returns [Ok] with its table or
      [Raise] with the exception Python would raise. *)

From Stdlib Require Import String List Bool Arith NArith ZArith Lia.
From Stdlib Require Import QArith Qcanon Floats Permutation Sorted.
Import ListNotations.

Set Implicit Arguments.
Set Warnings "-inexact-float".

(** ** Arithmetic *)

Declare Scope num_scope.
Delimit Scope num_scope with num.

(** The operations [costes.py] performs on [float] values, with the three
    literals it uses ([0.0], [12.0], [100.0]), the divisor of an even-length
    median, and the missing value of pandas. *)
Class Arith (F : Type) : Type := {
  cero : F;
  dos : F;
  doce : F;
  cien : F;
  nan : F;
  suma : F -> F -> F;
  resta : F -> F -> F;
  prod : F -> F -> F;
  cociente : F -> F -> F;
  menor : F -> F -> bool;
  igual : F -> F -> bool;
  isna : F -> bool
}.

Infix "+" := suma : num_scope.
Infix "-" := resta : num_scope.
Infix "*" := prod : num_scope.
Infix "/" := cociente : num_scope.
Infix "<?" := menor : num_scope.
Infix "=?" := igual : num_scope.

(** IEEE 754 binary64, round to nearest even: Python's [float]. *)
#[export] Instance binary64 : Arith float := {
  cero := 0%float;
  dos := 2%float;
  doce := 12%float;
  cien := 100%float;
  nan := PrimFloat.nan;
  suma := PrimFloat.add;
  resta := PrimFloat.sub;
  prod := PrimFloat.mul;
  cociente := PrimFloat.div;
  menor := PrimFloat.ltb;
  igual := PrimFloat.eqb;
  isna := PrimFloat.is_nan
}.

Definition Qcltb (x y : Qc) : bool :=
  match (x ?= y)%Qc with Lt => true | _ => false end.

Definition Qceqb (x y : Qc) : bool :=
  match (x ?= y)%Qc with Eq => true | _ => false end.

Definition Qc_of_Z (z : Z) : Qc := Q2Qc (inject_Z z).

(** Exact rational arithmetic.  It has no missing value: [isna] never holds,
    and [nan], the value pandas gives to a reduction of no cells, is read
    as 0. *)
#[export] Instance exact : Arith Qc := {
  cero := Qc_of_Z 0;
  dos := Qc_of_Z 2;
  doce := Qc_of_Z 12;
  cien := Qc_of_Z 100;
  nan := Qc_of_Z 0;
  suma := Qcplus;
  resta := Qcminus;
  prod := Qcmult;
  cociente := Qcdiv;
  menor := Qcltb;
  igual := Qceqb;
  isna := fun _ => false
}.

(** ** Errors *)

(** The exceptions that can leave the two pipelines. *)
Inductive Excepcion : Type :=
| ValueError
| KeyError
| TypeError
| ZeroDivisionError.

Inductive Resultado (A : Type) : Type :=
| Ok (a : A)
| Raise (e : Excepcion).

Arguments Ok {A} a.
Arguments Raise {A} e.

Definition bind {A B : Type} (r : Resultado A) (k : A -> Resultado B) : Resultado B :=
  match r with
  | Ok a => k a
  | Raise e => Raise e
  end.

Notation "x <- r ;; k" := (bind r (fun x => k))
  (at level 61, r at next level, right associativity).

(** ** Data model *)

(** The four period labels written into the [periodo] column. *)
Inductive Periodo : Type :=
| punta_LV
| llano_LV
| valle_LV
| valle_SD.

Definition Periodo_eqb (p q : Periodo) : bool :=
  match p, q with
  | punta_LV, punta_LV | llano_LV, llano_LV
  | valle_LV, valle_LV | valle_SD, valle_SD => true
  | _, _ => false
  end.

(** A [datetime64] cell, read through its [.dt] accessors. *)
Record Timestamp : Type := {
  year : N;
  month : N;
  day : N;
  hour : N;
  minute : N
}.

(** ** Period classifier *)

(** [periodo.loc[mask] = v]: the cells selected by the mask are overwritten. *)
Fixpoint loc_set {A : Type} (mask : list bool) (v : A) (s : list (option A))
  : list (option A) :=
  match mask, s with
  | m :: mask', c :: s' => (if m then Some v else c) :: loc_set mask' v s'
  | _, _ => s
  end.

(** Element-wise [&] and [|] of two boolean series. *)
Fixpoint serie_and (a b : list bool) : list bool :=
  match a, b with
  | x :: a', y :: b' => (x && y) :: serie_and a' b'
  | _, _ => []
  end.

Fixpoint serie_or (a b : list bool) : list bool :=
  match a, b with
  | x :: a', y :: b' => (x || y) :: serie_or a' b'
  | _, _ => []
  end.

Definition serie_isna {A : Type} (s : list (option A)) : list bool :=
  map (fun c => match c with None => true | Some _ => false end) s.

(** The cells of a series with no missing value, or [None] when
    [s.isna().any()]. *)
Fixpoint sin_na {A : Type} (s : list (option A)) : option (list A) :=
  match s with
  | [] => Some []
  | None :: _ => None
  | Some v :: s' =>
      match sin_na s' with
      | Some l => Some (v :: l)
      | None => None
      end
  end.

Definition _clasificar_periodo (timestamp : list Timestamp) (es_fin_semana : list bool)
  : Resultado (list Periodo) :=
  let horas := map hour timestamp in
  let periodo := map (fun _ => @None Periodo) timestamp in
  let periodo := loc_set es_fin_semana valle_SD periodo in
  let mask_lv := map negb es_fin_semana in
  let periodo :=
    loc_set (serie_and mask_lv (map (fun h => h <? 8)%N horas)) valle_LV periodo in
  let mask_punta :=
    serie_and mask_lv
      (serie_or (serie_and (map (fun h => 10 <=? h)%N horas) (map (fun h => h <? 14)%N horas))
                (serie_and (map (fun h => 18 <=? h)%N horas) (map (fun h => h <? 22)%N horas))) in
  let periodo := loc_set mask_punta punta_LV periodo in
  let periodo := loc_set (serie_and mask_lv (serie_isna periodo)) llano_LV periodo in
  match sin_na periodo with
  | None => Raise ValueError
  | Some etiquetas => Ok etiquetas
  end.

(** The priority rule of the specification, for one record. *)
Definition regla_periodo (h : N) (fin_semana : bool) : Periodo :=
  if fin_semana then valle_SD
  else if (0 <=? h)%N && (h <? 8)%N then valle_LV
  else if ((10 <=? h)%N && (h <? 14)%N) || ((18 <=? h)%N && (h <? 22)%N) then punta_LV
  else llano_LV.

(** One row of the consumption table handed over by ingestion. *)
Record Consumo (F : Type) : Type := {
  timestamp : Timestamp;
  kwh : F;
  es_fin_semana : bool
}.

(** One row of the tariff catalog ([tarifas_df]); the fields are its columns. *)
Module Tarifa.
Record t (F : Type) : Type := {
  comercializadora : string;
  tarifa : string;
  punta_LV : F;
  llano_LV : F;
  valle_LV : F;
  valle_SD : F;
  potencia_mes_valle : F;
  potencia_mes_punta_llano : F
}.
End Tarifa.

(** The dictionary appended to [resultados] by the annual loop. *)
Module Anual.
Record fila (F : Type) : Type := {
  comercializadora : string;
  tarifa : string;
  kwh_anuales : F;
  coste_energia_anual : F;
  coste_potencia_anual : F;
  coste_total_anual : F;
  coste_medio_eur_kwh : F
}.
End Anual.

(** The dictionary [mejor] of the monthly loop, before its KPI update. *)
Module Mes.
Record fila (F : Type) : Type := {
  anio : N;
  mes : N;
  comercializadora : string;
  tarifa : string;
  kwh_mes : F;
  coste_energia_mes : F;
  coste_potencia_mes : F;
  coste_total_mes : F
}.
End Mes.

(** The six savings columns ([..._anual] or [..._mes]). *)
Record KpisAhorro (F : Type) : Type := {
  ref_mediana_coste_total : F;
  ref_peor_coste_total : F;
  ahorro_vs_mediana_eur : F;
  ahorro_vs_peor_eur : F;
  ahorro_vs_mediana_pct : F;
  ahorro_vs_peor_pct : F
}.

(** The two cost-share columns. *)
Record PctCoste (F : Type) : Type := {
  pct_coste_energia : F;
  pct_coste_potencia : F
}.

(** The eight period-distribution columns. *)
Record Distribucion (F : Type) : Type := {
  kwh_punta_LV : F;
  kwh_llano_LV : F;
  kwh_valle_LV : F;
  kwh_valle_SD : F;
  pct_kwh_punta_LV : F;
  pct_kwh_llano_LV : F;
  pct_kwh_valle_LV : F;
  pct_kwh_valle_SD : F
}.

(** Monadic loop: the first exception aborts. *)
Fixpoint para_cada {A B : Type} (f : A -> Resultado B) (l : list A) : Resultado (list B) :=
  match l with
  | [] => Ok []
  | x :: l' =>
      y <- f x ;;
      ys <- para_cada f l' ;;
      Ok (y :: ys)
  end.

(** Keys of [groupby(["anio", "mes"])]. *)
Definition clave_eqb (a b : N * N) : bool :=
  ((fst a =? fst b) && (snd a =? snd b))%N.

Definition clave_ltb (a b : N * N) : bool :=
  ((fst a <? fst b) || ((fst a =? fst b) && (snd a <? snd b)))%N.

Fixpoint insertar_clave (k : N * N) (l : list (N * N)) : list (N * N) :=
  match l with
  | [] => [k]
  | k' :: l' =>
      if clave_eqb k k' then l
      else if clave_ltb k k' then k :: l
      else k' :: insertar_clave k l'
  end.

(** [sort_values(["anio", "mes"])]: with several keys pandas sorts with its
    lexicographic indexer, which keeps equal keys in their order. *)
Fixpoint insertar_por_clave {A : Type} (key : A -> N * N) (x : A) (l : list A) : list A :=
  match l with
  | [] => [x]
  | y :: l' =>
      if clave_ltb (key x) (key y) then x :: l
      else y :: insertar_por_clave key x l'
  end.

Definition sort_values_anio_mes {A : Type} (key : A -> N * N) (l : list A) : list A :=
  fold_right (insertar_por_clave key) [] l.

Section Motor.

Context {F : Type} {AF : Arith F}.
Local Open Scope num_scope.

(** *** Utilidades internas *)

(** Python's [/] on two floats: a divisor equal to zero raises. *)
Definition dividir (x y : F) : Resultado F :=
  if y =? cero then Raise ZeroDivisionError else Ok (x / y).

Definition _safe_pct (parte total : F) : Resultado F :=
  if total =? cero then Ok cero
  else
    q <- dividir parte total ;;
    Ok (q * cien).

Definition no_na (s : list F) : list F :=
  filter (fun x => negb (isna x)) s.

(** The accumulation loop of pandas' grouped sum: [sumx] is the running
    sum and [compensation] the rounding error it carries; missing cells are
    skipped, and a compensation that is not a number (after an infinite
    cell) is reset. *)
Fixpoint suma_compensada (s : list F) (sumx compensation : F) : F :=
  match s with
  | [] => sumx
  | val :: s' =>
      if isna val then suma_compensada s' sumx compensation
      else
        let y := val - compensation in
        let t := sumx + y in
        let compensation := t - sumx - y in
        let compensation := if isna compensation then cero else compensation in
        suma_compensada s' t compensation
  end.

(** [groupby(...)["kwh"].sum()] for the cells of one group. *)
Definition serie_sum (s : list F) : F :=
  suma_compensada s cero cero.

(** [Series.max()].  Of cells that compare equal ([0.0] and [-0.0]) the
    first is kept. *)
Definition serie_max (s : list F) : F :=
  match no_na s with
  | [] => nan
  | x :: xs => fold_left (fun m y => if m <? y then y else m) xs x
  end.

Fixpoint insertar (x : F) (l : list F) : list F :=
  match l with
  | [] => [x]
  | y :: l' => if x <? y then x :: l else y :: insertar x l'
  end.

Definition ordenar (l : list F) : list F :=
  fold_right insertar [] l.

(** [Series.median()]: the middle value, or the mean of the two middle
    values of an even number of cells. *)
Definition serie_median (s : list F) : F :=
  let v := ordenar (no_na s) in
  let n := length v in
  match n with
  | O => nan
  | _ =>
      if Nat.even n
      then (nth (Nat.div2 n - 1) v nan + nth (Nat.div2 n) v nan) / dos
      else nth (Nat.div2 n) v nan
  end.

(** The two [map] calls of [_anadir_kpis_ahorro] and the two [apply] calls
    of [_anadir_pct_energia_potencia] are taken row by row: whichever order
    the cells are filled in, the one exception they could raise is the same. *)
Definition _anadir_kpis_ahorro {A : Type} (df : list A) (col_coste : A -> F)
  : Resultado (list (A * KpisAhorro F)) :=
  let mediana := serie_median (map col_coste df) in
  let peor := serie_max (map col_coste df) in
  para_cada (fun r =>
               pct_mediana <- _safe_pct (mediana - col_coste r) mediana ;;
               pct_peor <- _safe_pct (peor - col_coste r) peor ;;
               Ok (r, {| ref_mediana_coste_total := mediana;
                         ref_peor_coste_total := peor;
                         ahorro_vs_mediana_eur := mediana - col_coste r;
                         ahorro_vs_peor_eur := peor - col_coste r;
                         ahorro_vs_mediana_pct := pct_mediana;
                         ahorro_vs_peor_pct := pct_peor |}))
            df.

Definition _anadir_pct_energia_potencia {A : Type} (df : list A)
  (col_energia col_potencia col_total : A -> F) : Resultado (list (A * PctCoste F)) :=
  para_cada (fun r =>
               pct_energia <- _safe_pct (col_energia r) (col_total r) ;;
               pct_potencia <- _safe_pct (col_potencia r) (col_total r) ;;
               Ok (r, {| pct_coste_energia := pct_energia;
                         pct_coste_potencia := pct_potencia |}))
            df.

(** The eight distribution cells, the same for every row they are put in. *)
Definition distribucion (kwh_punta kwh_llano kwh_valle_lv kwh_valle_sd total_kwh : F)
  : Resultado (Distribucion F) :=
  pct_punta <- _safe_pct kwh_punta total_kwh ;;
  pct_llano <- _safe_pct kwh_llano total_kwh ;;
  pct_valle_lv <- _safe_pct kwh_valle_lv total_kwh ;;
  pct_valle_sd <- _safe_pct kwh_valle_sd total_kwh ;;
  Ok {| kwh_punta_LV := kwh_punta;
        kwh_llano_LV := kwh_llano;
        kwh_valle_LV := kwh_valle_lv;
        kwh_valle_SD := kwh_valle_sd;
        pct_kwh_punta_LV := pct_punta;
        pct_kwh_llano_LV := pct_llano;
        pct_kwh_valle_LV := pct_valle_lv;
        pct_kwh_valle_SD := pct_valle_sd |}.

Definition _anadir_distribucion_consumo {A : Type} (df : list A)
  (kwh_punta kwh_llano kwh_valle_lv kwh_valle_sd total_kwh : F)
  : Resultado (list (A * Distribucion F)) :=
  d <- distribucion kwh_punta kwh_llano kwh_valle_lv kwh_valle_sd total_kwh ;;
  Ok (map (fun r => (r, d)) df).

(** *** Consumption by period *)

(** [df["periodo"] = _clasificar_periodo(df["timestamp"], df["es_fin_semana"])]. *)
Definition con_periodo (consumo_df : list (Consumo F))
  : Resultado (list (Consumo F * Periodo)) :=
  periodo <- _clasificar_periodo (map (@timestamp F) consumo_df)
                                 (map (@es_fin_semana F) consumo_df) ;;
  Ok (combine consumo_df periodo).

(** The group keys of [groupby("periodo")], in the order pandas sorts the
    labels. *)
Definition etiquetas : list Periodo := [llano_LV; punta_LV; valle_LV; valle_SD].

Definition del_periodo (p : Periodo) (df : list (Consumo F * Periodo))
  : list (Consumo F * Periodo) :=
  filter (fun r => Periodo_eqb (snd r) p) df.

(** [df.groupby("periodo")["kwh"].sum().to_dict()]: one entry per label that
    occurs. *)
Definition groupby_periodo_kwh_sum (df : list (Consumo F * Periodo)) : list (Periodo * F) :=
  flat_map (fun p =>
              match del_periodo p df with
              | [] => []
              | g => [(p, serie_sum (map (fun r => kwh (fst r)) g))]
              end)
           etiquetas.

(** [dict.get(k, default)]. *)
Fixpoint dict_get (d : list (Periodo * F)) (k : Periodo) (default : F) : F :=
  match d with
  | [] => default
  | (k', v) :: d' => if Periodo_eqb k' k then v else dict_get d' k default
  end.

(** *** Ranking anual *)

(** The energy cost of one tariff for the kWh of a window: the expression
    both loops over [tarifas_df.iterrows()] start with. *)
Definition coste_energia_de (kwh_punta kwh_llano kwh_valle_lv kwh_valle_sd : F)
  (t : Tarifa.t F) : F :=
  kwh_punta * Tarifa.punta_LV t
  + kwh_llano * Tarifa.llano_LV t
  + kwh_valle_lv * Tarifa.valle_LV t
  + kwh_valle_sd * Tarifa.valle_SD t.

(** Coste fijo de potencia (mensual * kW * 12). *)
Definition coste_potencia_anual_de (potencia_kw_valle potencia_kw_punta_llano : F)
  (t : Tarifa.t F) : F :=
  Tarifa.potencia_mes_valle t * potencia_kw_valle * doce
  + Tarifa.potencia_mes_punta_llano t * potencia_kw_punta_llano * doce.

(** Potencia mensual (no *12). *)
Definition coste_potencia_mes_de (potencia_kw_valle potencia_kw_punta_llano : F)
  (t : Tarifa.t F) : F :=
  Tarifa.potencia_mes_valle t * potencia_kw_valle
  + Tarifa.potencia_mes_punta_llano t * potencia_kw_punta_llano.

(** Body of the loop over [tarifas_df.iterrows()] in the annual pipeline. *)
Definition fila_anual (kwh_punta kwh_llano kwh_valle_lv kwh_valle_sd total_kwh : F)
  (potencia_kw_valle potencia_kw_punta_llano : F) (t : Tarifa.t F)
  : Resultado (Anual.fila F) :=
  let coste_energia := coste_energia_de kwh_punta kwh_llano kwh_valle_lv kwh_valle_sd t in
  let coste_potencia :=
    coste_potencia_anual_de potencia_kw_valle potencia_kw_punta_llano t in
  let total := coste_energia + coste_potencia in
  coste_medio <- (if cero <? total_kwh then dividir total total_kwh else Ok cero) ;;
  Ok {| Anual.comercializadora := Tarifa.comercializadora t;
        Anual.tarifa := Tarifa.tarifa t;
        Anual.kwh_anuales := total_kwh;
        Anual.coste_energia_anual := coste_energia;
        Anual.coste_potencia_anual := coste_potencia;
        Anual.coste_total_anual := total;
        Anual.coste_medio_eur_kwh := coste_medio |}.

(** A row of the annual ranking: the loop's columns, then the columns of
    the three [_anadir_*] calls. *)
Definition FilaRanking : Type :=
  ((Anual.fila F * KpisAhorro F) * PctCoste F) * Distribucion F.

Definition base_anual (r : FilaRanking) : Anual.fila F := fst (fst (fst r)).
Definition kpis_anual (r : FilaRanking) : KpisAhorro F := snd (fst (fst r)).
Definition pct_anual (r : FilaRanking) : PctCoste F := snd (fst r).
Definition dist_anual (r : FilaRanking) : Distribucion F := snd r.

Section Ranking.

(** [sort_values("coste_total_anual")], default [kind]. *)
Variable sort_values : list (Anual.fila F) -> list (Anual.fila F).

Definition calcular_costes_anuales_por_tarifa
  (consumo_df : list (Consumo F)) (tarifas_df : list (Tarifa.t F))
  (potencia_kw_valle potencia_kw_punta_llano : F) : Resultado (list FilaRanking) :=
  df <- con_periodo consumo_df ;;
  let kwh_periodo := groupby_periodo_kwh_sum df in
  let kwh_punta := dict_get kwh_periodo punta_LV cero in
  let kwh_llano := dict_get kwh_periodo llano_LV cero in
  let kwh_valle_lv := dict_get kwh_periodo valle_LV cero in
  let kwh_valle_sd := dict_get kwh_periodo valle_SD cero in
  let total_kwh := kwh_punta + kwh_llano + kwh_valle_lv + kwh_valle_sd in
  resultados <- para_cada (fila_anual kwh_punta kwh_llano kwh_valle_lv kwh_valle_sd
                                      total_kwh potencia_kw_valle potencia_kw_punta_llano)
                          tarifas_df ;;
  match resultados with
  | [] => Raise KeyError
  | _ :: _ =>
      let res := sort_values resultados in
      res <- _anadir_kpis_ahorro res (@Anual.coste_total_anual F) ;;
      res <- _anadir_pct_energia_potencia res
               (fun r => Anual.coste_energia_anual (fst r))
               (fun r => Anual.coste_potencia_anual (fst r))
               (fun r => Anual.coste_total_anual (fst r)) ;;
      _anadir_distribucion_consumo res
        kwh_punta kwh_llano kwh_valle_lv kwh_valle_sd total_kwh
  end.

End Ranking.

(** What pandas documents for [sort_values] on one column: the rows come
    back permuted, and no row is followed by one of smaller cost.  Nothing is
    promised about rows of equal cost. *)
Definition ascendente (col : Anual.fila F -> F) (l : list (Anual.fila F)) : Prop :=
  StronglySorted (fun a b => (col b <? col a) = false) l.

Definition permuta (sort_values : list (Anual.fila F) -> list (Anual.fila F)) : Prop :=
  forall l, Permutation l (sort_values l).

Definition contrato_sort_values (sort_values : list (Anual.fila F) -> list (Anual.fila F))
  : Prop :=
  permuta sort_values
  /\ forall l, ascendente (@Anual.coste_total_anual F) (sort_values l).

(** [sort_values("coste_total_anual", kind="stable")]: the rows whose cost is
    not missing, each put after the rows already placed that do not cost
    more, and then the rows whose cost is missing, in their order. *)
Fixpoint insertar_fila (x : Anual.fila F) (l : list (Anual.fila F)) : list (Anual.fila F) :=
  match l with
  | [] => [x]
  | y :: l' =>
      if Anual.coste_total_anual x <? Anual.coste_total_anual y
      then x :: l
      else y :: insertar_fila x l'
  end.

Definition coste_falta (r : Anual.fila F) : bool :=
  isna (Anual.coste_total_anual r).

Definition sort_estable (l : list (Anual.fila F)) : list (Anual.fila F) :=
  fold_left (fun acc x => insertar_fila x acc)
            (filter (fun r => negb (coste_falta r)) l) []
  ++ filter coste_falta l.

(** [sort_values("coste_total_anual")] with the default [kind]: what the
    stable sort returns for the rows rearranged by [mezcla], which stands for
    the order the quicksort of the platform leaves rows of equal cost in. *)
Definition sort_values_quicksort (mezcla : list (Anual.fila F) -> list (Anual.fila F))
  (l : list (Anual.fila F)) : list (Anual.fila F) :=
  sort_estable (mezcla l).

(** *** Mejor tarifa por mes *)

Definition clave (r : Consumo F * Periodo) : N * N :=
  (year (timestamp (fst r)), month (timestamp (fst r))).

(** The groups of [df.groupby(["anio", "mes"])]: keys ascending, each with
    its rows in their order. *)
Definition claves (df : list (Consumo F * Periodo)) : list (N * N) :=
  fold_right insertar_clave [] (map clave df).

Definition del_mes (k : N * N) (df : list (Consumo F * Periodo))
  : list (Consumo F * Periodo) :=
  filter (fun r => clave_eqb (clave r) k) df.

Definition groupby_anio_mes (df : list (Consumo F * Periodo))
  : list ((N * N) * list (Consumo F * Periodo)) :=
  map (fun k => (k, del_mes k df)) (claves df).

(** The dictionary the monthly loop stores in [mejor] for a tariff. *)
Definition fila_mes (anio mes : N)
  (kwh_punta kwh_llano kwh_valle_lv kwh_valle_sd total_kwh_mes : F)
  (potencia_kw_valle potencia_kw_punta_llano : F) (t : Tarifa.t F) : Mes.fila F :=
  let coste_energia := coste_energia_de kwh_punta kwh_llano kwh_valle_lv kwh_valle_sd t in
  let coste_potencia := coste_potencia_mes_de potencia_kw_valle potencia_kw_punta_llano t in
  let total := coste_energia + coste_potencia in
  {| Mes.anio := anio;
     Mes.mes := mes;
     Mes.comercializadora := Tarifa.comercializadora t;
     Mes.tarifa := Tarifa.tarifa t;
     Mes.kwh_mes := total_kwh_mes;
     Mes.coste_energia_mes := coste_energia;
     Mes.coste_potencia_mes := coste_potencia;
     Mes.coste_total_mes := total |}.

(** Body of the loop over [tarifas_df.iterrows()] in the monthly pipeline;
    the state is [(mejor, costes_mes)]. *)
Definition paso_tarifa (anio mes : N)
  (kwh_punta kwh_llano kwh_valle_lv kwh_valle_sd total_kwh_mes : F)
  (potencia_kw_valle potencia_kw_punta_llano : F)
  (estado : option (Mes.fila F) * list F) (t : Tarifa.t F)
  : option (Mes.fila F) * list F :=
  let '(mejor, costes_mes) := estado in
  let coste_energia := coste_energia_de kwh_punta kwh_llano kwh_valle_lv kwh_valle_sd t in
  let coste_potencia := coste_potencia_mes_de potencia_kw_valle potencia_kw_punta_llano t in
  let total := coste_energia + coste_potencia in
  let costes_mes := costes_mes ++ [total] in
  let candidata :=
    fila_mes anio mes kwh_punta kwh_llano kwh_valle_lv kwh_valle_sd total_kwh_mes
             potencia_kw_valle potencia_kw_punta_llano t in
  match mejor with
  | None => (Some candidata, costes_mes)
  | Some m =>
      if total <? Mes.coste_total_mes m
      then (Some candidata, costes_mes)
      else (Some m, costes_mes)
  end.

(** A row of the monthly table before and after the last two steps. *)
Definition FilaMejor : Type :=
  ((Mes.fila F * KpisAhorro F) * PctCoste F) * Distribucion F.

Definition base_mes (r : FilaMejor) : Mes.fila F := fst (fst (fst r)).
Definition kpis_mes (r : FilaMejor) : KpisAhorro F := snd (fst (fst r)).
Definition pct_mes (r : FilaMejor) : PctCoste F := snd (fst r).
Definition dist_mes (r : FilaMejor) : Distribucion F := snd r.

(** The references of the month and the savings of the winner: the
    columns [mejor.update] adds. *)
Definition kpis_del_mes (costes_mes : list F) (m : Mes.fila F) : Resultado (KpisAhorro F) :=
  let ref_mediana := serie_median costes_mes in
  let ref_peor := serie_max costes_mes in
  let ahorro_vs_mediana := ref_mediana - Mes.coste_total_mes m in
  let ahorro_vs_peor := ref_peor - Mes.coste_total_mes m in
  pct_mediana <- _safe_pct ahorro_vs_mediana ref_mediana ;;
  pct_peor <- _safe_pct ahorro_vs_peor ref_peor ;;
  Ok {| ref_mediana_coste_total := ref_mediana;
        ref_peor_coste_total := ref_peor;
        ahorro_vs_mediana_eur := ahorro_vs_mediana;
        ahorro_vs_mediana_pct := pct_mediana;
        ahorro_vs_peor_eur := ahorro_vs_peor;
        ahorro_vs_peor_pct := pct_peor |}.

(** Body of the loop over the [(anio, mes)] groups. *)
Definition mejor_del_grupo (tarifas_df : list (Tarifa.t F))
  (potencia_kw_valle potencia_kw_punta_llano : F)
  (grupo : (N * N) * list (Consumo F * Periodo))
  : Resultado (Mes.fila F * KpisAhorro F) :=
  let '((anio, mes), g) := grupo in
  let kwh_map := groupby_periodo_kwh_sum g in
  let kwh_punta := dict_get kwh_map punta_LV cero in
  let kwh_llano := dict_get kwh_map llano_LV cero in
  let kwh_valle_lv := dict_get kwh_map valle_LV cero in
  let kwh_valle_sd := dict_get kwh_map valle_SD cero in
  let total_kwh_mes := kwh_punta + kwh_llano + kwh_valle_lv + kwh_valle_sd in
  let '(mejor, costes_mes) :=
    fold_left (paso_tarifa anio mes kwh_punta kwh_llano kwh_valle_lv kwh_valle_sd
                           total_kwh_mes potencia_kw_valle potencia_kw_punta_llano)
              tarifas_df (None, []) in
  match mejor with
  | None => Raise TypeError
  | Some m =>
      kpis <- kpis_del_mes costes_mes m ;;
      Ok (m, kpis)
  end.

(** Body of the last loop: the distribution of the month of one row,
    recomputed from the rows of [df] of that month. *)
Definition distribucion_del_mes (df : list (Consumo F * Periodo)) (anio mes : N)
  : Resultado (Distribucion F) :=
  let sub := del_mes (anio, mes) df in
  let km := groupby_periodo_kwh_sum sub in
  let kwh_punta := dict_get km punta_LV cero in
  let kwh_llano := dict_get km llano_LV cero in
  let kwh_valle_lv := dict_get km valle_LV cero in
  let kwh_valle_sd := dict_get km valle_SD cero in
  let total_kwh_mes := kwh_punta + kwh_llano + kwh_valle_lv + kwh_valle_sd in
  distribucion kwh_punta kwh_llano kwh_valle_lv kwh_valle_sd total_kwh_mes.

Definition calcular_mejor_tarifa_por_mes
  (consumo_df : list (Consumo F)) (tarifas_df : list (Tarifa.t F))
  (potencia_kw_valle potencia_kw_punta_llano : F) : Resultado (list FilaMejor) :=
  df <- con_periodo consumo_df ;;
  resultados <- para_cada (mejor_del_grupo tarifas_df potencia_kw_valle
                                           potencia_kw_punta_llano)
                          (groupby_anio_mes df) ;;
  match resultados with
  | [] => Raise KeyError
  | _ :: _ =>
      let res :=
        sort_values_anio_mes (fun r => (Mes.anio (fst r), Mes.mes (fst r))) resultados in
      res <- _anadir_pct_energia_potencia res
               (fun r => Mes.coste_energia_mes (fst r))
               (fun r => Mes.coste_potencia_mes (fst r))
               (fun r => Mes.coste_total_mes (fst r)) ;;
      filas <- para_cada (fun row => distribucion_del_mes df (Mes.anio (fst (fst row)))
                                                          (Mes.mes (fst (fst row))))
                         res ;;
      Ok (combine res filas)
  end.

End Motor.

Arguments FilaRanking F : clear implicits.
Arguments FilaMejor F : clear implicits.

(** ** Definitions used to state the properties *)

(** The classified frame, with the label the priority rule gives each row. *)
Definition clasificado {F : Type} (consumo_df : list (Consumo F))
  : list (Consumo F * Periodo) :=
  map (fun r => (r, regla_periodo (hour (timestamp r)) (es_fin_semana r))) consumo_df.

(** The kWh of one period in a window: the value that
    [float(kwh_periodo.get(p, 0.0))] reads. *)
Definition kwh_de {F : Type} {AF : Arith F} (p : Periodo) (df : list (Consumo F * Periodo)) : F :=
  dict_get (groupby_periodo_kwh_sum df) p cero.

Definition clave_lt (a b : N * N) : Prop := clave_ltb a b = true.

(** The kWh of a window: the sum of its four period sums, as both pipelines
    compute [total_kwh]. *)
Definition kwh_total_de {F : Type} {AF : Arith F} (df : list (Consumo F * Periodo)) : F :=
  (kwh_de punta_LV df + kwh_de llano_LV df + kwh_de valle_LV df + kwh_de valle_SD df)%num.

(** The total of one tariff for the kWh of one month. *)
Definition total_mes_de {F : Type} {AF : Arith F}
  (kwh_punta kwh_llano kwh_valle_lv kwh_valle_sd kv kp : F) (t : Tarifa.t F) : F :=
  (coste_energia_de kwh_punta kwh_llano kwh_valle_lv kwh_valle_sd t
   + coste_potencia_mes_de kv kp t)%num.

(** The laws of the comparisons [<] and [==] and of the subtraction that
    the engine relies on: the behaviour of zero, the order on the values that
    are not missing, and the sign of a difference of finite values. *)
Class Orden (F : Type) {AF : Arith F} : Type := {
  valido : F -> Prop;
  finito : F -> Prop;
  menor_o_igual : F -> F -> Prop;
  menor_que : F -> F -> Prop;
  cero_igual : (cero =? cero)%num = true;
  cero_no_menor : (cero <? cero)%num = false;
  positivo_no_cero : forall y, (cero <? y)%num = true -> (y =? cero)%num = false;
  finito_valido : forall x, finito x -> valido x;
  valido_no_na : forall x, valido x -> isna x = false;
  menor_true : forall x y, (x <? y)%num = true -> menor_que x y;
  menor_false : forall x y, valido x -> valido y -> (x <? y)%num = false
                            -> menor_o_igual y x;
  menor_trans : forall x y z, (x <? y)%num = true -> (y <? z)%num = true
                              -> (x <? z)%num = true;
  menor_irrefl : forall x, (x <? x)%num = false;
  menor_o_igual_refl : forall x, valido x -> menor_o_igual x x;
  menor_o_igual_trans : forall x y z, menor_o_igual x y -> menor_o_igual y z
                                      -> menor_o_igual x z;
  menor_que_debil : forall x y, menor_que x y -> menor_o_igual x y;
  menor_que_o_igual : forall x y z, menor_que x y -> menor_o_igual y z -> menor_que x z;
  resta_no_negativa : forall x p, finito x -> finito p -> menor_o_igual x p
                                  -> menor_o_igual cero (p - x)%num
}.

Arguments Orden F {AF}.

Infix "<=" := menor_o_igual : num_scope.
Infix "<" := menor_que : num_scope.

(** Rank of a binary64 value in the order of its comparisons: sign class,
    then exponent, then mantissa; [None] for NaN. *)
Definition rango (f : spec_float) : option (Z * Z * Z) :=
  match f with
  | S754_nan => None
  | S754_infinity true => Some (-2, 0, 0)%Z
  | S754_infinity false => Some (2, 0, 0)%Z
  | S754_zero _ => Some (0, 0, 0)%Z
  | S754_finite true m e => Some (-1, - e, Z.neg m)%Z
  | S754_finite false m e => Some (1, e, Z.pos m)%Z
  end.

(** The binary64 values that are zero or positive, infinite or not. *)
Definition no_negativo (f : spec_float) : Prop :=
  match f with
  | S754_zero _ => True
  | S754_infinity false => True
  | S754_finite false _ _ => True
  | _ => False
  end.

(** The binary64 values that are neither NaN nor infinite. *)
Definition finito_SF (f : spec_float) : Prop :=
  match f with
  | S754_zero _ => True
  | S754_finite _ _ _ => True
  | _ => False
  end.

Definition lex3 (a b : Z * Z * Z) : comparison :=
  match (fst (fst a) ?= fst (fst b))%Z with
  | Eq => match (snd (fst a) ?= snd (fst b))%Z with
          | Eq => (snd a ?= snd b)%Z
          | c => c
          end
  | c => c
  end.

Definition menor3 (a b : Z * Z * Z) : Prop :=
  (fst (fst a) < fst (fst b)
   \/ (fst (fst a) = fst (fst b)
       /\ (snd (fst a) < snd (fst b)
           \/ (snd (fst a) = snd (fst b) /\ snd a < snd b))))%Z.

(** [m] is the row of the first tariff of [vistas] with the least total. *)
Definition es_mejor {F : Type} {AF : Arith F} {OF : Orden F}
  (total : Tarifa.t F -> F) (fila : Tarifa.t F -> Mes.fila F)
  (vistas : list (Tarifa.t F)) (m : Mes.fila F) : Prop :=
  exists (i : nat) (t : Tarifa.t F),
    nth_error vistas i = Some t
    /\ m = fila t
    /\ (forall t', In t' vistas -> (total t <= total t')%num)
    /\ (forall j t', (j < i)%nat -> nth_error vistas j = Some t'
                     -> (total t < total t')%num).

(** Order of the rows of the ranking by total cost, in exact arithmetic. *)
Definition le_total (a b : Anual.fila Qc) : Prop :=
  (Anual.coste_total_anual a <= Anual.coste_total_anual b)%Qc.

(** The values the engine computes where Python could raise: what
    [_safe_pct], [fila_anual] and the added columns return when they return. *)
Definition porcentaje {F : Type} {AF : Arith F} (parte total : F) : F :=
  if (total =? cero)%num then cero else ((parte / total) * cien)%num.

Definition kpis_de {F : Type} {AF : Arith F} (mediana peor coste : F) : KpisAhorro F :=
  {| ref_mediana_coste_total := mediana;
     ref_peor_coste_total := peor;
     ahorro_vs_mediana_eur := (mediana - coste)%num;
     ahorro_vs_peor_eur := (peor - coste)%num;
     ahorro_vs_mediana_pct := porcentaje (mediana - coste)%num mediana;
     ahorro_vs_peor_pct := porcentaje (peor - coste)%num peor |}.

Definition pct_coste_de {F : Type} {AF : Arith F} (energia potencia total : F) : PctCoste F :=
  {| pct_coste_energia := porcentaje energia total;
     pct_coste_potencia := porcentaje potencia total |}.

Definition distribucion_de {F : Type} {AF : Arith F}
  (kwh_punta kwh_llano kwh_valle_lv kwh_valle_sd total_kwh : F) : Distribucion F :=
  {| kwh_punta_LV := kwh_punta;
     kwh_llano_LV := kwh_llano;
     kwh_valle_LV := kwh_valle_lv;
     kwh_valle_SD := kwh_valle_sd;
     pct_kwh_punta_LV := porcentaje kwh_punta total_kwh;
     pct_kwh_llano_LV := porcentaje kwh_llano total_kwh;
     pct_kwh_valle_LV := porcentaje kwh_valle_lv total_kwh;
     pct_kwh_valle_SD := porcentaje kwh_valle_sd total_kwh |}.

Definition fila_anual_de {F : Type} {AF : Arith F}
  (kwh_punta kwh_llano kwh_valle_lv kwh_valle_sd total_kwh kv kp : F) (t : Tarifa.t F)
  : Anual.fila F :=
  let total :=
    (coste_energia_de kwh_punta kwh_llano kwh_valle_lv kwh_valle_sd t
     + coste_potencia_anual_de kv kp t)%num in
  {| Anual.comercializadora := Tarifa.comercializadora t;
     Anual.tarifa := Tarifa.tarifa t;
     Anual.kwh_anuales := total_kwh;
     Anual.coste_energia_anual :=
       coste_energia_de kwh_punta kwh_llano kwh_valle_lv kwh_valle_sd t;
     Anual.coste_potencia_anual := coste_potencia_anual_de kv kp t;
     Anual.coste_total_anual := total;
     Anual.coste_medio_eur_kwh :=
       if (cero <? total_kwh)%num then (total / total_kwh)%num else cero |}.

(** A row of the ranking, from its loop columns and the references and
    distribution of the table. *)
Definition fila_ranking_de {F : Type} {AF : Arith F}
  (mediana peor : F) (d : Distribucion F) (r : Anual.fila F) : FilaRanking F :=
  (((r, kpis_de mediana peor (Anual.coste_total_anual r)),
    pct_coste_de (Anual.coste_energia_anual r) (Anual.coste_potencia_anual r)
                 (Anual.coste_total_anual r)),
   d).

(** A row of the monthly table, from the winner of the month with its
    savings and the classified frame. *)
Definition fila_mejor_de {F : Type} {AF : Arith F}
  (df : list (Consumo F * Periodo)) (x : Mes.fila F * KpisAhorro F) : FilaMejor F :=
  let sub := del_mes (Mes.anio (fst x), Mes.mes (fst x)) df in
  ((x, pct_coste_de (Mes.coste_energia_mes (fst x)) (Mes.coste_potencia_mes (fst x))
                    (Mes.coste_total_mes (fst x))),
   distribucion_de (kwh_de punta_LV sub) (kwh_de llano_LV sub)
                   (kwh_de valle_LV sub) (kwh_de valle_SD sub) (kwh_total_de sub)).

(** For the kWh of a window: the records of the frame that fall in a
    month, the records the priority rule gives a label, and the sum of a list
    of rationals. *)
Definition registros_del_mes {F : Type} (anio mes : N) (consumo_df : list (Consumo F))
  : list (Consumo F) :=
  filter (fun c => ((year (timestamp c) =? anio) && (month (timestamp c) =? mes))%N)
         consumo_df.

Definition registros_del_periodo {F : Type} (p : Periodo) (consumo_df : list (Consumo F))
  : list (Consumo F) :=
  filter (fun c => Periodo_eqb (regla_periodo (hour (timestamp c)) (es_fin_semana c)) p)
         consumo_df.

Fixpoint suma_exacta (l : list Qc) : Qc :=
  match l with
  | [] => 0%Qc
  | x :: l' => (x + suma_exacta l')%Qc
  end.

(** The four masked assignments, read one cell at a time. *)
Definition celda (h : N) (fin_semana : bool) : option Periodo :=
  let c0 := @None Periodo in
  let c1 := if fin_semana then Some valle_SD else c0 in
  let c2 := if negb fin_semana && (h <? 8)%N then Some valle_LV else c1 in
  let c3 :=
    if negb fin_semana
       && (((10 <=? h)%N && (h <? 14)%N) || ((18 <=? h)%N && (h <? 22)%N))
    then Some punta_LV else c2 in
  if negb fin_semana && match c3 with None => true | Some _ => false end
  then Some llano_LV else c3.


(** ** Example data *)

Definition martes_12h : Timestamp :=
  {| year := 2025; month := 3; day := 4; hour := 12; minute := 0 |}.

Definition sabado_23h : Timestamp :=
  {| year := 2025; month := 3; day := 8; hour := 23; minute := 0 |}.


(** The scenario of the specification: 100 kWh at 12:00 on a Tuesday, and
    one tariff with no power charge; the contracted powers are those of
    [main.py]. *)
Definition consumo_escenario : list (Consumo float) :=
  [ {| timestamp := martes_12h; kwh := 100%float; es_fin_semana := false |} ].

Definition tarifa_escenario : Tarifa.t float :=
  {| Tarifa.comercializadora := "Comercializadora A"%string;
     Tarifa.tarifa := "Tarifa 1"%string;
     Tarifa.punta_LV := 0.20%float;
     Tarifa.llano_LV := 0.15%float;
     Tarifa.valle_LV := 0.10%float;
     Tarifa.valle_SD := 0.08%float;
     Tarifa.potencia_mes_valle := 0%float;
     Tarifa.potencia_mes_punta_llano := 0%float |}.

Definition potencia_kw_valle_main : float := 3.45%float.
Definition potencia_kw_punta_llano_main : float := 4.60%float.

(** The same scenario with a tariff that bills power: 2 and 3 euros per kW
    and month. *)
Definition tarifa_con_potencia : Tarifa.t float :=
  {| Tarifa.comercializadora := "Comercializadora B"%string;
     Tarifa.tarifa := "Tarifa 2"%string;
     Tarifa.punta_LV := 0.20%float;
     Tarifa.llano_LV := 0.15%float;
     Tarifa.valle_LV := 0.10%float;
     Tarifa.valle_SD := 0.08%float;
     Tarifa.potencia_mes_valle := 2%float;
     Tarifa.potencia_mes_punta_llano := 3%float |}.

(** The scenario in exact arithmetic. *)
Definition centesimas (n : Z) : Qc := Q2Qc (n # 100).

Definition consumo_exacto : list (Consumo Qc) :=
  [ {| timestamp := martes_12h; kwh := Qc_of_Z 100; es_fin_semana := false |} ].

Definition tarifa_exacta_1 : Tarifa.t Qc :=
  {| Tarifa.comercializadora := "Comercializadora A"%string;
     Tarifa.tarifa := "Tarifa 1"%string;
     Tarifa.punta_LV := centesimas 20;
     Tarifa.llano_LV := centesimas 15;
     Tarifa.valle_LV := centesimas 10;
     Tarifa.valle_SD := centesimas 8;
     Tarifa.potencia_mes_valle := Qc_of_Z 2;
     Tarifa.potencia_mes_punta_llano := Qc_of_Z 3 |}.

Definition tarifa_exacta_2 : Tarifa.t Qc :=
  {| Tarifa.comercializadora := "Comercializadora B"%string;
     Tarifa.tarifa := "Tarifa 2"%string;
     Tarifa.punta_LV := centesimas 20;
     Tarifa.llano_LV := centesimas 15;
     Tarifa.valle_LV := centesimas 10;
     Tarifa.valle_SD := centesimas 8;
     Tarifa.potencia_mes_valle := Qc_of_Z 2;
     Tarifa.potencia_mes_punta_llano := Qc_of_Z 3 |}.

Definition potencia_kw_valle_exacta : Qc := centesimas 345.
Definition potencia_kw_punta_llano_exacta : Qc := centesimas 460.

(** A second tariff with the prices and charges of [tarifa_con_potencia]. *)
Definition tarifa_gemela : Tarifa.t float :=
  {| Tarifa.comercializadora := "Comercializadora C"%string;
     Tarifa.tarifa := "Tarifa 3"%string;
     Tarifa.punta_LV := 0.20%float;
     Tarifa.llano_LV := 0.15%float;
     Tarifa.valle_LV := 0.10%float;
     Tarifa.valle_SD := 0.08%float;
     Tarifa.potencia_mes_valle := 2%float;
     Tarifa.potencia_mes_punta_llano := 3%float |}.

(** A tariff whose peak price is missing (an empty cell of the catalog file
    is read as NaN), and one whose peak price makes the cost of 100 kWh
    overflow. *)
Definition tarifa_sin_precio : Tarifa.t float :=
  {| Tarifa.comercializadora := "Comercializadora D"%string;
     Tarifa.tarifa := "Sin precio"%string;
     Tarifa.punta_LV := PrimFloat.nan;
     Tarifa.llano_LV := 0.15%float;
     Tarifa.valle_LV := 0.10%float;
     Tarifa.valle_SD := 0.08%float;
     Tarifa.potencia_mes_valle := 0%float;
     Tarifa.potencia_mes_punta_llano := 0%float |}.

Definition tarifa_desbordada : Tarifa.t float :=
  {| Tarifa.comercializadora := "Comercializadora E"%string;
     Tarifa.tarifa := "Desbordada"%string;
     Tarifa.punta_LV := 1e307%float;
     Tarifa.llano_LV := 0.15%float;
     Tarifa.valle_LV := 0.10%float;
     Tarifa.valle_SD := 0.08%float;
     Tarifa.potencia_mes_valle := 0%float;
     Tarifa.potencia_mes_punta_llano := 0%float |}.

(** Seven records over two months: in March three at peak, one at night
    and one on a Saturday, in April two in the morning. *)
Definition a_las (mes dia hora : N) : Timestamp :=
  {| year := 2025; month := mes; day := dia; hour := hora; minute := 0 |}.

Definition consumo_marzo_abril : list (Consumo float) :=
  [ {| timestamp := a_las 3 4 12; kwh := 0.1%float; es_fin_semana := false |};
    {| timestamp := a_las 3 4 3; kwh := 0.25%float; es_fin_semana := false |};
    {| timestamp := a_las 3 4 13; kwh := 0.2%float; es_fin_semana := false |};
    {| timestamp := a_las 4 1 9; kwh := 0.5%float; es_fin_semana := false |};
    {| timestamp := a_las 3 5 19; kwh := 0.3%float; es_fin_semana := false |};
    {| timestamp := a_las 3 8 23; kwh := 0.4%float; es_fin_semana := true |};
    {| timestamp := a_las 4 1 8; kwh := 0.7%float; es_fin_semana := false |} ].

Definition consumo_marzo_abril_exacto : list (Consumo Qc) :=
  [ {| timestamp := a_las 3 4 12; kwh := centesimas 10; es_fin_semana := false |};
    {| timestamp := a_las 3 4 3; kwh := centesimas 25; es_fin_semana := false |};
    {| timestamp := a_las 3 4 13; kwh := centesimas 20; es_fin_semana := false |};
    {| timestamp := a_las 4 1 9; kwh := centesimas 50; es_fin_semana := false |};
    {| timestamp := a_las 3 5 19; kwh := centesimas 30; es_fin_semana := false |};
    {| timestamp := a_las 3 8 23; kwh := centesimas 40; es_fin_semana := true |};
    {| timestamp := a_las 4 1 8; kwh := centesimas 70; es_fin_semana := false |} ].

(** ** Definitions used to state the further properties *)

(** The row the annual loop builds for one tariff from the data of a frame. *)
Definition fila_anual_del_consumo {F : Type} {AF : Arith F}
  (consumo_df : list (Consumo F)) (kv kp : F) (t : Tarifa.t F) : Anual.fila F :=
  let df := clasificado consumo_df in
  fila_anual_de (kwh_de punta_LV df) (kwh_de llano_LV df)
                (kwh_de valle_LV df) (kwh_de valle_SD df) (kwh_total_de df) kv kp t.

(** The total the monthly loop computes for one tariff from the records of
    one month. *)
Definition total_del_grupo {F : Type} {AF : Arith F}
  (g : list (Consumo F * Periodo)) (kv kp : F) (t : Tarifa.t F) : F :=
  total_mes_de (kwh_de punta_LV g) (kwh_de llano_LV g)
               (kwh_de valle_LV g) (kwh_de valle_SD g) kv kp t.

(** The pair that names a tariff. *)
Definition nombre_tarifa {F : Type} (t : Tarifa.t F) : string * string :=
  (Tarifa.comercializadora t, Tarifa.tarifa t).

Definition nombre_fila_anual {F : Type} (r : Anual.fila F) : string * string :=
  (Anual.comercializadora r, Anual.tarifa r).

(** The energy cost the monthly loop computes for one tariff from the
    records of one month. *)
Definition energia_del_grupo {F : Type} {AF : Arith F}
  (g : list (Consumo F * Periodo)) (t : Tarifa.t F) : F :=
  coste_energia_de (kwh_de punta_LV g) (kwh_de llano_LV g)
                   (kwh_de valle_LV g) (kwh_de valle_SD g) t.

(** Tariff [a] is at most as expensive as tariff [b] in each of its four
    prices and its two power charges. *)
Definition no_mas_cara (a b : Tarifa.t Qc) : Prop :=
  (Tarifa.punta_LV a <= Tarifa.punta_LV b)%Qc
  /\ (Tarifa.llano_LV a <= Tarifa.llano_LV b)%Qc
  /\ (Tarifa.valle_LV a <= Tarifa.valle_LV b)%Qc
  /\ (Tarifa.valle_SD a <= Tarifa.valle_SD b)%Qc
  /\ (Tarifa.potencia_mes_valle a <= Tarifa.potencia_mes_valle b)%Qc
  /\ (Tarifa.potencia_mes_punta_llano a <= Tarifa.potencia_mes_punta_llano b)%Qc.

(** Number of records that carry a label. *)
Definition cuenta (p : Periodo) (etiquetas : list Periodo) : nat :=
  length (filter (Periodo_eqb p) etiquetas).

(** The hours of a day, as [dt.hour] gives them. *)
Definition horas_del_dia : list N :=
  [0; 1; 2; 3; 4; 5; 6; 7; 8; 9; 10; 11; 12; 13; 14; 15; 16; 17; 18; 19; 20; 21; 22; 23]%N.

(** ** Further example data *)

Definition abril_03h : Timestamp :=
  {| year := 2025; month := 4; day := 1; hour := 3; minute := 0 |}.

Definition abril_09h : Timestamp :=
  {| year := 2025; month := 4; day := 1; hour := 9; minute := 0 |}.

(** Four records over two months, one in each period. *)
Definition consumo_dos_meses : list (Consumo float) :=
  [ {| timestamp := martes_12h; kwh := 100%float; es_fin_semana := false |};
    {| timestamp := sabado_23h; kwh := 40%float; es_fin_semana := true |};
    {| timestamp := abril_03h; kwh := 60%float; es_fin_semana := false |};
    {| timestamp := abril_09h; kwh := 20%float; es_fin_semana := false |} ].

Definition consumo_dos_meses_exacto : list (Consumo Qc) :=
  [ {| timestamp := martes_12h; kwh := Qc_of_Z 100; es_fin_semana := false |};
    {| timestamp := sabado_23h; kwh := Qc_of_Z 40; es_fin_semana := true |};
    {| timestamp := abril_03h; kwh := Qc_of_Z 60; es_fin_semana := false |};
    {| timestamp := abril_09h; kwh := Qc_of_Z 20; es_fin_semana := false |} ].

(** The same records, the last first. *)
Definition consumo_dos_meses_reordenado : list (Consumo Qc) :=
  [ {| timestamp := abril_09h; kwh := Qc_of_Z 20; es_fin_semana := false |};
    {| timestamp := martes_12h; kwh := Qc_of_Z 100; es_fin_semana := false |};
    {| timestamp := sabado_23h; kwh := Qc_of_Z 40; es_fin_semana := true |};
    {| timestamp := abril_03h; kwh := Qc_of_Z 60; es_fin_semana := false |} ].

(** A tariff with lower prices and charges than [tarifa_exacta_1]. *)
Definition tarifa_exacta_barata : Tarifa.t Qc :=
  {| Tarifa.comercializadora := "Comercializadora D"%string;
     Tarifa.tarifa := "Tarifa 4"%string;
     Tarifa.punta_LV := centesimas 18;
     Tarifa.llano_LV := centesimas 12;
     Tarifa.valle_LV := centesimas 7;
     Tarifa.valle_SD := centesimas 7;
     Tarifa.potencia_mes_valle := Qc_of_Z 1;
     Tarifa.potencia_mes_punta_llano := Qc_of_Z 3 |}.

(** The 24 hourly timestamps of Tuesday 4 March 2025. *)
Definition dia_4_de_marzo : list Timestamp :=
  map (fun h => {| year := 2025; month := 3; day := 4; hour := h; minute := 0 |})
      horas_del_dia.

(** ** Ingestion: the text of the hour and date columns

    The helpers of [src/io/datadis_reader.py] that work on text, before
    [pd.to_datetime] parses it.  A Python [str] is taken as its sequence of
    code points, each below 256 (the Latin-1 range, which holds every
    character of a date or an hour); a cell of a column that went through
    [astype(str)] is such a string. *)

(** [str.isspace] on one code point: TAB to CR, FS to US, the space, NEL
    and the no-break space. *)
Definition es_espacio (c : Ascii.ascii) : bool :=
  let n := Ascii.N_of_ascii c in
  (((9 <=? n) && (n <=? 13)) || ((28 <=? n) && (n <=? 32)) || (n =? 133) || (n =? 160))%N.

(** The classes of the regular expressions: [\d], [:], [\.], [[-/\.]], and
    the newline that [.] and [$] single out. *)
Definition es_digito (c : Ascii.ascii) : bool :=
  let n := Ascii.N_of_ascii c in ((48 <=? n) && (n <=? 57))%N.

Definition es_dos_puntos (c : Ascii.ascii) : bool := (Ascii.N_of_ascii c =? 58)%N.
Definition es_punto (c : Ascii.ascii) : bool := (Ascii.N_of_ascii c =? 46)%N.
Definition es_guion (c : Ascii.ascii) : bool := (Ascii.N_of_ascii c =? 45)%N.
Definition es_barra (c : Ascii.ascii) : bool := (Ascii.N_of_ascii c =? 47)%N.
Definition es_salto (c : Ascii.ascii) : bool := (Ascii.N_of_ascii c =? 10)%N.

Definition es_separador (c : Ascii.ascii) : bool := es_guion c || es_barra c || es_punto c.

(** [str.strip()]. *)
Fixpoint lstrip (s : string) : string :=
  match s with
  | EmptyString => EmptyString
  | String c s' => if es_espacio c then lstrip s' else s
  end.

Fixpoint rstrip (s : string) : string :=
  match s with
  | EmptyString => EmptyString
  | String c s' =>
      match rstrip s' with
      | EmptyString => if es_espacio c then EmptyString else String c EmptyString
      | r => String c r
      end
  end.

Definition strip (s : string) : string := rstrip (lstrip s).

(** A sequence of one-character classes matched at the start of a string:
    the rest of the string, when every class matches. *)
Fixpoint coincide (patron : list (Ascii.ascii -> bool)) (s : string) : option string :=
  match patron with
  | [] => Some s
  | clase :: patron' =>
      match s with
      | EmptyString => None
      | String c s' => if clase c then coincide patron' s' else None
      end
  end.

(** [$] without [re.MULTILINE]: the end of the string, or just before a
    newline that ends it. *)
Definition fin_de_cadena (s : string) : bool :=
  match s with
  | EmptyString => true
  | String c EmptyString => es_salto c
  | _ => false
  end.

(** [re.match(r"^\d{1,2}:\d{2}$", s)]. *)
Definition coincide_hhmm (s : string) : bool :=
  match coincide [es_digito; es_digito; es_dos_puntos; es_digito; es_digito] s with
  | Some r => fin_de_cadena r
  | None => false
  end
  || match coincide [es_digito; es_dos_puntos; es_digito; es_digito] s with
     | Some r => fin_de_cadena r
     | None => false
     end.

(** [re.match(r"^\d{1}:\d{2}:\d{2}$", s)]. *)
Definition coincide_h_mm_ss (s : string) : bool :=
  match coincide [es_digito; es_dos_puntos; es_digito; es_digito;
                  es_dos_puntos; es_digito; es_digito] s with
  | Some r => fin_de_cadena r
  | None => false
  end.

(** [.*$] after the dot: the rest of the line has to reach the end of the
    string; what it leaves unmatched is the newline that ends the string, if
    there is one. *)
Fixpoint resto_de_linea (s : string) : option string :=
  match s with
  | EmptyString => Some EmptyString
  | String c s' =>
      if es_salto c
      then match s' with
           | EmptyString => Some s
           | _ => None
           end
      else resto_de_linea s'
  end.

(** The text that replaces a match of [(\d{2}:\d{2}:\d{2})\..*$] starting
    at the head of [s], with what follows the match. *)
Definition fraccion_en_cabeza (s : string) : option string :=
  match coincide [es_digito; es_digito; es_dos_puntos; es_digito; es_digito;
                  es_dos_puntos; es_digito; es_digito; es_punto] s with
  | Some r =>
      match resto_de_linea r with
      | Some final => Some (substring 0 8 s ++ final)%string
      | None => None
      end
  | None => None
  end.

(** [re.sub(r"(\d{2}:\d{2}:\d{2})\..*$", r"\1", s)]: the leftmost match
    runs to the end of the string, so it is the only one. *)
Fixpoint quitar_fraccion (s : string) : string :=
  match s with
  | EmptyString => EmptyString
  | String c s' =>
      match fraccion_en_cabeza s with
      | Some res => res
      | None => String c (quitar_fraccion s')
      end
  end.

(** The four steps of [_normalizar_hora_a_hhmmss] on one cell. *)
Definition normalizar_hora (hora : string) : string :=
  let h := strip hora in
  let h := quitar_fraccion h in
  let h := if coincide_hhmm h then (h ++ ":00")%string else h in
  if coincide_h_mm_ss h then ("0" ++ h)%string else h.

Definition _normalizar_hora_a_hhmmss (hora_series : list string) : list string :=
  let h := map strip hora_series in
  let h := map quitar_fraccion h in
  let mask_hhmm := map coincide_hhmm h in
  let h := map (fun fila : bool * string =>
                  if fst fila then (snd fila ++ ":00")%string else snd fila)
               (combine mask_hhmm h) in
  let mask_h1 := map coincide_h_mm_ss h in
  map (fun fila : bool * string =>
         if fst fila then ("0" ++ snd fila)%string else snd fila)
      (combine mask_h1 h).

(** [re.match(r"^\d{4}[-/\.]", s)]. *)
Definition empieza_por_anio (s : string) : bool :=
  match coincide [es_digito; es_digito; es_digito; es_digito; es_separador] s with
  | Some _ => true
  | None => false
  end.

(** [Series.dropna()] on a column of text with missing cells. *)
Definition dropna (s : list (option string)) : list string :=
  flat_map (fun c => match c with Some x => [x] | None => [] end) s.

(** The pair [(dayfirst, yearfirst)]. *)
Definition _inferir_formato_fecha (fecha_series : list (option string)) : bool * bool :=
  let sample := map strip (dropna fecha_series) in
  match sample with
  | [] => (true, false)
  | s :: _ => if empieza_por_anio s then (false, true) else (true, false)
  end.

(** The characters [-], [/] and [.]. *)
Definition guion : Ascii.ascii := Ascii.ascii_of_N 45.
Definition barra : Ascii.ascii := Ascii.ascii_of_N 47.
Definition punto : Ascii.ascii := Ascii.ascii_of_N 46.

(** [str.replace(a, b, regex=False)] for one-character [a] and [b]. *)
Fixpoint reemplazar (a b : Ascii.ascii) (s : string) : string :=
  match s with
  | EmptyString => EmptyString
  | String c s' => String (if Ascii.eqb c a then b else c) (reemplazar a b s')
  end.

(** What [read_consumo_datadis_csv] hands to [pd.to_datetime] and keeps for
    the day it adds afterwards: the date text, the two flags, the hour text
    and the mask of the rows given as 24:00. *)
Record FechaHora : Type := {
  fecha : list string;
  dayfirst : bool;
  yearfirst : bool;
  hora_norm : list string;
  mask_24 : list bool
}.

Definition isin (valores : list string) (s : string) : bool :=
  existsb (String.eqb s) valores.

(** The statements of [read_consumo_datadis_csv] between the choice of the
    columns and the call of [pd.to_datetime]. *)
Definition preparar_fecha_hora (col_fecha col_hora : list string) : FechaHora :=
  let fecha := map strip col_fecha in
  let fecha := map (reemplazar guion barra) (map (reemplazar punto barra) fecha) in
  let '(dayfirst, yearfirst) := _inferir_formato_fecha (map Some fecha) in
  let hora_raw := map strip col_hora in
  let hora_norm := _normalizar_hora_a_hhmmss hora_raw in
  let mask_24 :=
    serie_or (map (isin ["24:00"; "24:00:00"]%string) hora_raw)
             (map (isin ["24:00:00"]%string) hora_norm) in
  let hora_norm :=
    map (fun fila : bool * string => if fst fila then "00:00:00"%string else snd fila)
        (combine mask_24 hora_norm) in
  {| fecha := fecha; dayfirst := dayfirst; yearfirst := yearfirst;
     hora_norm := hora_norm; mask_24 := mask_24 |}.

(** Statement side: a text of blanks only, a text of digits only, a text
    with no newline, and the shape [HH:MM:SS]. *)
Fixpoint todo (clase : Ascii.ascii -> bool) (s : string) : bool :=
  match s with
  | EmptyString => true
  | String c s' => clase c && todo clase s'
  end.

Definition es_hhmmss (s : string) : bool :=
  match coincide [es_digito; es_digito; es_dos_puntos; es_digito; es_digito;
                  es_dos_puntos; es_digito; es_digito] s with
  | Some EmptyString => true
  | _ => false
  end.

Definition dos_puntos : Ascii.ascii := Ascii.ascii_of_N 58.

Definition no_espacio (c : Ascii.ascii) : bool := negb (es_espacio c).
Definition no_salto (c : Ascii.ascii) : bool := negb (es_salto c).

(** The character [reemplazar a b] writes for [c]. *)
Definition cambia (a b c : Ascii.ascii) : Ascii.ascii := if Ascii.eqb c a then b else c.

(** ** The catalogue as it is read

    [read_comercializadoras_csv], after the prices have been made numbers:
    the two name columns are turned into text, the names lose the blanks
    around them, and of the rows that share the pair (comercializadora,
    tarifa) only the first is kept, in the order of the frame. *)

(** [.str.strip()] on the two name columns of one row, once they are
    text. *)
Definition limpiar_nombres {F : Type} (t : Tarifa.t F) : Tarifa.t F :=
  {| Tarifa.comercializadora := strip (Tarifa.comercializadora t);
     Tarifa.tarifa := strip (Tarifa.tarifa t);
     Tarifa.punta_LV := Tarifa.punta_LV t;
     Tarifa.llano_LV := Tarifa.llano_LV t;
     Tarifa.valle_LV := Tarifa.valle_LV t;
     Tarifa.valle_SD := Tarifa.valle_SD t;
     Tarifa.potencia_mes_valle := Tarifa.potencia_mes_valle t;
     Tarifa.potencia_mes_punta_llano := Tarifa.potencia_mes_punta_llano t |}.

Definition mismo_nombre (a b : string * string) : bool :=
  String.eqb (fst a) (fst b) && String.eqb (snd a) (snd b).

(** [df.drop_duplicates(subset=["comercializadora", "tarifa"])]: a row is
    dropped when its pair has been seen in a row above it. *)
Fixpoint drop_duplicates_desde {F : Type} (vistas : list (string * string))
    (df : list (Tarifa.t F)) : list (Tarifa.t F) :=
  match df with
  | [] => []
  | t :: resto =>
      if existsb (mismo_nombre (nombre_tarifa t)) vistas
      then drop_duplicates_desde vistas resto
      else t :: drop_duplicates_desde (nombre_tarifa t :: vistas) resto
  end.

Definition drop_duplicates {F : Type} (df : list (Tarifa.t F)) : list (Tarifa.t F) :=
  drop_duplicates_desde [] df.

(** Lines 63 to 66 of [read_comercializadoras_csv] on a frame whose name
    columns are text, which [astype(str)] leaves as they are. *)
Definition limpiar_comercializadoras {F : Type} (df : list (Tarifa.t F)) : list (Tarifa.t F) :=
  drop_duplicates (map limpiar_nombres df).

(** A row of the frame [pd.read_csv] returns: the cells of the two name
    columns have the type [C] the parser gave them (text, or numbers and
    missing values when the names look like numbers or are empty). *)
Module Leida.
Record t (C F : Type) : Type := {
  comercializadora : C;
  tarifa : C;
  punta_LV : F;
  llano_LV : F;
  valle_LV : F;
  valle_SD : F;
  potencia_mes_valle : F;
  potencia_mes_punta_llano : F
}.
End Leida.

(** [.astype(str)] on the two name columns of one row; [astype_str] is the
    text pandas writes for a cell. *)
Definition nombres_como_texto {C F : Type} (astype_str : C -> string) (t : Leida.t C F)
  : Tarifa.t F :=
  {| Tarifa.comercializadora := astype_str (Leida.comercializadora t);
     Tarifa.tarifa := astype_str (Leida.tarifa t);
     Tarifa.punta_LV := Leida.punta_LV t;
     Tarifa.llano_LV := Leida.llano_LV t;
     Tarifa.valle_LV := Leida.valle_LV t;
     Tarifa.valle_SD := Leida.valle_SD t;
     Tarifa.potencia_mes_valle := Leida.potencia_mes_valle t;
     Tarifa.potencia_mes_punta_llano := Leida.potencia_mes_punta_llano t |}.

(** Lines 63 to 66 of [read_comercializadoras_csv]. *)
Definition limpiar_lo_leido {C F : Type} (astype_str : C -> string)
  (df : list (Leida.t C F)) : list (Tarifa.t F) :=
  limpiar_comercializadoras (map (nombres_como_texto astype_str) df).

(** A catalogue file whose third row repeats the second, with blanks around
    the names and another price. *)
Definition tarifa_repetida : Tarifa.t float :=
  {| Tarifa.comercializadora := " Comercializadora A"%string;
     Tarifa.tarifa := "Tarifa 1 "%string;
     Tarifa.punta_LV := 0.25%float;
     Tarifa.llano_LV := 0.15%float;
     Tarifa.valle_LV := 0.10%float;
     Tarifa.valle_SD := 0.08%float;
     Tarifa.potencia_mes_valle := 0%float;
     Tarifa.potencia_mes_punta_llano := 0%float |}.

Definition catalogo_con_repetida : list (Tarifa.t float) :=
  [tarifa_con_potencia; tarifa_escenario; tarifa_repetida].

(** * Properties *)

(** ** Period classifier *)

Lemma serie_and_map {A : Type} (f g : A -> bool) (l : list A) :
  serie_and (map f l) (map g l) = map (fun x => f x && g x) l.
Proof.
  induction l as [|x l IH]; simpl; [reflexivity | now rewrite IH].
Qed.

Lemma serie_or_map {A : Type} (f g : A -> bool) (l : list A) :
  serie_or (map f l) (map g l) = map (fun x => f x || g x) l.
Proof.
  induction l as [|x l IH]; simpl; [reflexivity | now rewrite IH].
Qed.

Lemma loc_set_map {A B : Type} (m : A -> bool) (v : B) (c : A -> option B) (l : list A) :
  loc_set (map m l) v (map c l) = map (fun x => if m x then Some v else c x) l.
Proof.
  induction l as [|x l IH]; simpl; [reflexivity | now rewrite IH].
Qed.

Lemma sin_na_map_Some {A B : Type} (f : A -> B) (l : list A) :
  sin_na (map (fun x => Some (f x)) l) = Some (map f l).
Proof.
  induction l as [|x l IH]; simpl; [reflexivity | now rewrite IH].
Qed.

Lemma celda_regla (h : N) (fin_semana : bool) :
  celda h fin_semana = Some (regla_periodo h fin_semana).
Proof.
  unfold celda, regla_periodo.
  assert (H0 : (0 <=? h)%N = true) by (apply N.leb_le; lia).
  rewrite H0.
  destruct fin_semana; simpl; [reflexivity|].
  destruct (h <? 8)%N eqn:H8; simpl.
  - assert (H10 : (10 <=? h)%N = false) by (apply N.leb_gt; apply N.ltb_lt in H8; lia).
    assert (H18 : (18 <=? h)%N = false) by (apply N.leb_gt; apply N.ltb_lt in H8; lia).
    rewrite H10, H18; reflexivity.
  - destruct (((10 <=? h)%N && (h <? 14)%N) || ((18 <=? h)%N && (h <? 22)%N)); reflexivity.
Qed.

Lemma clasificar_periodo_por_filas {A : Type} (ts : A -> Timestamp) (fs : A -> bool)
  (l : list A) :
  _clasificar_periodo (map ts l) (map fs l)
  = Ok (map (fun x => regla_periodo (hour (ts x)) (fs x)) l).
Proof.
  unfold _clasificar_periodo.
  rewrite !map_map.
  rewrite (loc_set_map fs valle_SD (fun _ => None)).
  rewrite (serie_and_map (fun x => negb (fs x)) (fun x => (hour (ts x) <? 8)%N)).
  rewrite loc_set_map.
  rewrite !serie_and_map, serie_or_map, serie_and_map.
  rewrite loc_set_map.
  unfold serie_isna. rewrite map_map, serie_and_map, loc_set_map.
  match goal with
  | |- context [sin_na (map ?f l)] =>
      rewrite (map_ext f (fun x => Some (regla_periodo (hour (ts x)) (fs x))))
  end.
  - rewrite sin_na_map_Some. reflexivity.
  - intros a. rewrite <- celda_regla. reflexivity.
Qed.

Lemma combine_fst_snd {A B : Type} (a : list A) (b : list B) :
  length a = length b ->
  map fst (combine a b) = a /\ map snd (combine a b) = b.
Proof.
  revert b. induction a as [|x a IH]; intros [|y b] Hlen; simpl in *;
    try discriminate; [now split|].
  destruct (IH b) as [E1 E2]; [congruence|].
  now rewrite E1, E2.
Qed.

(** C2. Whatever the hour and the weekend flag, the classifier returns the
    period of the priority rule (weekend first, then 00-08 valley, then
    10-14 and 18-22 peak, otherwise flat); on two aligned series it applies
    the rule cell by cell, in order. *)
Theorem clasificar_periodo_regla :
  (forall (t : Timestamp) (fin_semana : bool),
      _clasificar_periodo [t] [fin_semana] = Ok [regla_periodo (hour t) fin_semana])
  /\ (forall l : list (Timestamp * bool),
         _clasificar_periodo (map fst l) (map snd l)
         = Ok (map (fun c => regla_periodo (hour (fst c)) (snd c)) l)).
Proof.
  split.
  - intros t fin_semana.
    exact (clasificar_periodo_por_filas fst snd [(t, fin_semana)]).
  - intros l. apply clasificar_periodo_por_filas.
Qed.

(** C6. On aligned series the classifier labels every record: it returns
    one period per record and never raises the classification error. *)
Theorem clasificar_periodo_total (timestamp : list Timestamp) (es_fin_semana : list bool) :
  length timestamp = length es_fin_semana ->
  _clasificar_periodo timestamp es_fin_semana <> Raise ValueError
  /\ exists etiquetas : list Periodo,
      _clasificar_periodo timestamp es_fin_semana = Ok etiquetas
      /\ length etiquetas = length timestamp.
Proof.
  intros Hlen.
  destruct (combine_fst_snd timestamp es_fin_semana Hlen) as [E1 E2].
  pose proof (clasificar_periodo_por_filas fst snd (combine timestamp es_fin_semana)) as E.
  rewrite E1, E2 in E. rewrite E. split; [discriminate|].
  eexists; split; [reflexivity|].
  rewrite length_map, length_combine, <- Hlen. apply Nat.min_id.
Qed.

Lemma clasificar_periodo_total_ejemplo :
  length [martes_12h; sabado_23h] = length [false; true]
  /\ _clasificar_periodo [martes_12h; sabado_23h] [false; true] <> Raise ValueError
  /\ exists etiquetas : list Periodo,
      _clasificar_periodo [martes_12h; sabado_23h] [false; true] = Ok etiquetas
      /\ length etiquetas = length [martes_12h; sabado_23h].
Proof.
  split; [reflexivity|].
  apply (clasificar_periodo_total [martes_12h; sabado_23h] [false; true]).
  reflexivity.
Defined.

(** ** The comparisons of the two arithmetics *)

Lemma Qcltb_lt (x y : Qc) : Qcltb x y = true <-> (x < y)%Qc.
Proof.
  unfold Qcltb. rewrite Qclt_alt. destruct (x ?= y)%Qc; split; congruence.
Qed.

Lemma Qcltb_ge (x y : Qc) : Qcltb x y = false <-> (y <= x)%Qc.
Proof.
  split.
  - intros H. apply Qcnot_lt_le. intros L. apply Qcltb_lt in L. congruence.
  - intros H. destruct (Qcltb x y) eqn:E; [|reflexivity].
    apply Qcltb_lt in E. now apply Qcle_not_lt in H.
Qed.

Lemma Qceqb_eq (x y : Qc) : Qceqb x y = true <-> x = y.
Proof.
  unfold Qceqb. rewrite Qceq_alt. destruct (x ?= y)%Qc; split; congruence.
Qed.

Lemma Qceqb_neq (x y : Qc) : Qceqb x y = false <-> x <> y.
Proof.
  split.
  - intros H E. apply Qceqb_eq in E. congruence.
  - intros H. destruct (Qceqb x y) eqn:E; [|reflexivity].
    apply Qceqb_eq in E. contradiction.
Qed.

Lemma SFcompare_rango (f1 f2 : spec_float) :
  SFcompare f1 f2
  = match rango f1, rango f2 with
    | Some a, Some b => Some (lex3 a b)
    | _, _ => None
    end.
Proof.
  destruct f1 as [s1|s1| |s1 m1 e1], f2 as [s2|s2| |s2 m2 e2];
    try destruct s1; try destruct s2; try reflexivity.
  simpl. unfold lex3; simpl. rewrite Z.compare_opp.
  rewrite (Z.compare_antisym e1 e2).
  destruct (e1 ?= e2)%Z; reflexivity.
Qed.

Lemma lex3_Lt (a b : Z * Z * Z) : lex3 a b = Lt <-> menor3 a b.
Proof.
  unfold lex3, menor3.
  destruct (Z.compare_spec (fst (fst a)) (fst (fst b)));
    destruct (Z.compare_spec (snd (fst a)) (snd (fst b)));
    destruct (Z.compare_spec (snd a) (snd b));
    split; intros; try discriminate; try reflexivity; try lia.
Qed.

Lemma lex3_Gt (a b : Z * Z * Z) : lex3 a b = Gt <-> menor3 b a.
Proof.
  unfold lex3, menor3.
  destruct (Z.compare_spec (fst (fst a)) (fst (fst b)));
    destruct (Z.compare_spec (snd (fst a)) (snd (fst b)));
    destruct (Z.compare_spec (snd a) (snd b));
    split; intros; try discriminate; try reflexivity; try lia.
Qed.

Lemma is_nan_rango (x : float) :
  PrimFloat.is_nan x = false <-> exists a, rango (Prim2SF x) = Some a.
Proof.
  unfold PrimFloat.is_nan. rewrite negb_false_iff, eqb_spec. unfold SFeqb.
  rewrite SFcompare_rango. destruct (rango (Prim2SF x)) as [a|].
  - split; [eauto|]. intros _.
    assert (E : lex3 a a = Eq).
    { destruct (lex3 a a) eqn:E; [reflexivity| |].
      - apply lex3_Lt in E. unfold menor3 in E. lia.
      - apply lex3_Gt in E. unfold menor3 in E. lia. }
    now rewrite E.
  - split; [discriminate|]. intros [a E]. discriminate.
Qed.

Lemma ltb_rango (x y : float) :
  PrimFloat.ltb x y = true
  <-> exists a b, rango (Prim2SF x) = Some a /\ rango (Prim2SF y) = Some b /\ menor3 a b.
Proof.
  rewrite ltb_spec. unfold SFltb. rewrite SFcompare_rango.
  destruct (rango (Prim2SF x)) as [a|], (rango (Prim2SF y)) as [b|].
  - split.
    + intros H. exists a, b. repeat split. apply lex3_Lt. destruct (lex3 a b); congruence.
    + intros [a' [b' [Ea [Eb H]]]]. injection Ea as <-. injection Eb as <-.
      apply lex3_Lt in H. now rewrite H.
  - split; [discriminate|]. intros [a' [b' [_ [Eb _]]]]. discriminate.
  - split; [discriminate|]. intros [a' [b' [Ea _]]]. discriminate.
  - split; [discriminate|]. intros [a' [b' [Ea _]]]. discriminate.
Qed.

Lemma leb_rango (x y : float) :
  PrimFloat.leb x y = true
  <-> exists a b, rango (Prim2SF x) = Some a /\ rango (Prim2SF y) = Some b /\ ~ menor3 b a.
Proof.
  rewrite leb_spec. unfold SFleb. rewrite SFcompare_rango.
  destruct (rango (Prim2SF x)) as [a|], (rango (Prim2SF y)) as [b|].
  - split.
    + intros H. exists a, b. repeat split. rewrite <- lex3_Gt. destruct (lex3 a b); congruence.
    + intros [a' [b' [Ea [Eb H]]]]. injection Ea as <-. injection Eb as <-.
      rewrite <- lex3_Gt in H. destruct (lex3 a b); congruence.
  - split; [discriminate|]. intros [a' [b' [_ [Eb _]]]]. discriminate.
  - split; [discriminate|]. intros [a' [b' [Ea _]]]. discriminate.
  - split; [discriminate|]. intros [a' [b' [Ea _]]]. discriminate.
Qed.

Lemma binary64_menor_false (x y : float) :
  PrimFloat.is_nan x = false -> PrimFloat.is_nan y = false ->
  PrimFloat.ltb x y = false -> PrimFloat.leb y x = true.
Proof.
  intros Hx Hy Hlt. apply is_nan_rango in Hx, Hy.
  destruct Hx as [a Ea], Hy as [b Eb].
  apply leb_rango. exists b, a. repeat split; [exact Eb | exact Ea |].
  intros H. assert (L : PrimFloat.ltb x y = true) by (apply ltb_rango; eauto).
  congruence.
Qed.

Lemma binary64_leb_refl (x : float) :
  PrimFloat.is_nan x = false -> PrimFloat.leb x x = true.
Proof.
  intros Hx. apply is_nan_rango in Hx. destruct Hx as [a Ea].
  apply leb_rango. exists a, a. repeat split; [exact Ea | exact Ea |].
  unfold menor3. lia.
Qed.

Lemma binary64_ltb_leb (x y : float) :
  PrimFloat.ltb x y = true -> PrimFloat.leb x y = true.
Proof.
  intros H. apply ltb_rango in H. destruct H as [a [b [Ea [Eb H]]]].
  apply leb_rango. exists a, b. repeat split; [exact Ea | exact Eb |].
  unfold menor3 in *. lia.
Qed.

Lemma binary64_ltb_leb_trans (x y z : float) :
  PrimFloat.ltb x y = true -> PrimFloat.leb y z = true -> PrimFloat.ltb x z = true.
Proof.
  intros H1 H2. apply ltb_rango in H1. destruct H1 as [a [b [Ea [Eb H1]]]].
  apply leb_rango in H2. destruct H2 as [b' [c [Eb' [Ec H2]]]].
  rewrite Eb in Eb'. injection Eb' as <-.
  apply ltb_rango. exists a, c. repeat split; [exact Ea | exact Ec |].
  unfold menor3 in *. lia.
Qed.

Lemma eqb_rango (x y : float) :
  PrimFloat.eqb x y = true
  <-> exists a b, rango (Prim2SF x) = Some a /\ rango (Prim2SF y) = Some b
                  /\ lex3 a b = Eq.
Proof.
  rewrite eqb_spec. unfold SFeqb. rewrite SFcompare_rango.
  destruct (rango (Prim2SF x)) as [a|], (rango (Prim2SF y)) as [b|].
  - split.
    + intros H. exists a, b. repeat split. destruct (lex3 a b); congruence.
    + intros [a' [b' [Ea [Eb H]]]]. injection Ea as <-. injection Eb as <-.
      now rewrite H.
  - split; [discriminate|]. intros [a' [b' [_ [Eb _]]]]. discriminate.
  - split; [discriminate|]. intros [a' [b' [Ea _]]]. discriminate.
  - split; [discriminate|]. intros [a' [b' [Ea _]]]. discriminate.
Qed.

Lemma binary64_positivo_no_cero (y : float) :
  PrimFloat.ltb 0%float y = true -> PrimFloat.eqb y 0%float = false.
Proof.
  intros H. apply ltb_rango in H. destruct H as [a [b [Ea [Eb H]]]].
  destruct (PrimFloat.eqb y 0%float) eqn:E; [|reflexivity].
  apply eqb_rango in E. destruct E as [b' [a' [Eb' [Ea' E]]]].
  rewrite Ea in Ea'. injection Ea' as <-. rewrite Eb in Eb'. injection Eb' as <-.
  apply lex3_Gt in H. congruence.
Qed.

Lemma exact_positivo_no_cero (y : Qc) :
  Qcltb (Qc_of_Z 0) y = true -> Qceqb y (Qc_of_Z 0) = false.
Proof.
  intros H. apply Qcltb_lt in H. apply Qceqb_neq. intros ->.
  exact (Qclt_not_eq _ _ H eq_refl).
Qed.

Lemma binary64_ltb_trans (x y z : float) :
  PrimFloat.ltb x y = true -> PrimFloat.ltb y z = true -> PrimFloat.ltb x z = true.
Proof.
  intros H1 H2. apply ltb_rango in H1. destruct H1 as [a [b [Ea [Eb H1]]]].
  apply ltb_rango in H2. destruct H2 as [b' [c [Eb' [Ec H2]]]].
  rewrite Eb in Eb'. injection Eb' as <-.
  apply ltb_rango. exists a, c. repeat split; [exact Ea | exact Ec |].
  unfold menor3 in *. lia.
Qed.

Lemma binary64_ltb_irrefl (x : float) : PrimFloat.ltb x x = false.
Proof.
  destruct (PrimFloat.ltb x x) eqn:E; [|reflexivity].
  apply ltb_rango in E. destruct E as [a [b [Ea [Eb H]]]].
  rewrite Ea in Eb. injection Eb as <-. unfold menor3 in H. lia.
Qed.

Lemma binary64_leb_trans (x y z : float) :
  PrimFloat.leb x y = true -> PrimFloat.leb y z = true -> PrimFloat.leb x z = true.
Proof.
  intros H1 H2. apply leb_rango in H1. destruct H1 as [a [b [Ea [Eb H1]]]].
  apply leb_rango in H2. destruct H2 as [b' [c [Eb' [Ec H2]]]].
  rewrite Eb in Eb'. injection Eb' as <-.
  apply leb_rango. exists a, c. repeat split; [exact Ea | exact Ec |].
  unfold menor3 in *. lia.
Qed.

Lemma exact_resta_no_negativa (x p : Qc) : (x <= p)%Qc -> (Qc_of_Z 0 <= p - x)%Qc.
Proof. intros H. exact (proj1 (Qcle_minus_iff x p) H). Qed.

(** *** The sign of a binary64 difference

    [p - x] is rounded from the exact difference of the two mantissas brought
    to the smaller exponent; the rounding keeps the sign of a difference that
    is not negative, and the order of two valid numbers is the order of the
    mantissas so aligned. *)

Lemma shr_1_no_negativo (mrs : shr_record) :
  (0 <= shr_m mrs)%Z -> (0 <= shr_m (shr_1 mrs))%Z.
Proof.
  destruct mrs as [m r s]. destruct m as [|p|p]; simpl.
  - lia.
  - destruct p; simpl; lia.
  - lia.
Qed.

Lemma iter_pos_invariante {A : Type} (f : A -> A) (P : A -> Prop) :
  (forall x, P x -> P (f x)) -> forall n x, P x -> P (iter_pos f n x).
Proof.
  intros Hf. induction n as [n IH|n IH|]; simpl; intros x Hx; auto.
Qed.

Lemma shr_fexp_no_negativo (m e : Z) (l : location) :
  (0 <= m)%Z -> (0 <= shr_m (fst (shr_fexp prec emax m e l)))%Z.
Proof.
  intros Hm. unfold shr_fexp, shr.
  assert (H0 : (0 <= shr_m (shr_record_of_loc m l))%Z).
  { destruct l as [|[]]; exact Hm. }
  destruct (fexp prec emax (Zdigits2 m + e) - e)%Z; simpl; try exact H0.
  apply (@iter_pos_invariante _ shr_1 (fun r => (0 <= shr_m r)%Z)); [|exact H0].
  exact shr_1_no_negativo.
Qed.

Lemma round_nearest_even_no_negativo (m : Z) (l : location) :
  (0 <= m)%Z -> (0 <= round_nearest_even m l)%Z.
Proof.
  intros Hm. destruct l as [|[]]; simpl; try lia. destruct (Z.even m); lia.
Qed.

Lemma binary_round_aux_no_negativo (m e : Z) (l : location) :
  (0 <= m)%Z -> no_negativo (binary_round_aux prec emax false m e l).
Proof.
  intros Hm. unfold binary_round_aux.
  pose proof (@shr_fexp_no_negativo m e l Hm) as H1.
  destruct (shr_fexp prec emax m e l) as [mrs' e']. simpl in H1.
  pose proof (@shr_fexp_no_negativo
                (round_nearest_even (shr_m mrs') (loc_of_shr_record mrs')) e' loc_Exact
                (@round_nearest_even_no_negativo _ _ H1)) as H2.
  destruct (shr_fexp prec emax _ e' loc_Exact) as [mrs'' e'']. simpl in H2.
  destruct (shr_m mrs'') as [|q|q]; simpl.
  - exact I.
  - destruct (_ <=? _)%Z; exact I.
  - lia.
Qed.

Lemma binary_normalize_no_negativo (m e : Z) :
  (0 <= m)%Z -> no_negativo (binary_normalize prec emax m e false).
Proof.
  intros Hm. destruct m as [|q|q]; simpl; [exact I| |lia].
  unfold binary_round.
  destruct (shl_align q e (fexp prec emax (Z.pos (digits2_pos q) + e))) as [mz ez].
  apply binary_round_aux_no_negativo. lia.
Qed.

Lemma digits2_pos_cotas (m : positive) :
  (2 ^ (Z.pos (digits2_pos m) - 1) <= Z.pos m < 2 ^ Z.pos (digits2_pos m))%Z.
Proof.
  induction m as [m IH|m IH|]; simpl digits2_pos.
  - rewrite Pos2Z.inj_succ.
    replace (Z.succ (Z.pos (digits2_pos m)) - 1)%Z
      with (Z.succ (Z.pos (digits2_pos m) - 1))%Z by lia.
    rewrite !Z.pow_succ_r by lia. lia.
  - rewrite Pos2Z.inj_succ.
    replace (Z.succ (Z.pos (digits2_pos m)) - 1)%Z
      with (Z.succ (Z.pos (digits2_pos m) - 1))%Z by lia.
    rewrite !Z.pow_succ_r by lia. lia.
  - simpl. lia.
Qed.

Lemma iter_xO (m d : positive) : Z.pos (Pos.iter xO m d) = (Z.pos m * 2 ^ Z.pos d)%Z.
Proof.
  induction d as [|d IH] using Pos.peano_ind.
  - simpl. lia.
  - rewrite Pos.iter_succ, Pos2Z.inj_succ, Z.pow_succ_r by lia.
    rewrite Pos2Z.inj_xO, IH. lia.
Qed.

Lemma shl_align_valor (m : positive) (e e' : Z) :
  (e' <= e)%Z -> Z.pos (fst (shl_align m e e')) = (Z.pos m * 2 ^ (e - e'))%Z.
Proof.
  intros H. unfold shl_align. destruct (e' - e)%Z as [|d|d] eqn:E; simpl.
  - replace (e - e')%Z with 0%Z by lia. rewrite Z.pow_0_r. lia.
  - lia.
  - rewrite iter_xO. replace (e - e')%Z with (Z.pos d) by lia. reflexivity.
Qed.

(** The mantissa of a valid number has at most [prec] bits, and exactly
    [prec] above the least exponent. *)
Lemma bounded_cotas (m : positive) (e : Z) :
  bounded prec emax m e = true ->
  (emin <= e)%Z /\ (Z.pos m < 2 ^ prec)%Z
  /\ ((emin < e)%Z -> (2 ^ (prec - 1) <= Z.pos m)%Z).
Proof.
  unfold bounded, canonical_mantissa, fexp. intros H.
  apply andb_true_iff in H. destruct H as [H _]. apply Z.eqb_eq in H.
  change (SpecFloat.emin prec emax) with emin in H.
  pose proof (digits2_pos_cotas m) as [D1 D2].
  split; [lia|]. split.
  - eapply Z.lt_le_trans; [exact D2|]. apply Z.pow_le_mono_r; lia.
  - intros He. replace (Z.pos (digits2_pos m)) with prec in D1 by lia. exact D1.
Qed.

Lemma escala_menor (m1 m2 : positive) (e1 e2 : Z) :
  bounded prec emax m1 e1 = true -> bounded prec emax m2 e2 = true ->
  (e1 < e2)%Z ->
  (Z.pos (fst (shl_align m1 e1 (Z.min e1 e2)))
   <= Z.pos (fst (shl_align m2 e2 (Z.min e1 e2))))%Z.
Proof.
  intros B1 B2 He.
  destruct (@bounded_cotas m1 e1 B1) as [E1 [M1 _]].
  destruct (@bounded_cotas m2 e2 B2) as [_ [_ M2]].
  rewrite !shl_align_valor by lia.
  replace (Z.min e1 e2) with e1 by lia.
  replace (e1 - e1)%Z with 0%Z by lia. rewrite Z.pow_0_r, Z.mul_1_r.
  assert (H2 : (2 ^ 1 <= 2 ^ (e2 - e1))%Z) by (apply Z.pow_le_mono_r; lia).
  assert (H3 : (2 ^ (prec - 1) <= Z.pos m2)%Z) by (apply M2; lia).
  assert (H4 : (2 ^ (prec - 1) * 2 ^ 1 <= Z.pos m2 * 2 ^ (e2 - e1))%Z).
  { apply Z.mul_le_mono_nonneg; lia. }
  change (2 ^ (prec - 1) * 2 ^ 1)%Z with (2 ^ prec)%Z in H4. lia.
Qed.

Lemma escala_igual (m : positive) (e : Z) : fst (shl_align m e (Z.min e e)) = m.
Proof.
  unfold shl_align. rewrite Z.min_id. replace (e - e)%Z with 0%Z by lia. reflexivity.
Qed.

Lemma SFsub_no_negativo (x p : spec_float) :
  valid_binary x = true -> valid_binary p = true ->
  finito_SF x -> finito_SF p ->
  SFleb x p = true -> no_negativo (SFsub prec emax p x).
Proof.
  intros Vx Vp Fx Fp Hle. unfold SFleb in Hle.
  destruct x as [sx|sx| |sx mx ex]; try contradiction;
    destruct p as [sp|sp| |sp mp ep]; try contradiction.
  - destruct sp, sx; exact I.
  - simpl in Hle |- *. destruct sp; [discriminate | exact I].
  - simpl in Hle |- *. destruct sx; [exact I | discriminate].
  - simpl in Vx, Vp. unfold SFsub.
    apply binary_normalize_no_negativo.
    simpl in Hle.
    destruct sx, sp; simpl cond_Zopp.
    + destruct (Z.compare_spec ex ep) as [E|E|E]; try discriminate.
      * subst ep. rewrite !escala_igual.
        rewrite Pos.compare_cont_spec in Hle. simpl in Hle.
        fold (Pos.compare mx mp) in Hle.
        destruct (Pos.compare_spec mx mp); simpl in Hle; try discriminate; lia.
      * pose proof (@escala_menor mp mx ep ex Vp Vx E) as H. lia.
    + lia.
    + discriminate Hle.
    + destruct (Z.compare_spec ex ep) as [E|E|E]; try discriminate.
      * subst ep. rewrite !escala_igual.
        rewrite Pos.compare_cont_spec in Hle. simpl in Hle.
        fold (Pos.compare mx mp) in Hle.
        destruct (Pos.compare_spec mx mp); simpl in Hle; try discriminate; lia.
      * pose proof (@escala_menor mx mp ex ep Vx Vp E) as H.
        rewrite (Z.min_comm ep ex). lia.
Qed.

Lemma is_finite_no_nan (x : float) :
  PrimFloat.is_finite x = true -> PrimFloat.is_nan x = false.
Proof.
  unfold PrimFloat.is_finite. rewrite negb_true_iff, orb_false_iff. now intros [H _].
Qed.

Lemma is_finite_SF (x : float) :
  PrimFloat.is_finite x = true -> finito_SF (Prim2SF x).
Proof.
  unfold PrimFloat.is_finite, PrimFloat.is_nan, PrimFloat.is_infinity.
  rewrite negb_true_iff, orb_false_iff, negb_false_iff. intros [Hn Hi].
  rewrite eqb_spec in Hn, Hi. rewrite abs_spec in Hi.
  change (Prim2SF infinity) with (S754_infinity false) in Hi.
  destruct (Prim2SF x) as [s|s| |s m e]; simpl in *; try exact I; discriminate.
Qed.

Lemma binary64_resta_no_negativa (x p : float) :
  PrimFloat.is_finite x = true -> PrimFloat.is_finite p = true ->
  PrimFloat.leb x p = true -> PrimFloat.leb 0%float (p - x)%float = true.
Proof.
  intros Fx Fp H. rewrite leb_spec in H |- *. rewrite sub_spec.
  pose proof (@SFsub_no_negativo (Prim2SF x) (Prim2SF p)
                (Prim2SF_valid x) (Prim2SF_valid p)
                (@is_finite_SF x Fx) (@is_finite_SF p Fp) H) as N.
  unfold SF64sub.
  change (Prim2SF 0%float) with (S754_zero false).
  destruct (SFsub prec emax (Prim2SF p) (Prim2SF x)) as [s|s| |s m e];
    try destruct s; simpl in N |- *; try contradiction; reflexivity.
Qed.

(** binary64 without NaN, ordered by [<=] and [<] of the floats. *)
#[export] Instance orden_binary64 : Orden float := {|
  valido := fun x => PrimFloat.is_nan x = false;
  finito := fun x => PrimFloat.is_finite x = true;
  menor_o_igual := fun x y => PrimFloat.leb x y = true;
  menor_que := fun x y => PrimFloat.ltb x y = true;
  cero_igual := eq_refl;
  cero_no_menor := eq_refl;
  positivo_no_cero := binary64_positivo_no_cero;
  finito_valido := @is_finite_no_nan;
  valido_no_na := fun x H => H;
  menor_true := fun x y H => H;
  menor_false := binary64_menor_false;
  menor_trans := @binary64_ltb_trans;
  menor_irrefl := binary64_ltb_irrefl;
  menor_o_igual_refl := binary64_leb_refl;
  menor_o_igual_trans := @binary64_leb_trans;
  menor_que_debil := binary64_ltb_leb;
  menor_que_o_igual := binary64_ltb_leb_trans;
  resta_no_negativa := @binary64_resta_no_negativa
|}.

(** The rationals, ordered as usual; every value counts. *)
#[export] Instance orden_exact : Orden Qc := {|
  valido := fun _ => True;
  finito := fun _ => True;
  menor_o_igual := Qcle;
  menor_que := Qclt;
  cero_igual := eq_refl;
  cero_no_menor := eq_refl;
  positivo_no_cero := exact_positivo_no_cero;
  finito_valido := fun _ _ => I;
  valido_no_na := fun _ _ => eq_refl;
  menor_true := fun x y H => proj1 (Qcltb_lt x y) H;
  menor_false := fun x y _ _ H => proj1 (Qcltb_ge x y) H;
  menor_trans := fun x y z H1 H2 =>
    proj2 (Qcltb_lt x z)
          (Qclt_trans x y z (proj1 (Qcltb_lt x y) H1) (proj1 (Qcltb_lt y z) H2));
  menor_irrefl := fun x => proj2 (Qcltb_ge x x) (Qcle_refl x);
  menor_o_igual_refl := fun x _ => Qcle_refl x;
  menor_o_igual_trans := Qcle_trans;
  menor_que_debil := Qclt_le_weak;
  menor_que_o_igual := Qclt_le_trans;
  resta_no_negativa := fun x p _ _ H => @exact_resta_no_negativa x p H
|}.

(** ** Zero-safe division *)

Lemma match_no_vacio {A B : Type} (l : list A) (x y : B) :
  l <> [] -> match l with [] => x | _ :: _ => y end = y.
Proof. destruct l; [congruence | reflexivity]. Qed.

Lemma para_cada_Ok {A B : Type} (f : A -> Resultado B) (g : A -> B) (l : list A) :
  (forall x, f x = Ok (g x)) -> para_cada f l = Ok (map g l).
Proof.
  intros H. induction l as [|x l IH]; simpl; [reflexivity|].
  now rewrite H, IH.
Qed.

Section DivisionSegura.

Context {F : Type} {AF : Arith F}.
Local Open Scope num_scope.

(** [_safe_pct] never raises: the division it guards has a divisor that
    does not compare equal to zero. *)
Lemma safe_pct_Ok (parte total : F) : _safe_pct parte total = Ok (porcentaje parte total).
Proof.
  unfold _safe_pct, porcentaje, dividir.
  destruct (total =? cero); reflexivity.
Qed.

Lemma porcentaje_cero (parte total : F) :
  (total =? cero) = true -> porcentaje parte total = cero.
Proof. intros E. unfold porcentaje. now rewrite E. Qed.

Lemma porcentaje_no_cero (parte total : F) :
  (total =? cero) = false -> porcentaje parte total = (parte / total) * cien.
Proof. intros E. unfold porcentaje. now rewrite E. Qed.

Lemma anadir_kpis_ahorro_Ok {A : Type} (df : list A) (col_coste : A -> F) :
  _anadir_kpis_ahorro df col_coste
  = Ok (map (fun r => (r, kpis_de (serie_median (map col_coste df))
                                  (serie_max (map col_coste df)) (col_coste r)))
            df).
Proof.
  unfold _anadir_kpis_ahorro. apply para_cada_Ok. intros r.
  now rewrite !safe_pct_Ok.
Qed.

Lemma anadir_pct_energia_potencia_Ok {A : Type} (df : list A)
  (col_energia col_potencia col_total : A -> F) :
  _anadir_pct_energia_potencia df col_energia col_potencia col_total
  = Ok (map (fun r => (r, pct_coste_de (col_energia r) (col_potencia r) (col_total r)))
            df).
Proof.
  unfold _anadir_pct_energia_potencia. apply para_cada_Ok. intros r.
  now rewrite !safe_pct_Ok.
Qed.

Lemma distribucion_Ok (kwh_punta kwh_llano kwh_valle_lv kwh_valle_sd total_kwh : F) :
  distribucion kwh_punta kwh_llano kwh_valle_lv kwh_valle_sd total_kwh
  = Ok (distribucion_de kwh_punta kwh_llano kwh_valle_lv kwh_valle_sd total_kwh).
Proof.
  unfold distribucion. now rewrite !safe_pct_Ok.
Qed.

Lemma anadir_distribucion_consumo_Ok {A : Type} (df : list A)
  (kwh_punta kwh_llano kwh_valle_lv kwh_valle_sd total_kwh : F) :
  _anadir_distribucion_consumo df kwh_punta kwh_llano kwh_valle_lv kwh_valle_sd total_kwh
  = Ok (map (fun r => (r, distribucion_de kwh_punta kwh_llano kwh_valle_lv kwh_valle_sd
                                          total_kwh))
            df).
Proof.
  unfold _anadir_distribucion_consumo. now rewrite distribucion_Ok.
Qed.

Lemma kpis_del_mes_Ok (costes_mes : list F) (m : Mes.fila F) :
  kpis_del_mes costes_mes m
  = Ok (kpis_de (serie_median costes_mes) (serie_max costes_mes) (Mes.coste_total_mes m)).
Proof.
  unfold kpis_del_mes. now rewrite !safe_pct_Ok.
Qed.

Context {OF : Orden F}.

(** The annual loop never raises: it divides by the kWh of the window only
    when they are above zero. *)
Lemma fila_anual_Ok (kwh_punta kwh_llano kwh_valle_lv kwh_valle_sd total_kwh kv kp : F)
  (t : Tarifa.t F) :
  fila_anual kwh_punta kwh_llano kwh_valle_lv kwh_valle_sd total_kwh kv kp t
  = Ok (fila_anual_de kwh_punta kwh_llano kwh_valle_lv kwh_valle_sd total_kwh kv kp t).
Proof.
  unfold fila_anual, fila_anual_de, dividir.
  destruct (cero <? total_kwh) eqn:E; [|reflexivity].
  now rewrite (positivo_no_cero _ E).
Qed.

Lemma division_segura :
  (forall parte : F, _safe_pct parte cero = Ok cero)
  /\ (forall parte total : F,
         (total =? cero) = false -> _safe_pct parte total = Ok ((parte / total) * cien))
  /\ (forall parte total : F, _safe_pct parte total <> Raise ZeroDivisionError)
  /\ (forall (kwh_punta kwh_llano kwh_valle_lv kwh_valle_sd kv kp : F) (t : Tarifa.t F),
         exists fila,
           fila_anual kwh_punta kwh_llano kwh_valle_lv kwh_valle_sd cero kv kp t = Ok fila
           /\ Anual.coste_medio_eur_kwh fila = cero)
  /\ (forall (kwh_punta kwh_llano kwh_valle_lv kwh_valle_sd total_kwh kv kp : F)
             (t : Tarifa.t F),
         fila_anual kwh_punta kwh_llano kwh_valle_lv kwh_valle_sd total_kwh kv kp t
         <> Raise ZeroDivisionError).
Proof.
  repeat apply conj.
  - intros parte. rewrite safe_pct_Ok, porcentaje_cero; [reflexivity | apply cero_igual].
  - intros parte total E. now rewrite safe_pct_Ok, porcentaje_no_cero.
  - intros parte total. rewrite safe_pct_Ok. discriminate.
  - intros. rewrite fila_anual_Ok. eexists. split; [reflexivity|].
    unfold fila_anual_de; simpl. now rewrite cero_no_menor.
  - intros. rewrite fila_anual_Ok. discriminate.
Qed.

End DivisionSegura.

Lemma porcentaje_exacto (parte total : Qc) :
  total <> Qc_of_Z 0 -> porcentaje parte total = (Qc_of_Z 100 * parte / total)%Qc.
Proof.
  intros Hne. rewrite porcentaje_no_cero by now apply Qceqb_neq.
  change ((parte / total) * cien)%num with ((parte / total) * Qc_of_Z 100)%Qc.
  field. exact Hne.
Qed.

(** C7, as amended. In binary64 and in exact arithmetic alike: [_safe_pct] of anything
    over zero returns zero; over a divisor that is not zero it returns the
    quotient times one hundred (100 * x / t without rounding); it never
    raises the division error; and the annual loop never raises it either,
    giving an average cost of zero to a window of zero kWh. *)
Theorem division_por_cero_segura :
  ((forall parte : float, _safe_pct parte 0%float = Ok 0%float)
   /\ (forall parte total : float,
          PrimFloat.eqb total 0%float = false
          -> _safe_pct parte total = Ok (parte / total * 100)%float)
   /\ (forall parte total : float, _safe_pct parte total <> Raise ZeroDivisionError)
   /\ (forall (kwh_punta kwh_llano kwh_valle_lv kwh_valle_sd kv kp : float)
              (t : Tarifa.t float),
          exists fila,
            fila_anual kwh_punta kwh_llano kwh_valle_lv kwh_valle_sd 0%float kv kp t
            = Ok fila
            /\ Anual.coste_medio_eur_kwh fila = 0%float)
   /\ (forall (kwh_punta kwh_llano kwh_valle_lv kwh_valle_sd total_kwh kv kp : float)
              (t : Tarifa.t float),
          fila_anual kwh_punta kwh_llano kwh_valle_lv kwh_valle_sd total_kwh kv kp t
          <> Raise ZeroDivisionError))
  /\ ((forall parte : Qc, _safe_pct parte (Qc_of_Z 0) = Ok (Qc_of_Z 0))
      /\ (forall parte total : Qc,
             total <> Qc_of_Z 0
             -> _safe_pct parte total = Ok (Qc_of_Z 100 * parte / total)%Qc)
      /\ (forall parte total : Qc, _safe_pct parte total <> Raise ZeroDivisionError)
      /\ (forall (kwh_punta kwh_llano kwh_valle_lv kwh_valle_sd kv kp : Qc)
                 (t : Tarifa.t Qc),
             exists fila,
               fila_anual kwh_punta kwh_llano kwh_valle_lv kwh_valle_sd (Qc_of_Z 0) kv kp t
               = Ok fila
               /\ Anual.coste_medio_eur_kwh fila = Qc_of_Z 0)
      /\ (forall (kwh_punta kwh_llano kwh_valle_lv kwh_valle_sd total_kwh kv kp : Qc)
                 (t : Tarifa.t Qc),
             fila_anual kwh_punta kwh_llano kwh_valle_lv kwh_valle_sd total_kwh kv kp t
             <> Raise ZeroDivisionError)).
Proof.
  split.
  - exact (division_segura (OF := orden_binary64)).
  - destruct (division_segura (OF := orden_exact)) as [H1 [_ [H3 [H4 H5]]]].
    split; [exact H1|]. split; [|split; [exact H3|split; [exact H4|exact H5]]].
    intros parte total Hne. rewrite safe_pct_Ok. f_equal. now apply porcentaje_exacto.
Qed.

(** C7 as stated fails in binary64 for a divisor that is not zero: the code
    rounds the quotient and then the product, so [_safe_pct(1, 3)] is
    33.333333333333329, below 100 * 1 / 3 = 33.333333333333336. *)
Lemma safe_pct_redondea_el_cociente :
  _safe_pct 1%float 3%float = Ok (1 / 3 * 100)%float
  /\ PrimFloat.eqb (1 / 3 * 100)%float (100 * 1 / 3)%float = false
  /\ PrimFloat.ltb (1 / 3 * 100)%float (100 * 1 / 3)%float = true.
Proof. repeat split. Qed.

(** ** The pipelines, unfolded *)

Section Tuberias.

Context {F : Type} {AF : Arith F}.
Local Open Scope num_scope.

Lemma combine_map_r {A B : Type} (f : A -> B) (l : list A) :
  combine l (map f l) = map (fun x => (x, f x)) l.
Proof.
  induction l as [|x l IH]; simpl; [reflexivity | now rewrite IH].
Qed.

Lemma con_periodo_ok (consumo_df : list (Consumo F)) :
  con_periodo consumo_df = Ok (clasificado consumo_df).
Proof.
  unfold con_periodo.
  rewrite (clasificar_periodo_por_filas (@timestamp F) (@es_fin_semana F)).
  simpl. now rewrite combine_map_r.
Qed.

(** What [kwh_periodo.get(p, 0.0)] reads is the sum of the kWh of the rows
    labelled [p], whether or not the label occurs. *)
Lemma kwh_de_suma (p : Periodo) (df : list (Consumo F * Periodo)) :
  kwh_de p df = serie_sum (map (fun r => kwh (fst r)) (del_periodo p df)).
Proof.
  unfold kwh_de, groupby_periodo_kwh_sum, etiquetas. simpl.
  destruct (del_periodo llano_LV df) eqn:E1;
    destruct (del_periodo punta_LV df) eqn:E2;
    destruct (del_periodo valle_LV df) eqn:E3;
    destruct (del_periodo valle_SD df) eqn:E4;
    destruct p; simpl;
    rewrite ?E1, ?E2, ?E3, ?E4; reflexivity.
Qed.

Context {OF : Orden F}.

(** The ranking of a catalog that is not empty: the loop's rows, sorted,
    each with the references of the table, its shares and the distribution. *)
Lemma ranking_desplegado (sort_values : list (Anual.fila F) -> list (Anual.fila F))
  (consumo_df : list (Consumo F)) (tarifas_df : list (Tarifa.t F)) (kv kp : F) :
  tarifas_df <> [] ->
  let df := clasificado consumo_df in
  let res :=
    sort_values
      (map (fila_anual_de (kwh_de punta_LV df) (kwh_de llano_LV df)
                          (kwh_de valle_LV df) (kwh_de valle_SD df)
                          (kwh_total_de df) kv kp)
           tarifas_df) in
  calcular_costes_anuales_por_tarifa sort_values consumo_df tarifas_df kv kp
  = Ok (map (fila_ranking_de
               (serie_median (map (@Anual.coste_total_anual F) res))
               (serie_max (map (@Anual.coste_total_anual F) res))
               (distribucion_de (kwh_de punta_LV df) (kwh_de llano_LV df)
                                (kwh_de valle_LV df) (kwh_de valle_SD df)
                                (kwh_total_de df)))
            res).
Proof.
  intros Hne df res.
  unfold calcular_costes_anuales_por_tarifa.
  rewrite con_periodo_ok. simpl bind. fold df.
  fold (kwh_de punta_LV df). fold (kwh_de llano_LV df).
  fold (kwh_de valle_LV df). fold (kwh_de valle_SD df). fold (kwh_total_de df).
  rewrite (para_cada_Ok _ (fila_anual_de (kwh_de punta_LV df) (kwh_de llano_LV df)
                                          (kwh_de valle_LV df) (kwh_de valle_SD df)
                                          (kwh_total_de df) kv kp))
    by (intros t; apply fila_anual_Ok).
  simpl bind.
  destruct tarifas_df as [|t ts]; [congruence|].
  cbn [map]. fold res.
  rewrite anadir_kpis_ahorro_Ok. simpl bind.
  rewrite anadir_pct_energia_potencia_Ok. simpl bind.
  rewrite anadir_distribucion_consumo_Ok.
  rewrite !map_map. reflexivity.
Qed.

Lemma ranking_sin_tarifas (sort_values : list (Anual.fila F) -> list (Anual.fila F))
  (consumo_df : list (Consumo F)) (kv kp : F) :
  calcular_costes_anuales_por_tarifa sort_values consumo_df [] kv kp = Raise KeyError.
Proof.
  unfold calcular_costes_anuales_por_tarifa.
  rewrite con_periodo_ok. reflexivity.
Qed.

(** The loop's columns of the ranking are the sorted loop results. *)
Lemma base_anual_decorada (mediana peor : F) (d : Distribucion F)
  (l : list (Anual.fila F)) :
  map base_anual (map (fila_ranking_de mediana peor d) l) = l.
Proof.
  rewrite map_map. unfold base_anual, fila_ranking_de; simpl. apply map_id.
Qed.

End Tuberias.

(** ** The scenario of the specification *)

Section Ordenaciones.

Context {F : Type} {AF : Arith F}.
Local Open Scope num_scope.

Lemma insertar_fila_permuta (x : Anual.fila F) (l : list (Anual.fila F)) :
  Permutation (x :: l) (insertar_fila x l).
Proof.
  induction l as [|y l IH]; simpl; [apply Permutation_refl|].
  destruct (Anual.coste_total_anual x <? Anual.coste_total_anual y).
  - apply Permutation_refl.
  - eapply perm_trans; [apply perm_swap|]. now apply perm_skip.
Qed.

Lemma insertar_desde_permuta (l acc : list (Anual.fila F)) :
  Permutation (acc ++ l) (fold_left (fun a x => insertar_fila x a) l acc).
Proof.
  revert acc. induction l as [|x l IH]; intros acc; simpl.
  - rewrite app_nil_r. apply Permutation_refl.
  - eapply perm_trans; [|apply IH].
    eapply perm_trans; [apply Permutation_sym, Permutation_middle|].
    change (x :: acc ++ l) with ((x :: acc) ++ l).
    apply Permutation_app_tail, insertar_fila_permuta.
Qed.

Lemma filter_separa {A : Type} (f : A -> bool) (l : list A) :
  Permutation l (filter (fun x => negb (f x)) l ++ filter f l).
Proof.
  induction l as [|x l IH]; simpl; [constructor|].
  destruct (f x); simpl.
  - now apply Permutation_cons_app.
  - now constructor.
Qed.

Lemma sort_estable_permuta : permuta (@sort_estable F AF).
Proof.
  intros l. unfold sort_estable.
  eapply perm_trans; [apply (filter_separa coste_falta)|].
  apply Permutation_app_tail.
  exact (insertar_desde_permuta (filter (fun r => negb (coste_falta r)) l) []).
Qed.

Lemma sort_values_quicksort_permuta (mezcla : list (Anual.fila F) -> list (Anual.fila F)) :
  permuta mezcla -> permuta (sort_values_quicksort mezcla).
Proof.
  intros H l. unfold sort_values_quicksort.
  eapply perm_trans; [apply H | apply sort_estable_permuta].
Qed.

End Ordenaciones.

(** C9. In binary64, with any [sort_values] that permutes its rows: 100 kWh
    at 12:00 on a weekday are labelled [punta_LV], and for the tariff with
    prices 0.20, 0.15, 0.10, 0.08 and no power charge the ranking has one row,
    with energy cost 20.0, power cost 0, total cost 20.0 and an energy share
    of 100. *)
Theorem escenario_punta_100kwh
  (sort_values : list (Anual.fila float) -> list (Anual.fila float)) :
  permuta sort_values ->
  _clasificar_periodo [martes_12h] [false] = Ok [punta_LV]
  /\ exists fila : FilaRanking float,
      calcular_costes_anuales_por_tarifa sort_values consumo_escenario [tarifa_escenario]
        potencia_kw_valle_main potencia_kw_punta_llano_main
      = Ok [fila]
      /\ Anual.coste_energia_anual (base_anual fila) = 20%float
      /\ Anual.coste_potencia_anual (base_anual fila) = 0%float
      /\ Anual.coste_total_anual (base_anual fila) = 20%float
      /\ pct_coste_energia (pct_anual fila) = 100%float.
Proof.
  intros Hperm. split; [reflexivity|].
  rewrite (ranking_desplegado (OF := orden_binary64)) by discriminate.
  cbv zeta. cbn [map].
  match goal with
  | |- context [sort_values [?x]] =>
      rewrite (Permutation_length_1_inv (Hperm [x]))
  end.
  eexists. split; [reflexivity|].
  vm_compute. repeat split.
Qed.

Lemma escenario_punta_100kwh_estable :
  permuta (@sort_estable float binary64)
  /\ _clasificar_periodo [martes_12h] [false] = Ok [punta_LV]
  /\ exists fila : FilaRanking float,
      calcular_costes_anuales_por_tarifa sort_estable consumo_escenario [tarifa_escenario]
        potencia_kw_valle_main potencia_kw_punta_llano_main
      = Ok [fila]
      /\ Anual.coste_energia_anual (base_anual fila) = 20%float
      /\ Anual.coste_potencia_anual (base_anual fila) = 0%float
      /\ Anual.coste_total_anual (base_anual fila) = 20%float
      /\ pct_coste_energia (pct_anual fila) = 100%float.
Proof.
  split; [apply sort_estable_permuta|].
  apply (escenario_punta_100kwh sort_estable_permuta).
Defined.

(** ** Month keys and groups *)

Lemma clave_eqb_eq (a b : N * N) : clave_eqb a b = true <-> a = b.
Proof.
  destruct a as [a1 a2], b as [b1 b2]. unfold clave_eqb; simpl.
  rewrite andb_true_iff, !N.eqb_eq. split.
  - intros [-> ->]. reflexivity.
  - intros E. injection E as -> ->. now split.
Qed.

Lemma clave_eqb_refl (a : N * N) : clave_eqb a a = true.
Proof. now apply clave_eqb_eq. Qed.

Lemma clave_ltb_spec (a b : N * N) :
  clave_ltb a b = true
  <-> (fst a < fst b)%N \/ (fst a = fst b /\ (snd a < snd b)%N).
Proof.
  unfold clave_ltb.
  rewrite orb_true_iff, andb_true_iff, !N.ltb_lt, N.eqb_eq. reflexivity.
Qed.

Lemma clave_lt_trans (a b c : N * N) : clave_lt a b -> clave_lt b c -> clave_lt a c.
Proof.
  unfold clave_lt. rewrite !clave_ltb_spec. lia.
Qed.

Lemma clave_lt_total (a b : N * N) :
  clave_eqb a b = false -> clave_ltb a b = false -> clave_lt b a.
Proof.
  intros Hne Hnlt. unfold clave_lt. rewrite clave_ltb_spec.
  assert (Hne' : a <> b).
  { intros E. apply clave_eqb_eq in E. congruence. }
  assert (Hnlt' : ~ ((fst a < fst b)%N \/ (fst a = fst b /\ (snd a < snd b)%N))).
  { rewrite <- clave_ltb_spec. congruence. }
  destruct a as [a1 a2], b as [b1 b2]; simpl in *.
  assert (a1 <> b1 \/ a2 <> b2).
  { destruct (N.eq_dec a1 b1) as [->|]; [right|now left].
    intros ->. now apply Hne'. }
  lia.
Qed.

Lemma insertar_clave_In (k k' : N * N) (l : list (N * N)) :
  In k' (insertar_clave k l) <-> k' = k \/ In k' l.
Proof.
  induction l as [|y l IH]; simpl; [intuition|].
  destruct (clave_eqb k y) eqn:E.
  - apply clave_eqb_eq in E. subst y. simpl. intuition.
  - destruct (clave_ltb k y); simpl; [intuition|].
    rewrite IH. intuition.
Qed.

Lemma insertar_clave_sorted (k : N * N) (l : list (N * N)) :
  StronglySorted clave_lt l -> StronglySorted clave_lt (insertar_clave k l).
Proof.
  induction l as [|y l IH]; intros Hs; simpl.
  - repeat constructor.
  - inversion Hs as [|? ? Hs' Hall]; subst.
    destruct (clave_eqb k y) eqn:E; [exact Hs|].
    destruct (clave_ltb k y) eqn:L.
    + constructor; [exact Hs|]. constructor; [exact L|].
      eapply Forall_impl; [|exact Hall]. intros z Hz.
      now apply clave_lt_trans with y.
    + constructor; [now apply IH|].
      apply Forall_forall. intros z Hz. apply insertar_clave_In in Hz.
      destruct Hz as [->|Hz].
      * now apply clave_lt_total.
      * rewrite Forall_forall in Hall. now apply Hall.
Qed.

Lemma insertar_por_clave_In {A : Type} (key : A -> N * N) (x y : A) (l : list A) :
  In y (insertar_por_clave key x l) <-> y = x \/ In y l.
Proof.
  induction l as [|z l IH]; simpl; [intuition|].
  destruct (clave_ltb (key x) (key z)); simpl; [intuition|].
  rewrite IH. intuition.
Qed.

Lemma sort_values_anio_mes_In {A : Type} (key : A -> N * N) (y : A) (l : list A) :
  In y (sort_values_anio_mes key l) <-> In y l.
Proof.
  induction l as [|x l IH]; simpl; [reflexivity|].
  rewrite insertar_por_clave_In, IH. intuition.
Qed.

(** Rows whose keys already ascend strictly are left as they are. *)
Lemma sort_values_anio_mes_id {A : Type} (key : A -> N * N) (l : list A) :
  StronglySorted (fun a b => clave_lt (key a) (key b)) l ->
  sort_values_anio_mes key l = l.
Proof.
  induction 1 as [|x l Hs IH Hall]; simpl; [reflexivity|].
  rewrite IH. destruct l as [|y l]; simpl; [reflexivity|].
  inversion Hall as [|? ? Hxy _]; subst. unfold clave_lt in Hxy. now rewrite Hxy.
Qed.

Lemma para_cada_Forall2 {A B : Type} (f : A -> Resultado B) (l : list A) (ys : list B) :
  para_cada f l = Ok ys <-> Forall2 (fun x y => f x = Ok y) l ys.
Proof.
  revert ys. induction l as [|x l IH]; intros ys; simpl.
  - split.
    + intros E. injection E as <-. constructor.
    + intros H. inversion H. reflexivity.
  - split.
    + destruct (f x) as [y|e] eqn:Ex; simpl; [|discriminate].
      destruct (para_cada f l) as [ys'|e] eqn:El; simpl; [|discriminate].
      intros E. injection E as <-. constructor; [exact Ex|]. now apply IH.
    + intros H. inversion H as [|? y ? ys' Ex Hl]; subst.
      rewrite Ex. simpl. apply IH in Hl. rewrite Hl. reflexivity.
Qed.

Lemma para_cada_total {A B : Type} (f : A -> Resultado B) (l : list A) :
  (forall x, In x l -> exists y, f x = Ok y) ->
  exists ys, para_cada f l = Ok ys.
Proof.
  induction l as [|x l IH]; intros H; simpl.
  - now exists [].
  - destruct (H x (or_introl eq_refl)) as [y Ey].
    destruct IH as [ys Eys]; [intros z Hz; apply H; now right|].
    exists (y :: ys). now rewrite Ey, Eys.
Qed.

(** ** The monthly loop *)

Section BucleMensual.

Context {F : Type} {AF : Arith F}.
Local Open Scope num_scope.

Variables (anio mes : N) (kP kL kV kS tot kv kp : F).

Let paso := paso_tarifa anio mes kP kL kV kS tot kv kp.
Let fila := fila_mes anio mes kP kL kV kS tot kv kp.
Let total := total_mes_de kP kL kV kS kv kp.

Lemma coste_total_fila_mes (t : Tarifa.t F) : Mes.coste_total_mes (fila t) = total t.
Proof. reflexivity. Qed.

Lemma paso_tarifa_eq (mejor : option (Mes.fila F)) (cs : list F) (t : Tarifa.t F) :
  paso (mejor, cs) t
  = (match mejor with
     | None => Some (fila t)
     | Some m => if total t <? Mes.coste_total_mes m then Some (fila t) else Some m
     end,
     cs ++ [total t]).
Proof.
  unfold paso, paso_tarifa, fila, total, total_mes_de.
  destruct mejor as [m|]; [|reflexivity].
  destruct (_ <? Mes.coste_total_mes m); reflexivity.
Qed.

Lemma bucle_cons (t : Tarifa.t F) (ts : list (Tarifa.t F))
  (estado : option (Mes.fila F) * list F) :
  fold_left paso (t :: ts) estado = fold_left paso ts (paso estado t).
Proof. reflexivity. Qed.

(** [costes_mes] collects the total of every tariff, in catalog order. *)
Lemma bucle_costes_mes (ts : list (Tarifa.t F)) :
  forall mejor cs, snd (fold_left paso ts (mejor, cs)) = cs ++ map total ts.
Proof.
  induction ts as [|t ts IH]; intros mejor cs.
  - simpl. now rewrite app_nil_r.
  - rewrite bucle_cons, paso_tarifa_eq, IH, <- app_assoc. reflexivity.
Qed.

(** [mejor] is never reset, and it always holds the row of a tariff seen. *)
Lemma bucle_mejor_visto (ts : list (Tarifa.t F)) :
  forall mejor cs,
    match fst (fold_left paso ts (mejor, cs)) with
    | Some m => mejor = Some m \/ exists t, In t ts /\ m = fila t
    | None => mejor = None /\ ts = []
    end.
Proof.
  induction ts as [|t ts IH]; intros mejor cs.
  - simpl. destruct mejor; auto.
  - rewrite bucle_cons, paso_tarifa_eq.
    match goal with
    | |- context [fold_left paso ts (?st, ?c)] =>
        specialize (IH st c); destruct (fst (fold_left paso ts (st, c))) as [m'|]
    end.
    + destruct IH as [IH|[t' [Ht' ->]]].
      * destruct mejor as [m|].
        -- destruct (total t <? Mes.coste_total_mes m).
           ++ injection IH as <-. right. exists t. split; [now left | reflexivity].
           ++ now left.
        -- injection IH as <-. right. exists t. split; [now left | reflexivity].
      * right. exists t'. split; [now right | reflexivity].
    + destruct IH as [IH _]. destruct mejor as [m|]; [|discriminate].
      destruct (total t <? Mes.coste_total_mes m); discriminate.
Qed.

End BucleMensual.

(** ** The monthly pipeline, unfolded *)

Lemma StronglySorted_map_inv {A B : Type} (R : B -> B -> Prop) (f : A -> B) (l : list A) :
  StronglySorted R (map f l) -> StronglySorted (fun a b => R (f a) (f b)) l.
Proof.
  induction l as [|x l IH]; simpl; intros H; [constructor|].
  inversion H as [|? ? Hs Hall]; subst. constructor; [now apply IH|].
  rewrite Forall_map in Hall. exact Hall.
Qed.

Lemma Forall2_map_eq {A B C : Type} (f : A -> C) (g : B -> C) (l : list A) (l' : list B) :
  Forall2 (fun a b => g b = f a) l l' -> map g l' = map f l.
Proof.
  induction 1 as [|a b l l' E _ IH]; simpl; [reflexivity | now rewrite E, IH].
Qed.

Section Mensual.

Context {F : Type} {AF : Arith F}.
Local Open Scope num_scope.

Lemma claves_sorted (df : list (Consumo F * Periodo)) :
  StronglySorted clave_lt (claves df).
Proof.
  unfold claves. induction df as [|r df IH]; simpl; [constructor|].
  now apply insertar_clave_sorted.
Qed.

Lemma claves_In (k : N * N) (df : list (Consumo F * Periodo)) :
  In k (claves df) <-> exists r, In r df /\ clave r = k.
Proof.
  unfold claves. induction df as [|r df IH]; simpl.
  - split; [tauto | intros [r [[] _]]].
  - rewrite insertar_clave_In, IH. split.
    + intros [->|[r' [Hr' E]]]; [exists r; auto | exists r'; auto].
    + intros [r' [[<-|Hr'] E]]; [now left | right; now exists r'].
Qed.

Lemma groupby_anio_mes_no_vacio (df : list (Consumo F * Periodo)) :
  df <> [] -> groupby_anio_mes df <> [].
Proof.
  intros Hne E. destruct df as [|r df]; [congruence|].
  assert (Hin : In (clave r) (claves (r :: df))).
  { apply claves_In. exists r. split; [now left | reflexivity]. }
  unfold groupby_anio_mes in E. apply map_eq_nil in E. rewrite E in Hin. exact Hin.
Qed.

Lemma mejor_del_grupo_eq (tarifas_df : list (Tarifa.t F)) (kv kp : F)
  (k : N * N) (g : list (Consumo F * Periodo)) :
  mejor_del_grupo tarifas_df kv kp (k, g)
  = match fst (fold_left
                 (paso_tarifa (fst k) (snd k)
                              (kwh_de punta_LV g) (kwh_de llano_LV g)
                              (kwh_de valle_LV g) (kwh_de valle_SD g)
                              (kwh_total_de g) kv kp)
                 tarifas_df (None, [])) with
    | None => Raise TypeError
    | Some m =>
        let costes_mes :=
          map (total_mes_de (kwh_de punta_LV g) (kwh_de llano_LV g)
                            (kwh_de valle_LV g) (kwh_de valle_SD g) kv kp)
              tarifas_df in
        Ok (m, kpis_de (serie_median costes_mes) (serie_max costes_mes)
                       (Mes.coste_total_mes m))
    end.
Proof.
  destruct k as [a m]. unfold mejor_del_grupo. fold (kwh_de punta_LV g).
  fold (kwh_de llano_LV g). fold (kwh_de valle_LV g). fold (kwh_de valle_SD g).
  fold (kwh_total_de g). simpl fst. simpl snd.
  pose proof (bucle_costes_mes a m (kwh_de punta_LV g) (kwh_de llano_LV g)
                (kwh_de valle_LV g) (kwh_de valle_SD g) (kwh_total_de g) kv kp
                tarifas_df None []) as Hcs.
  destruct (fold_left _ tarifas_df (None, [])) as [mejor cs]. simpl in Hcs |- *.
  subst cs. destruct mejor as [x|]; [|reflexivity].
  now rewrite kpis_del_mes_Ok.
Qed.

(** With a catalog that is not empty, each group gets the row of one of
    the tariffs, carrying the key of the group. *)
Lemma mejor_del_grupo_fila (tarifas_df : list (Tarifa.t F)) (kv kp : F)
  (k : N * N) (g : list (Consumo F * Periodo)) :
  tarifas_df <> [] ->
  let costes_mes :=
    map (total_mes_de (kwh_de punta_LV g) (kwh_de llano_LV g)
                      (kwh_de valle_LV g) (kwh_de valle_SD g) kv kp)
        tarifas_df in
  exists t, In t tarifas_df
    /\ mejor_del_grupo tarifas_df kv kp (k, g)
       = Ok (fila_mes (fst k) (snd k) (kwh_de punta_LV g) (kwh_de llano_LV g)
                      (kwh_de valle_LV g) (kwh_de valle_SD g) (kwh_total_de g) kv kp t,
             kpis_de (serie_median costes_mes) (serie_max costes_mes)
                     (total_mes_de (kwh_de punta_LV g) (kwh_de llano_LV g)
                                   (kwh_de valle_LV g) (kwh_de valle_SD g) kv kp t)).
Proof.
  intros Hne costes_mes. rewrite mejor_del_grupo_eq.
  pose proof (bucle_mejor_visto (fst k) (snd k) (kwh_de punta_LV g) (kwh_de llano_LV g)
                (kwh_de valle_LV g) (kwh_de valle_SD g) (kwh_total_de g) kv kp
                tarifas_df None []) as H.
  destruct (fst (fold_left _ tarifas_df (None, []))) as [m|].
  - destruct H as [H|[t [Ht ->]]]; [discriminate|]. now exists t.
  - destruct H as [_ H]. congruence.
Qed.

Lemma mejor_del_grupo_clave (tarifas_df : list (Tarifa.t F)) (kv kp : F)
  (grupo : (N * N) * list (Consumo F * Periodo)) (x : Mes.fila F * KpisAhorro F) :
  mejor_del_grupo tarifas_df kv kp grupo = Ok x ->
  (Mes.anio (fst x), Mes.mes (fst x)) = fst grupo.
Proof.
  destruct grupo as [k g]. intros E.
  destruct tarifas_df as [|t0 ts].
  - rewrite mejor_del_grupo_eq in E. discriminate.
  - destruct (mejor_del_grupo_fila kv kp k g (tarifas_df := t0 :: ts)) as [t [_ E']];
      [discriminate|].
    rewrite E' in E. injection E as <-. simpl. now destruct k.
Qed.

Lemma distribucion_del_mes_Ok (df : list (Consumo F * Periodo)) (anio mes : N) :
  distribucion_del_mes df anio mes
  = Ok (distribucion_de (kwh_de punta_LV (del_mes (anio, mes) df))
                        (kwh_de llano_LV (del_mes (anio, mes) df))
                        (kwh_de valle_LV (del_mes (anio, mes) df))
                        (kwh_de valle_SD (del_mes (anio, mes) df))
                        (kwh_total_de (del_mes (anio, mes) df))).
Proof.
  unfold distribucion_del_mes. now rewrite distribucion_Ok.
Qed.

(** The monthly table of data and a catalog that are not empty: one row per
    group, in the order of the groups. *)
Lemma mensual_desplegado (consumo_df : list (Consumo F)) (tarifas_df : list (Tarifa.t F))
  (kv kp : F) :
  consumo_df <> [] -> tarifas_df <> [] ->
  let df := clasificado consumo_df in
  exists resultados,
    Forall2 (fun grupo x => mejor_del_grupo tarifas_df kv kp grupo = Ok x)
            (groupby_anio_mes df) resultados
    /\ calcular_mejor_tarifa_por_mes consumo_df tarifas_df kv kp
       = Ok (map (fila_mejor_de df) resultados).
Proof.
  intros Hc Ht df.
  assert (Hdf : df <> []).
  { unfold df, clasificado. intros E. apply map_eq_nil in E. congruence. }
  destruct (para_cada_total (mejor_del_grupo tarifas_df kv kp) (groupby_anio_mes df))
    as [resultados Eres].
  { intros [k g] _.
    destruct (mejor_del_grupo_fila kv kp k g Ht) as [t [_ E]]. eauto. }
  exists resultados.
  pose proof (proj1 (para_cada_Forall2 _ _ _) Eres) as HF2.
  split; [exact HF2|].
  unfold calcular_mejor_tarifa_por_mes.
  rewrite con_periodo_ok. simpl bind. fold df. rewrite Eres. simpl bind.
  assert (Hkeys : map (fun x : Mes.fila F * KpisAhorro F =>
                         (Mes.anio (fst x), Mes.mes (fst x))) resultados
                  = map fst (groupby_anio_mes df)).
  { apply Forall2_map_eq. eapply Forall2_impl; [|exact HF2].
    intros grupo x E. now apply mejor_del_grupo_clave in E. }
  assert (Hsort : sort_values_anio_mes
                    (fun r : Mes.fila F * KpisAhorro F => (Mes.anio (fst r), Mes.mes (fst r)))
                    resultados = resultados).
  { apply sort_values_anio_mes_id.
    apply (@StronglySorted_map_inv _ _ clave_lt
             (fun x : Mes.fila F * KpisAhorro F => (Mes.anio (fst x), Mes.mes (fst x)))).
    rewrite Hkeys. unfold groupby_anio_mes. rewrite map_map. simpl.
    rewrite map_id. apply claves_sorted. }
  assert (Hres : resultados <> []).
  { intros ->. inversion HF2 as [E0|]. symmetry in E0.
    now apply groupby_anio_mes_no_vacio in E0. }
  rewrite (match_no_vacio _ _ Hres).
  rewrite Hsort, anadir_pct_energia_potencia_Ok. unfold bind at 1.
  rewrite (para_cada_Ok _ (fun row : Mes.fila F * KpisAhorro F * PctCoste F =>
                             snd (fila_mejor_de df (fst row))))
    by (intros row; apply distribucion_del_mes_Ok).
  unfold bind. rewrite combine_map_r, map_map. reflexivity.
Qed.

(** The two ways the monthly pipeline fails: no data leaves no rows to
    sort, and an empty catalog leaves [mejor] at [None]. *)
Lemma mensual_sin_consumo (tarifas_df : list (Tarifa.t F)) (kv kp : F) :
  calcular_mejor_tarifa_por_mes [] tarifas_df kv kp = Raise KeyError.
Proof.
  unfold calcular_mejor_tarifa_por_mes. rewrite con_periodo_ok. reflexivity.
Qed.

Lemma mensual_sin_tarifas (consumo_df : list (Consumo F)) (kv kp : F) :
  consumo_df <> [] ->
  calcular_mejor_tarifa_por_mes consumo_df [] kv kp = Raise TypeError.
Proof.
  intros Hc. unfold calcular_mejor_tarifa_por_mes. rewrite con_periodo_ok. simpl bind.
  assert (Hg : groupby_anio_mes (clasificado consumo_df) <> []).
  { apply groupby_anio_mes_no_vacio. unfold clasificado. intros E.
    apply map_eq_nil in E. congruence. }
  destruct (groupby_anio_mes (clasificado consumo_df)) as [|[k g] resto]; [congruence|].
  cbn [para_cada]. rewrite mejor_del_grupo_eq. reflexivity.
Qed.

End Mensual.

(** ** Cost of a tariff over a window *)

Lemma map_eq_Forall2 {A B C : Type} (f : A -> C) (g : B -> C) (l : list A) (l' : list B) :
  map g l' = map f l -> Forall2 (fun a b => g b = f a) l l'.
Proof.
  revert l'. induction l as [|a l IH]; intros [|b l'] E; simpl in E;
    try discriminate; constructor.
  - now injection E.
  - apply IH. now injection E.
Qed.

Lemma Forall2_In_derecha {A B : Type} (R : A -> B -> Prop) (l : list A) (l' : list B) :
  Forall2 R l l' -> forall y, In y l' -> exists x, In x l /\ R x y.
Proof.
  induction 1 as [|a b l l' Hab _ IH]; intros y Hy; simpl in Hy; [contradiction|].
  destruct Hy as [<-|Hy].
  - exists a. split; [now left | exact Hab].
  - destruct (IH y Hy) as [x [Hx Rxy]]. exists x. split; [now right | exact Rxy].
Qed.

Lemma Forall2_In_izquierda {A B : Type} (R : A -> B -> Prop) (l : list A) (l' : list B) :
  Forall2 R l l' -> Forall2 (fun a b => In a l /\ R a b) l l'.
Proof.
  induction 1 as [|a b l l' Hab _ IH]; constructor.
  - split; [now left | exact Hab].
  - eapply Forall2_impl; [|exact IH]. intros x y [Hx Hxy]. split; [now right | exact Hxy].
Qed.

Lemma Forall2_diagonal {A : Type} (R : A -> A -> Prop) (l : list A) :
  (forall x, R x x) -> Forall2 R l l.
Proof.
  intros H. induction l; constructor; [apply H | assumption].
Qed.

Lemma Forall2_map_derecha {A B C : Type} (P : A -> C -> Prop) (h : B -> C)
  (l : list A) (l' : list B) :
  Forall2 (fun a b => P a (h b)) l l' -> Forall2 P l (map h l').
Proof.
  induction 1; simpl; constructor; assumption.
Qed.

Section Costes.

Context {F : Type} {AF : Arith F} {OF : Orden F}.
Local Open Scope num_scope.

(** The rows of the ranking are the loop's rows of the catalog, taken in
    the order [sort_values] leaves them. *)
Lemma ranking_filas (sort_values : list (Anual.fila F) -> list (Anual.fila F))
  (consumo_df : list (Consumo F)) (tarifas_df : list (Tarifa.t F)) (kv kp : F) :
  permuta sort_values -> tarifas_df <> [] ->
  let df := clasificado consumo_df in
  let res :=
    sort_values (map (fila_anual_de (kwh_de punta_LV df) (kwh_de llano_LV df)
                                    (kwh_de valle_LV df) (kwh_de valle_SD df)
                                    (kwh_total_de df) kv kp) tarifas_df) in
  let d :=
    distribucion_de (kwh_de punta_LV df) (kwh_de llano_LV df)
                    (kwh_de valle_LV df) (kwh_de valle_SD df) (kwh_total_de df) in
  exists filas orden,
    calcular_costes_anuales_por_tarifa sort_values consumo_df tarifas_df kv kp = Ok filas
    /\ Permutation tarifas_df orden
    /\ map base_anual filas = res
    /\ Forall2 (fun t r =>
                  r = fila_ranking_de
                        (serie_median (map (@Anual.coste_total_anual F) res))
                        (serie_max (map (@Anual.coste_total_anual F) res)) d
                        (fila_anual_de (kwh_de punta_LV df) (kwh_de llano_LV df)
                                       (kwh_de valle_LV df) (kwh_de valle_SD df)
                                       (kwh_total_de df) kv kp t))
               orden filas.
Proof.
  intros Hperm Hne df res d.
  pose proof (ranking_desplegado sort_values consumo_df kv kp Hne) as E.
  cbv zeta in E. fold df in E. fold res in E. fold d in E.
  destruct (Permutation_map_inv _ _
              (Permutation_sym
                 (Hperm (map (fila_anual_de (kwh_de punta_LV df) (kwh_de llano_LV df)
                                            (kwh_de valle_LV df) (kwh_de valle_SD df)
                                            (kwh_total_de df) kv kp) tarifas_df))))
    as [orden [Eo Po]].
  fold res in Eo.
  eexists. exists orden. split; [exact E|]. split; [now apply Permutation_sym|].
  split; [apply base_anual_decorada|].
  remember (serie_median (map (@Anual.coste_total_anual F) res)) as mediana.
  remember (serie_max (map (@Anual.coste_total_anual F) res)) as peor.
  rewrite Eo, map_map. apply Forall2_map_derecha.
  apply Forall2_diagonal. reflexivity.
Qed.

(** C3. For every window and tariff: the energy cost is the sum over the
    four periods of the kWh of the period (the sum of the kWh of its records,
    zero when it has none) times the price of the period; the power cost is
    the off-peak charge times the off-peak kW plus the peak/flat charge times
    the peak/flat kW, each term times 12 in the annual ranking and taken once
    in the monthly table; the total is their sum. *)
Theorem coste_por_ventana (sort_values : list (Anual.fila F) -> list (Anual.fila F))
  (consumo_df : list (Consumo F)) (tarifas_df : list (Tarifa.t F)) (kv kp : F) :
  permuta sort_values -> consumo_df <> [] -> tarifas_df <> [] ->
  let df := clasificado consumo_df in
  (exists filas orden,
      calcular_costes_anuales_por_tarifa sort_values consumo_df tarifas_df kv kp = Ok filas
      /\ Permutation tarifas_df orden
      /\ Forall2 (fun t r =>
           Anual.comercializadora (base_anual r) = Tarifa.comercializadora t
           /\ Anual.tarifa (base_anual r) = Tarifa.tarifa t
           /\ Anual.coste_energia_anual (base_anual r)
           = kwh_de punta_LV df * Tarifa.punta_LV t
             + kwh_de llano_LV df * Tarifa.llano_LV t
             + kwh_de valle_LV df * Tarifa.valle_LV t
             + kwh_de valle_SD df * Tarifa.valle_SD t
           /\ Anual.coste_potencia_anual (base_anual r)
              = Tarifa.potencia_mes_valle t * kv * doce
                + Tarifa.potencia_mes_punta_llano t * kp * doce
           /\ Anual.coste_total_anual (base_anual r)
              = Anual.coste_energia_anual (base_anual r)
                + Anual.coste_potencia_anual (base_anual r))
         orden filas)
  /\ (exists filas,
         calcular_mejor_tarifa_por_mes consumo_df tarifas_df kv kp = Ok filas
         /\ Forall2 (fun grupo r =>
              exists t, In t tarifas_df
                /\ Mes.comercializadora (base_mes r) = Tarifa.comercializadora t
                /\ Mes.tarifa (base_mes r) = Tarifa.tarifa t
                /\ Mes.coste_energia_mes (base_mes r)
                   = kwh_de punta_LV (snd grupo) * Tarifa.punta_LV t
                     + kwh_de llano_LV (snd grupo) * Tarifa.llano_LV t
                     + kwh_de valle_LV (snd grupo) * Tarifa.valle_LV t
                     + kwh_de valle_SD (snd grupo) * Tarifa.valle_SD t
                /\ Mes.coste_potencia_mes (base_mes r)
                   = Tarifa.potencia_mes_valle t * kv
                     + Tarifa.potencia_mes_punta_llano t * kp
                /\ Mes.coste_total_mes (base_mes r)
                   = Mes.coste_energia_mes (base_mes r)
                     + Mes.coste_potencia_mes (base_mes r))
            (groupby_anio_mes df) filas)
  /\ (forall (p : Periodo) (ventana : list (Consumo F * Periodo)),
         kwh_de p ventana = serie_sum (map (fun r => kwh (fst r)) (del_periodo p ventana))
         /\ (del_periodo p ventana = [] -> kwh_de p ventana = cero)).
Proof.
  intros Hperm Hc Ht df. split; [|split].
  - destruct (ranking_filas consumo_df kv kp Hperm Ht) as [filas [orden [E [P [_ HF]]]]].
    exists filas, orden. split; [exact E|]. split; [exact P|].
    eapply Forall2_impl; [|exact HF].
    intros t r ->. repeat split.
  - destruct (mensual_desplegado kv kp Hc Ht) as [resultados [HF E]].
    eexists. split; [exact E|].
    apply Forall2_map_derecha. eapply Forall2_impl; [|exact HF].
    intros [k g] x Ex.
    destruct (mejor_del_grupo_fila kv kp k g Ht) as [t [Hin Et]].
    rewrite Et in Ex. injection Ex as <-.
    exists t. split; [exact Hin|]. repeat split.
  - intros p ventana. split; [apply kwh_de_suma|].
    intros E. now rewrite kwh_de_suma, E.
Qed.

End Costes.

(** ** Cost shares *)

Lemma pct_suma_cien_exacto (energia potencia : Qc) :
  (energia + potencia)%Qc <> Qc_of_Z 0 ->
  (porcentaje energia (energia + potencia)%Qc
   + porcentaje potencia (energia + potencia)%Qc)%Qc
  = Qc_of_Z 100.
Proof.
  intros Hne. rewrite !porcentaje_exacto by exact Hne. field. exact Hne.
Qed.

Lemma pct_cero_exacto (parte total : Qc) :
  total = Qc_of_Z 0 -> porcentaje parte total = Qc_of_Z 0.
Proof.
  intros ->. exact (porcentaje_cero (F := Qc) parte (Qc_of_Z 0) eq_refl).
Qed.

(** C10, as amended. In every row of the ranking and of the monthly table,
    in binary64 as in exact arithmetic, both cost shares are 0 when the total
    cost of the row compares equal to zero; and in exact arithmetic the energy
    share and the power share sum to 100 when the total cost of the row is
    not zero. *)
Theorem pct_coste_suma_cien :
  (forall (F : Type) (AF : Arith F) (OF : Orden F)
          (sort_values : list (Anual.fila F) -> list (Anual.fila F))
          (consumo_df : list (Consumo F)) (tarifas_df : list (Tarifa.t F)) (kv kp : F),
      permuta sort_values -> consumo_df <> [] -> tarifas_df <> [] ->
      (exists filas,
          calcular_costes_anuales_por_tarifa sort_values consumo_df tarifas_df kv kp
          = Ok filas
          /\ Forall (fun r =>
               (Anual.coste_total_anual (base_anual r) =? cero)%num = true
               -> pct_coste_energia (pct_anual r) = cero
                  /\ pct_coste_potencia (pct_anual r) = cero)
             filas)
      /\ (exists filas,
             calcular_mejor_tarifa_por_mes consumo_df tarifas_df kv kp = Ok filas
             /\ Forall (fun r =>
                  (Mes.coste_total_mes (base_mes r) =? cero)%num = true
                  -> pct_coste_energia (pct_mes r) = cero
                     /\ pct_coste_potencia (pct_mes r) = cero)
                filas))
  /\ (forall (sort_values : list (Anual.fila Qc) -> list (Anual.fila Qc))
             (consumo_df : list (Consumo Qc)) (tarifas_df : list (Tarifa.t Qc))
             (kv kp : Qc),
         permuta sort_values -> consumo_df <> [] -> tarifas_df <> [] ->
         (exists filas,
             calcular_costes_anuales_por_tarifa sort_values consumo_df tarifas_df kv kp
             = Ok filas
             /\ Forall (fun r =>
                  Anual.coste_total_anual (base_anual r) <> Qc_of_Z 0
                  -> (pct_coste_energia (pct_anual r)
                      + pct_coste_potencia (pct_anual r))%Qc
                     = Qc_of_Z 100)
                filas)
         /\ (exists filas,
                calcular_mejor_tarifa_por_mes consumo_df tarifas_df kv kp = Ok filas
                /\ Forall (fun r =>
                     Mes.coste_total_mes (base_mes r) <> Qc_of_Z 0
                     -> (pct_coste_energia (pct_mes r)
                         + pct_coste_potencia (pct_mes r))%Qc
                        = Qc_of_Z 100)
                   filas)).
Proof.
  split.
  - intros F AF OF sort_values consumo_df tarifas_df kv kp Hperm Hc Ht. split.
    + destruct (ranking_filas consumo_df kv kp Hperm Ht) as [filas [orden [E [_ [_ HF]]]]].
      exists filas. split; [exact E|].
      apply Forall_forall. intros r Hr.
      destruct (Forall2_In_derecha HF r Hr) as [t [_ ->]].
      unfold base_anual, pct_anual, fila_ranking_de. simpl.
      intros Hz. split; now apply porcentaje_cero.
    + destruct (mensual_desplegado kv kp Hc Ht) as [resultados [HF E]].
      eexists. split; [exact E|].
      apply Forall_forall. intros r Hr. apply in_map_iff in Hr.
      destruct Hr as [x [<- Hx]].
      unfold base_mes, pct_mes, fila_mejor_de. simpl.
      intros Hz. split; now apply porcentaje_cero.
  - intros sort_values consumo_df tarifas_df kv kp Hperm Hc Ht. split.
    + destruct (ranking_filas (OF := orden_exact) consumo_df kv kp Hperm Ht)
        as [filas [orden [E [_ [_ HF]]]]].
      exists filas. split; [exact E|].
      apply Forall_forall. intros r Hr.
      destruct (Forall2_In_derecha HF r Hr) as [t [_ ->]].
      unfold base_anual, pct_anual, fila_ranking_de. simpl.
      apply pct_suma_cien_exacto.
    + destruct (mensual_desplegado kv kp Hc Ht) as [resultados [HF E]].
      eexists. split; [exact E|].
      apply Forall_forall. intros r Hr. apply in_map_iff in Hr.
      destruct Hr as [x [<- Hx]].
      destruct (Forall2_In_derecha HF x Hx) as [[k g] [_ Ex]].
      destruct (mejor_del_grupo_fila kv kp k g Ht) as [t [_ Et]].
      rewrite Et in Ex. injection Ex as <-.
      unfold base_mes, pct_mes, fila_mejor_de. simpl.
      apply pct_suma_cien_exacto.
Qed.

Lemma pct_coste_suma_cien_ejemplo :
  permuta (@sort_estable Qc exact)
  /\ consumo_exacto <> []
  /\ [tarifa_exacta_1; tarifa_exacta_2] <> []
  /\ exists filas,
      calcular_mejor_tarifa_por_mes consumo_exacto [tarifa_exacta_1; tarifa_exacta_2]
        potencia_kw_valle_exacta potencia_kw_punta_llano_exacta
      = Ok filas
      /\ Forall (fun r =>
           Mes.coste_total_mes (base_mes r) <> Qc_of_Z 0
           -> (pct_coste_energia (pct_mes r) + pct_coste_potencia (pct_mes r))%Qc
              = Qc_of_Z 100)
         filas.
Proof.
  assert (H1 : consumo_exacto <> []) by discriminate.
  assert (H2 : [tarifa_exacta_1; tarifa_exacta_2] <> []) by discriminate.
  split; [apply sort_estable_permuta|]. split; [exact H1|]. split; [exact H2|].
  exact (proj2 (proj2 pct_coste_suma_cien sort_estable consumo_exacto
                  [tarifa_exacta_1; tarifa_exacta_2]
                  potencia_kw_valle_exacta potencia_kw_punta_llano_exacta
                  sort_estable_permuta H1 H2)).
Defined.

(** C10 as stated fails in binary64: for the 100 kWh at peak and the tariff
    that bills 2 and 3 euros per kW and month, the row of the ranking has a
    total cost that is not zero and shares that sum to 100.00000000000001. *)
Lemma pct_coste_no_suma_cien_binary64 :
  exists fila : FilaRanking float,
    calcular_costes_anuales_por_tarifa sort_estable consumo_escenario [tarifa_con_potencia]
      potencia_kw_valle_main potencia_kw_punta_llano_main
    = Ok [fila]
    /\ PrimFloat.eqb (Anual.coste_total_anual (base_anual fila)) 0%float = false
    /\ (pct_coste_energia (pct_anual fila) + pct_coste_potencia (pct_anual fila))%float
       <> 100%float.
Proof.
  eexists. split; [vm_compute; reflexivity|]. split; [reflexivity|].
  intros E. apply (f_equal (fun z => PrimFloat.eqb z 100%float)) in E.
  vm_compute in E. discriminate.
Qed.

(** ** One month of data: annual against monthly *)

Section UnMes.

Context {F : Type} {AF : Arith F}.

Lemma clave_clasificado (consumo_df : list (Consumo F)) (k : N * N) :
  (forall r, In r consumo_df -> (year (timestamp r), month (timestamp r)) = k) ->
  forall r, In r (clasificado consumo_df) -> clave r = k.
Proof.
  intros H r Hr. unfold clasificado in Hr. apply in_map_iff in Hr.
  destruct Hr as [c [<- Hc]]. unfold clave. simpl. now apply H.
Qed.

(** Rows of one month form one group, which holds all of them. *)
Lemma groupby_un_mes (df : list (Consumo F * Periodo)) (k : N * N) :
  df <> [] -> (forall r, In r df -> clave r = k) ->
  groupby_anio_mes df = [(k, df)].
Proof.
  intros Hne Hk. unfold groupby_anio_mes.
  assert (Hc : claves df = [k]).
  { unfold claves. induction df as [|r df IH]; [congruence|]. simpl.
    rewrite (Hk r (or_introl eq_refl)).
    destruct df as [|r' df'].
    - reflexivity.
    - rewrite IH; [|discriminate|intros x Hx; apply Hk; now right].
      simpl. now rewrite clave_eqb_refl. }
  rewrite Hc. simpl. f_equal. f_equal. unfold del_mes.
  clear Hc Hne. induction df as [|r df IH]; simpl; [reflexivity|].
  rewrite (Hk r (or_introl eq_refl)), clave_eqb_refl.
  f_equal. apply IH. intros x Hx. apply Hk. now right.
Qed.

End UnMes.

Lemma potencia_anual_doce_exacto (kv kp : Qc) (t : Tarifa.t Qc) :
  coste_potencia_anual_de kv kp t = (Qc_of_Z 12 * coste_potencia_mes_de kv kp t)%Qc.
Proof.
  unfold coste_potencia_anual_de, coste_potencia_mes_de.
  change doce with (Qc_of_Z 12).
  change (@suma Qc exact) with Qcplus. change (@prod Qc exact) with Qcmult.
  ring.
Qed.

(** C5, as amended. For data of a single month [k], in binary64 as in
    exact arithmetic: the month is the only group and holds every record; for
    each tariff the energy cost of its row of the ranking is the energy cost
    the monthly loop computes for it, its annual power cost is
    [a * kv * 12 + b * kp * 12] and its monthly one [a * kv + b * kp]; the one
    row of the monthly table is the monthly row of one of the tariffs. In
    exact arithmetic the annual power cost is 12 times the monthly one. *)
Theorem anual_y_mensual_de_un_mes :
  (forall (F : Type) (AF : Arith F) (OF : Orden F)
          (sort_values : list (Anual.fila F) -> list (Anual.fila F))
          (consumo_df : list (Consumo F)) (tarifas_df : list (Tarifa.t F)) (kv kp : F)
          (k : N * N),
      permuta sort_values -> consumo_df <> [] -> tarifas_df <> [] ->
      (forall r, In r consumo_df -> (year (timestamp r), month (timestamp r)) = k) ->
      let df := clasificado consumo_df in
      let fila_del_mes :=
        fila_mes (fst k) (snd k) (kwh_de punta_LV df) (kwh_de llano_LV df)
                 (kwh_de valle_LV df) (kwh_de valle_SD df) (kwh_total_de df) kv kp in
      groupby_anio_mes df = [(k, df)]
      /\ exists filas orden fila_m,
          calcular_costes_anuales_por_tarifa sort_values consumo_df tarifas_df kv kp
          = Ok filas
          /\ calcular_mejor_tarifa_por_mes consumo_df tarifas_df kv kp = Ok [fila_m]
          /\ Permutation tarifas_df orden
          /\ Forall2 (fun t r =>
               Anual.coste_energia_anual (base_anual r)
               = Mes.coste_energia_mes (fila_del_mes t)
               /\ Anual.coste_potencia_anual (base_anual r)
                  = (Tarifa.potencia_mes_valle t * kv * doce
                     + Tarifa.potencia_mes_punta_llano t * kp * doce)%num
               /\ Mes.coste_potencia_mes (fila_del_mes t)
                  = (Tarifa.potencia_mes_valle t * kv
                     + Tarifa.potencia_mes_punta_llano t * kp)%num)
             orden filas
          /\ exists t, In t tarifas_df /\ base_mes fila_m = fila_del_mes t)
  /\ (forall (sort_values : list (Anual.fila Qc) -> list (Anual.fila Qc))
             (consumo_df : list (Consumo Qc)) (tarifas_df : list (Tarifa.t Qc))
             (kv kp : Qc) (k : N * N),
         permuta sort_values -> tarifas_df <> [] ->
         let df := clasificado consumo_df in
         let fila_del_mes :=
           fila_mes (fst k) (snd k) (kwh_de punta_LV df) (kwh_de llano_LV df)
                    (kwh_de valle_LV df) (kwh_de valle_SD df) (kwh_total_de df) kv kp in
         exists filas orden,
           calcular_costes_anuales_por_tarifa sort_values consumo_df tarifas_df kv kp
           = Ok filas
           /\ Permutation tarifas_df orden
           /\ Forall2 (fun t r =>
                Anual.coste_potencia_anual (base_anual r)
                = (Qc_of_Z 12 * Mes.coste_potencia_mes (fila_del_mes t))%Qc)
              orden filas).
Proof.
  split.
  - intros F AF OF sort_values consumo_df tarifas_df kv kp k Hperm Hc Ht Hk
           df fila_del_mes.
    assert (Hdf : df <> []).
    { unfold df, clasificado. intros E. apply map_eq_nil in E. congruence. }
    assert (Hg : groupby_anio_mes df = [(k, df)]).
    { apply groupby_un_mes; [exact Hdf|]. now apply clave_clasificado. }
    split; [exact Hg|].
    destruct (ranking_filas consumo_df kv kp Hperm Ht) as [filas [orden [Ea [P [_ HF]]]]].
    destruct (mensual_desplegado kv kp Hc Ht) as [resultados [HF2 Em]].
    fold df in HF, HF2, Em. rewrite Hg in HF2.
    inversion HF2 as [|? x ? rs Ex Hrs]; subst. inversion Hrs; subst.
    destruct (mejor_del_grupo_fila kv kp k df Ht) as [t [Hin Et]].
    rewrite Et in Ex. injection Ex as <-.
    eexists filas, orden, _. split; [exact Ea|]. split; [exact Em|].
    split; [exact P|]. split.
    + eapply Forall2_impl; [|exact HF]. intros t' r ->.
      unfold base_anual, fila_ranking_de. simpl.
      split; [reflexivity|]. split; reflexivity.
    + exists t. split; [exact Hin | reflexivity].
  - intros sort_values consumo_df tarifas_df kv kp k Hperm Ht df fila_del_mes.
    destruct (ranking_filas (OF := orden_exact) consumo_df kv kp Hperm Ht)
      as [filas [orden [Ea [P [_ HF]]]]].
    exists filas, orden. split; [exact Ea|]. split; [exact P|].
    eapply Forall2_impl; [|exact HF]. intros t' r ->.
    unfold base_anual, fila_ranking_de. simpl.
    apply potencia_anual_doce_exacto.
Qed.

Lemma anual_y_mensual_de_un_mes_ejemplo :
  let df := clasificado consumo_exacto in
  let kv := potencia_kw_valle_exacta in
  let kp := potencia_kw_punta_llano_exacta in
  let fila_del_mes :=
    fila_mes 2025 3 (kwh_de punta_LV df) (kwh_de llano_LV df)
             (kwh_de valle_LV df) (kwh_de valle_SD df) (kwh_total_de df) kv kp in
  (groupby_anio_mes df = [((2025%N, 3%N), df)]
   /\ exists filas orden fila_m,
       calcular_costes_anuales_por_tarifa sort_estable consumo_exacto
         [tarifa_exacta_1; tarifa_exacta_2] kv kp = Ok filas
       /\ calcular_mejor_tarifa_por_mes consumo_exacto
            [tarifa_exacta_1; tarifa_exacta_2] kv kp = Ok [fila_m]
       /\ Permutation [tarifa_exacta_1; tarifa_exacta_2] orden
       /\ Forall2 (fun t r =>
            Anual.coste_energia_anual (base_anual r)
            = Mes.coste_energia_mes (fila_del_mes t)
            /\ Anual.coste_potencia_anual (base_anual r)
               = (Tarifa.potencia_mes_valle t * kv * Qc_of_Z 12
                  + Tarifa.potencia_mes_punta_llano t * kp * Qc_of_Z 12)%Qc
            /\ Mes.coste_potencia_mes (fila_del_mes t)
               = (Tarifa.potencia_mes_valle t * kv
                  + Tarifa.potencia_mes_punta_llano t * kp)%Qc)
          orden filas
       /\ exists t, In t [tarifa_exacta_1; tarifa_exacta_2]
                    /\ base_mes fila_m = fila_del_mes t)
  /\ exists filas orden,
      calcular_costes_anuales_por_tarifa sort_estable consumo_exacto
        [tarifa_exacta_1; tarifa_exacta_2] kv kp = Ok filas
      /\ Permutation [tarifa_exacta_1; tarifa_exacta_2] orden
      /\ Forall2 (fun t r =>
           Anual.coste_potencia_anual (base_anual r)
           = (Qc_of_Z 12 * Mes.coste_potencia_mes (fila_del_mes t))%Qc)
         orden filas.
Proof.
  assert (H1 : consumo_exacto <> []) by discriminate.
  assert (H2 : [tarifa_exacta_1; tarifa_exacta_2] <> []) by discriminate.
  assert (H3 : forall r, In r consumo_exacto
                         -> (year (timestamp r), month (timestamp r)) = (2025%N, 3%N)).
  { intros r [<-|[]]. reflexivity. }
  split.
  - exact (proj1 anual_y_mensual_de_un_mes Qc exact orden_exact sort_estable
             consumo_exacto [tarifa_exacta_1; tarifa_exacta_2]
             potencia_kw_valle_exacta potencia_kw_punta_llano_exacta (2025%N, 3%N)
             sort_estable_permuta H1 H2 H3).
  - exact (proj2 anual_y_mensual_de_un_mes sort_estable
             consumo_exacto [tarifa_exacta_1; tarifa_exacta_2]
             potencia_kw_valle_exacta potencia_kw_punta_llano_exacta (2025%N, 3%N)
             sort_estable_permuta H2).
Defined.

(** C5 as stated fails in binary64: for the 100 kWh of March at peak and
    the tariff that bills 2 and 3 euros per kW and month, with 3.45 and 4.60 kW
    contracted, the energy costs agree, but the annual power cost is
    248.40000000000001 and 12 times the monthly one is 248.39999999999998. *)
Lemma potencia_anual_no_doce_binary64 :
  exists (fila_a : FilaRanking float) (fila_m : FilaMejor float),
    calcular_costes_anuales_por_tarifa sort_estable consumo_escenario [tarifa_con_potencia]
      potencia_kw_valle_main potencia_kw_punta_llano_main
    = Ok [fila_a]
    /\ calcular_mejor_tarifa_por_mes consumo_escenario [tarifa_con_potencia]
         potencia_kw_valle_main potencia_kw_punta_llano_main
       = Ok [fila_m]
    /\ Anual.coste_energia_anual (base_anual fila_a) = Mes.coste_energia_mes (base_mes fila_m)
    /\ Anual.coste_potencia_anual (base_anual fila_a)
       <> (12 * Mes.coste_potencia_mes (base_mes fila_m))%float.
Proof.
  eexists. eexists. split; [vm_compute; reflexivity|].
  split; [vm_compute; reflexivity|]. split; [reflexivity|].
  intros E.
  apply (f_equal (fun z => PrimFloat.eqb z 248.40000000000001%float)) in E.
  vm_compute in E. discriminate.
Qed.

(** ** kWh of a window *)

Section KwhVentana.

Context {F : Type} {AF : Arith F} {OF : Orden F}.
Local Open Scope num_scope.

(** Every record of a window carries exactly one of the four labels. *)
Lemma particion_periodos (ventana : list (Consumo F * Periodo)) :
  Permutation ventana
    (del_periodo punta_LV ventana ++ del_periodo llano_LV ventana
     ++ del_periodo valle_LV ventana ++ del_periodo valle_SD ventana).
Proof.
  induction ventana as [|[c p] w IH]; simpl; [constructor|].
  unfold del_periodo in *. simpl. destruct p; simpl.
  - now constructor.
  - now apply Permutation_cons_app.
  - rewrite app_assoc. rewrite app_assoc in IH. now apply Permutation_cons_app.
  - rewrite !app_assoc. rewrite !app_assoc in IH. now apply Permutation_cons_app.
Qed.

Lemma grupo_del_mes (df : list (Consumo F * Periodo))
  (grupo : (N * N) * list (Consumo F * Periodo)) :
  In grupo (groupby_anio_mes df) -> snd grupo = del_mes (fst grupo) df.
Proof.
  unfold groupby_anio_mes. intros H. apply in_map_iff in H.
  destruct H as [k [<- _]]. reflexivity.
Qed.

(** In both tables the kWh of the window of a row is the sum of its four
    period columns, each the sum of the kWh of the rows of the classified
    window with that label. *)
Lemma kwh_por_periodo_columnas
  (sort_values : list (Anual.fila F) -> list (Anual.fila F))
  (consumo_df : list (Consumo F)) (tarifas_df : list (Tarifa.t F)) (kv kp : F) :
  permuta sort_values -> consumo_df <> [] -> tarifas_df <> [] ->
  let df := clasificado consumo_df in
  let suma_de p (ventana : list (Consumo F * Periodo)) :=
    serie_sum (map (fun r => kwh (fst r)) (del_periodo p ventana)) in
  (exists filas,
      calcular_costes_anuales_por_tarifa sort_values consumo_df tarifas_df kv kp = Ok filas
      /\ Forall (fun r =>
           Anual.kwh_anuales (base_anual r)
           = kwh_punta_LV (dist_anual r) + kwh_llano_LV (dist_anual r)
             + kwh_valle_LV (dist_anual r) + kwh_valle_SD (dist_anual r)
           /\ kwh_punta_LV (dist_anual r) = suma_de punta_LV df
           /\ kwh_llano_LV (dist_anual r) = suma_de llano_LV df
           /\ kwh_valle_LV (dist_anual r) = suma_de valle_LV df
           /\ kwh_valle_SD (dist_anual r) = suma_de valle_SD df)
         filas)
  /\ (exists filas,
         calcular_mejor_tarifa_por_mes consumo_df tarifas_df kv kp = Ok filas
         /\ Forall2 (fun grupo r =>
              (Mes.anio (base_mes r), Mes.mes (base_mes r)) = fst grupo
              /\ Mes.kwh_mes (base_mes r)
                 = kwh_punta_LV (dist_mes r) + kwh_llano_LV (dist_mes r)
                   + kwh_valle_LV (dist_mes r) + kwh_valle_SD (dist_mes r)
              /\ kwh_punta_LV (dist_mes r) = suma_de punta_LV (snd grupo)
              /\ kwh_llano_LV (dist_mes r) = suma_de llano_LV (snd grupo)
              /\ kwh_valle_LV (dist_mes r) = suma_de valle_LV (snd grupo)
              /\ kwh_valle_SD (dist_mes r) = suma_de valle_SD (snd grupo))
            (groupby_anio_mes df) filas)
  /\ (forall ventana : list (Consumo F * Periodo),
         Permutation ventana
           (del_periodo punta_LV ventana ++ del_periodo llano_LV ventana
            ++ del_periodo valle_LV ventana ++ del_periodo valle_SD ventana)).
Proof.
  intros Hperm Hc Ht df suma_de. split; [|split].
  - destruct (ranking_filas consumo_df kv kp Hperm Ht) as [filas [orden [E [_ [_ HF]]]]].
    exists filas. split; [exact E|].
    apply Forall_forall. intros r Hr.
    destruct (Forall2_In_derecha HF r Hr) as [t [_ ->]].
    unfold base_anual, dist_anual, fila_ranking_de, suma_de. simpl.
    rewrite <- !kwh_de_suma. repeat split.
  - destruct (mensual_desplegado kv kp Hc Ht) as [resultados [HF E]].
    fold df in HF, E. eexists. split; [exact E|].
    apply Forall2_map_derecha. apply Forall2_In_izquierda in HF.
    eapply Forall2_impl; [|exact HF].
    intros [k g] x [Hin Ex]. apply grupo_del_mes in Hin. simpl in Hin.
    destruct (mejor_del_grupo_fila kv kp k g Ht) as [t [_ Et]].
    rewrite Et in Ex. injection Ex as <-.
    unfold base_mes, dist_mes, suma_de, fila_mejor_de. simpl.
    rewrite <- surjective_pairing, <- Hin, <- !kwh_de_suma.
    repeat split.
  - apply particion_periodos.
Qed.

End KwhVentana.

(** ** Monthly selection *)

Section SeleccionMensual.

Context {F : Type} {AF : Arith F} {OF : Orden F}.
Local Open Scope num_scope.

Variables (anio mes : N) (kP kL kV kS tot kv kp : F).

Let paso := paso_tarifa anio mes kP kL kV kS tot kv kp.
Let fila := fila_mes anio mes kP kL kV kS tot kv kp.
Let total := total_mes_de kP kL kV kS kv kp.

Lemma es_mejor_primera (t : Tarifa.t F) :
  valido (total t) -> es_mejor total fila [t] (fila t).
Proof.
  intros Hv. exists 0%nat, t. split; [reflexivity|]. split; [reflexivity|]. split.
  - intros t' [<-|[]]. now apply menor_o_igual_refl.
  - intros j t' Hj. inversion Hj.
Qed.

(** One more tariff: the winner changes only for a strictly smaller total. *)
Lemma es_mejor_paso (vistas : list (Tarifa.t F)) (m : Mes.fila F) (t : Tarifa.t F) :
  (forall t', In t' (vistas ++ [t]) -> valido (total t')) ->
  es_mejor total fila vistas m ->
  es_mejor total fila (vistas ++ [t])
           (if total t <? Mes.coste_total_mes m then fila t else m).
Proof.
  intros Hv [i [ti [Hi [-> [Hmin Hfirst]]]]].
  change (Mes.coste_total_mes (fila ti)) with (total ti).
  assert (Hlen : (i < length vistas)%nat).
  { apply nth_error_Some. congruence. }
  assert (Hvt : valido (total t)).
  { apply Hv. apply in_or_app. right. now left. }
  assert (Hvi : valido (total ti)).
  { apply Hv. apply in_or_app. left. eapply nth_error_In; eauto. }
  destruct (total t <? total ti) eqn:E.
  - apply menor_true in E.
    exists (length vistas), t. split.
    { rewrite nth_error_app2, Nat.sub_diag; [reflexivity | apply Nat.le_refl]. }
    split; [reflexivity|]. split.
    + intros t' Hin. apply in_app_or in Hin. destruct Hin as [Hin|[<-|[]]].
      * apply menor_que_debil. eapply menor_que_o_igual; [exact E|]. now apply Hmin.
      * now apply menor_o_igual_refl.
    + intros j t' Hj Hn. rewrite nth_error_app1 in Hn by exact Hj.
      eapply menor_que_o_igual; [exact E|]. apply Hmin. eapply nth_error_In; eauto.
  - apply menor_false in E; [|exact Hvt|exact Hvi].
    exists i, ti. split.
    { rewrite nth_error_app1 by exact Hlen. exact Hi. }
    split; [reflexivity|]. split.
    + intros t' Hin. apply in_app_or in Hin. destruct Hin as [Hin|[<-|[]]].
      * now apply Hmin.
      * exact E.
    + intros j t' Hj Hn. rewrite nth_error_app1 in Hn by lia.
      now apply (Hfirst j).
Qed.

Lemma bucle_mejor_minimo (ts : list (Tarifa.t F)) :
  forall vistas m cs,
    (forall t', In t' (vistas ++ ts) -> valido (total t')) ->
    es_mejor total fila vistas m ->
    exists m', fst (fold_left paso ts (Some m, cs)) = Some m'
               /\ es_mejor total fila (vistas ++ ts) m'.
Proof.
  induction ts as [|t ts IH]; intros vistas m cs Hv Hm.
  - exists m. rewrite app_nil_r. now split.
  - unfold paso. rewrite bucle_cons, paso_tarifa_eq. fold paso fila total.
    assert (Eapp : vistas ++ t :: ts = (vistas ++ [t]) ++ ts)
      by (rewrite <- app_assoc; reflexivity).
    rewrite Eapp in *.
    assert (Hv' : forall t', In t' (vistas ++ [t]) -> valido (total t')).
    { intros t' Hin. apply Hv. apply in_or_app. now left. }
    pose proof (es_mejor_paso t Hv' Hm) as Hm'.
    destruct (total t <? Mes.coste_total_mes m); now apply IH.
Qed.

Lemma bucle_desde_vacio (ts : list (Tarifa.t F)) :
  ts <> [] -> (forall t', In t' ts -> valido (total t')) ->
  exists m, fst (fold_left paso ts (None, [])) = Some m /\ es_mejor total fila ts m.
Proof.
  destruct ts as [|t ts]; [congruence|]. intros _ Hv.
  unfold paso. rewrite bucle_cons, paso_tarifa_eq. fold paso fila total.
  apply (bucle_mejor_minimo ts (vistas := [t])); [exact Hv|].
  apply es_mejor_primera. apply Hv. now left.
Qed.

End SeleccionMensual.

(** C1, as amended. In an ordered arithmetic (binary64 without NaN, or the rationals),
    with data and a catalog that are not empty and monthly totals that are
    all valid: the monthly table has one row per (year, month) group, in the
    order of the groups; the row is that of a tariff of the catalog whose
    total for the month is at most the total of every tariff and strictly
    below the total of every tariff that comes before it in the catalog. *)
Theorem mejor_tarifa_del_mes_es_minima {F : Type} {AF : Arith F} {OF : Orden F}
  (consumo_df : list (Consumo F)) (tarifas_df : list (Tarifa.t F)) (kv kp : F) :
  consumo_df <> [] -> tarifas_df <> [] ->
  (forall grupo t,
      In grupo (groupby_anio_mes (clasificado consumo_df)) -> In t tarifas_df ->
      valido (total_mes_de (kwh_de punta_LV (snd grupo)) (kwh_de llano_LV (snd grupo))
                           (kwh_de valle_LV (snd grupo)) (kwh_de valle_SD (snd grupo))
                           kv kp t)) ->
  exists filas,
    calcular_mejor_tarifa_por_mes consumo_df tarifas_df kv kp = Ok filas
    /\ Forall2 (fun grupo r =>
         let total :=
           total_mes_de (kwh_de punta_LV (snd grupo)) (kwh_de llano_LV (snd grupo))
                        (kwh_de valle_LV (snd grupo)) (kwh_de valle_SD (snd grupo))
                        kv kp in
         (Mes.anio (base_mes r), Mes.mes (base_mes r)) = fst grupo
         /\ exists (i : nat) (t : Tarifa.t F),
             nth_error tarifas_df i = Some t
             /\ Mes.comercializadora (base_mes r) = Tarifa.comercializadora t
             /\ Mes.tarifa (base_mes r) = Tarifa.tarifa t
             /\ Mes.coste_total_mes (base_mes r) = total t
             /\ (forall t', In t' tarifas_df -> (total t <= total t')%num)
             /\ (forall j t', (j < i)%nat -> nth_error tarifas_df j = Some t'
                              -> (total t < total t')%num))
       (groupby_anio_mes (clasificado consumo_df)) filas.
Proof.
  intros Hc Ht Hv.
  destruct (mensual_desplegado kv kp Hc Ht) as [resultados [HF E]].
  eexists. split; [exact E|].
  apply Forall2_map_derecha. apply Forall2_In_izquierda in HF.
  eapply Forall2_impl; [|exact HF].
  intros [k g] x [Hin Ex]. cbv zeta. unfold base_mes. simpl fst. simpl snd.
  split; [exact (mejor_del_grupo_clave _ _ _ _ Ex)|].
  rewrite mejor_del_grupo_eq in Ex. cbv zeta in Ex.
  destruct (bucle_desde_vacio (fst k) (snd k) (kwh_de punta_LV g) (kwh_de llano_LV g)
              (kwh_de valle_LV g) (kwh_de valle_SD g) (kwh_total_de g) kv kp Ht)
    as [m [Em [i [t [Hi [-> [Hmin Hfirst]]]]]]].
  { intros t' Ht'. exact (Hv (k, g) t' Hin Ht'). }
  rewrite Em in Ex. injection Ex as <-.
  exists i, t. simpl. repeat split; assumption.
Qed.

Lemma mejor_tarifa_del_mes_es_minima_escenario :
  consumo_escenario <> []
  /\ [tarifa_con_potencia; tarifa_gemela; tarifa_escenario] <> []
  /\ (forall grupo t,
         In grupo (groupby_anio_mes (clasificado consumo_escenario)) ->
         In t [tarifa_con_potencia; tarifa_gemela; tarifa_escenario] ->
         PrimFloat.is_nan
           (total_mes_de (kwh_de punta_LV (snd grupo)) (kwh_de llano_LV (snd grupo))
                         (kwh_de valle_LV (snd grupo)) (kwh_de valle_SD (snd grupo))
                         potencia_kw_valle_main potencia_kw_punta_llano_main t)
         = false)
  /\ exists filas,
      calcular_mejor_tarifa_por_mes consumo_escenario
        [tarifa_con_potencia; tarifa_gemela; tarifa_escenario]
        potencia_kw_valle_main potencia_kw_punta_llano_main = Ok filas
      /\ Forall2 (fun grupo r =>
           let total :=
             total_mes_de (kwh_de punta_LV (snd grupo)) (kwh_de llano_LV (snd grupo))
                          (kwh_de valle_LV (snd grupo)) (kwh_de valle_SD (snd grupo))
                          potencia_kw_valle_main potencia_kw_punta_llano_main in
           (Mes.anio (base_mes r), Mes.mes (base_mes r)) = fst grupo
           /\ exists (i : nat) (t : Tarifa.t float),
               nth_error [tarifa_con_potencia; tarifa_gemela; tarifa_escenario] i = Some t
               /\ Mes.comercializadora (base_mes r) = Tarifa.comercializadora t
               /\ Mes.tarifa (base_mes r) = Tarifa.tarifa t
               /\ Mes.coste_total_mes (base_mes r) = total t
               /\ (forall t', In t' [tarifa_con_potencia; tarifa_gemela; tarifa_escenario]
                              -> PrimFloat.leb (total t) (total t') = true)
               /\ (forall j t', (j < i)%nat
                      -> nth_error [tarifa_con_potencia; tarifa_gemela; tarifa_escenario] j
                         = Some t'
                      -> PrimFloat.ltb (total t) (total t') = true))
         (groupby_anio_mes (clasificado consumo_escenario)) filas.
Proof.
  assert (H1 : consumo_escenario <> []) by discriminate.
  assert (H2 : [tarifa_con_potencia; tarifa_gemela; tarifa_escenario] <> [])
    by discriminate.
  assert (H3 : forall grupo t,
             In grupo (groupby_anio_mes (clasificado consumo_escenario)) ->
             In t [tarifa_con_potencia; tarifa_gemela; tarifa_escenario] ->
             PrimFloat.is_nan
               (total_mes_de (kwh_de punta_LV (snd grupo)) (kwh_de llano_LV (snd grupo))
                             (kwh_de valle_LV (snd grupo)) (kwh_de valle_SD (snd grupo))
                             potencia_kw_valle_main potencia_kw_punta_llano_main t)
             = false).
  { intros grupo t [<-|[]] [<-|[<-|[<-|[]]]]; reflexivity. }
  split; [exact H1|]. split; [exact H2|]. split; [exact H3|].
  exact (mejor_tarifa_del_mes_es_minima (OF := orden_binary64)
           potencia_kw_valle_main potencia_kw_punta_llano_main H1 H2 H3).
Defined.

(** C1 as stated fails when a monthly total is NaN: every comparison with
    NaN is false, so a first tariff with a missing price is never replaced.
    For the 100 kWh at peak the table keeps the tariff without price, with a
    total that is NaN, although the tariff after it costs 20. *)
Lemma mejor_mensual_con_total_nan :
  exists fila otra : FilaMejor float,
    calcular_mejor_tarifa_por_mes consumo_escenario [tarifa_sin_precio; tarifa_escenario]
      potencia_kw_valle_main potencia_kw_punta_llano_main = Ok [fila]
    /\ calcular_mejor_tarifa_por_mes consumo_escenario [tarifa_escenario]
         potencia_kw_valle_main potencia_kw_punta_llano_main = Ok [otra]
    /\ Mes.tarifa (base_mes fila) = Tarifa.tarifa tarifa_sin_precio
    /\ PrimFloat.is_nan (Mes.coste_total_mes (base_mes fila)) = true
    /\ Mes.coste_total_mes (base_mes otra) = 20%float
    /\ PrimFloat.leb (Mes.coste_total_mes (base_mes fila))
                     (Mes.coste_total_mes (base_mes otra)) = false.
Proof.
  eexists. eexists. split; [vm_compute; reflexivity|].
  split; [vm_compute; reflexivity|]. repeat split.
Qed.

(** Of two tariffs with the same total for the month, and a third that
    costs more, the monthly table keeps the first of the catalog. *)
Example empate_mensual_primera_del_catalogo :
  exists fila : FilaMejor float,
    calcular_mejor_tarifa_por_mes consumo_escenario
      [tarifa_con_potencia; tarifa_gemela]
      potencia_kw_valle_main potencia_kw_punta_llano_main = Ok [fila]
    /\ Mes.tarifa (base_mes fila) = Tarifa.tarifa tarifa_con_potencia
    /\ ref_peor_coste_total (kpis_mes fila) = Mes.coste_total_mes (base_mes fila).
Proof.
  eexists. split; [vm_compute; reflexivity|]. split; reflexivity.
Qed.

(** ** Ranking order *)

Lemma StronglySorted_impl {A : Type} (R R' : A -> A -> Prop) (l : list A) :
  (forall a b, R a b -> R' a b) -> StronglySorted R l -> StronglySorted R' l.
Proof.
  intros HR. induction 1 as [|x l Hs IH Hall]; constructor; [exact IH|].
  eapply Forall_impl; [|exact Hall]. intros b. apply HR.
Qed.

Section OrdenRanking.

Context {F : Type} {AF : Arith F} {OF : Orden F}.
Local Open Scope num_scope.

Lemma no_na_valido (s : list F) : Forall valido s -> no_na s = s.
Proof.
  unfold no_na. induction 1 as [|x s Hx Hs IH]; simpl; [reflexivity|].
  rewrite (valido_no_na x Hx). simpl. now f_equal.
Qed.

(** The running maximum of [Series.max()] is one of the cells and is at
    least every cell. *)
Lemma maximo_cota (xs : list F) (m : F) :
  valido m -> Forall valido xs ->
  In (fold_left (fun m y => if m <? y then y else m) xs m) (m :: xs)
  /\ m <= fold_left (fun m y => if m <? y then y else m) xs m
  /\ forall z, In z xs -> z <= fold_left (fun m y => if m <? y then y else m) xs m.
Proof.
  revert m. induction xs as [|a xs IH]; intros m Hm Hxs; simpl fold_left.
  - split; [now left|]. split; [now apply menor_o_igual_refl | intros z []].
  - inversion Hxs as [|? ? Ha Hxs']; subst.
    destruct (m <? a) eqn:E.
    + destruct (IH a Ha Hxs') as [H0 [H1 H2]].
      assert (Hma : m <= a) by (apply menor_que_debil, menor_true, E).
      split; [right; exact H0|]. split.
      * eapply menor_o_igual_trans; [exact Hma | exact H1].
      * intros z [<-|Hz]; [exact H1 | now apply H2].
    + destruct (IH m Hm Hxs') as [H0 [H1 H2]].
      assert (Ham : a <= m) by (now apply menor_false).
      split; [destruct H0 as [H0|H0]; [now left | now right; right]|].
      split; [exact H1|].
      intros z [<-|Hz]; [eapply menor_o_igual_trans; [exact Ham | exact H1] | now apply H2].
Qed.

Lemma serie_max_cota (s : list F) (x : F) :
  Forall valido s -> In x s -> x <= serie_max s.
Proof.
  intros Hs Hx. unfold serie_max. rewrite (no_na_valido Hs).
  destruct s as [|y s]; [destruct Hx|].
  inversion Hs as [|? ? Hy Hs']; subst.
  destruct (@maximo_cota s y Hy Hs') as [_ [H1 H2]].
  destruct Hx as [<-|Hx]; [exact H1 | now apply H2].
Qed.

Lemma serie_max_In (s : list F) : Forall valido s -> s <> [] -> In (serie_max s) s.
Proof.
  intros Hs Hne. unfold serie_max. rewrite (no_na_valido Hs).
  destruct s as [|y s]; [congruence|].
  inversion Hs as [|? ? Hy Hs']; subst.
  exact (proj1 (@maximo_cota s y Hy Hs')).
Qed.

Lemma insertar_fila_ascendente (x : Anual.fila F) (l : list (Anual.fila F)) :
  ascendente (@Anual.coste_total_anual F) l
  -> ascendente (@Anual.coste_total_anual F) (insertar_fila x l).
Proof.
  unfold ascendente. induction l as [|y l IH]; intros Hs; simpl.
  - repeat constructor.
  - inversion Hs as [|? ? Hs' Hall]; subst.
    destruct (Anual.coste_total_anual x <? Anual.coste_total_anual y) eqn:E.
    + constructor; [exact Hs|].
      assert (Hy : (Anual.coste_total_anual y <? Anual.coste_total_anual x) = false).
      { destruct (Anual.coste_total_anual y <? Anual.coste_total_anual x) eqn:E';
          [|reflexivity].
        pose proof (menor_trans _ _ _ E E') as C. now rewrite menor_irrefl in C. }
      constructor; [exact Hy|].
      apply Forall_forall. intros z Hz. rewrite Forall_forall in Hall.
      destruct (Anual.coste_total_anual z <? Anual.coste_total_anual x) eqn:E';
        [|reflexivity].
      pose proof (menor_trans _ _ _ E' E) as C. now rewrite (Hall z Hz) in C.
    + constructor; [now apply IH|].
      apply Forall_forall. intros z Hz.
      apply (Permutation_in _ (Permutation_sym (insertar_fila_permuta x l))) in Hz.
      destruct Hz as [<-|Hz]; [exact E|].
      rewrite Forall_forall in Hall. now apply Hall.
Qed.

Lemma insertar_desde_ascendente (l acc : list (Anual.fila F)) :
  ascendente (@Anual.coste_total_anual F) acc
  -> ascendente (@Anual.coste_total_anual F)
       (fold_left (fun a x => insertar_fila x a) l acc).
Proof.
  revert acc. induction l as [|x l IH]; intros acc Hacc; simpl; [exact Hacc|].
  apply IH. now apply insertar_fila_ascendente.
Qed.

(** On rows with no missing cost the stable sort is the insertion sort of
    all of them. *)
Lemma sort_estable_sin_faltas (l : list (Anual.fila F)) :
  Forall (fun r => coste_falta r = false) l
  -> sort_estable l = fold_left (fun a x => insertar_fila x a) l [].
Proof.
  intros H. unfold sort_estable.
  assert (E1 : filter (fun r => negb (coste_falta r)) l = l).
  { induction H as [|x l Hx _ IH]; [reflexivity|].
    cbn [filter]. rewrite Hx. cbn [negb]. now f_equal. }
  assert (E2 : filter coste_falta l = []).
  { clear E1. induction H as [|x l Hx _ IH]; [reflexivity|].
    cbn [filter]. rewrite Hx. exact IH. }
  now rewrite E1, E2, app_nil_r.
Qed.

Lemma sort_estable_ascendente (l : list (Anual.fila F)) :
  Forall (fun r => valido (Anual.coste_total_anual r)) l
  -> ascendente (@Anual.coste_total_anual F) (sort_estable l).
Proof.
  intros H. rewrite sort_estable_sin_faltas.
  - apply insertar_desde_ascendente. constructor.
  - eapply Forall_impl; [|exact H]. intros r Hr. now apply valido_no_na.
Qed.

(** With a missing value that compares false with everything, as NaN does,
    the stable sort meets the contract of [sort_values] on every table. *)
Lemma sort_estable_contrato :
  (forall x y : F, isna x = true -> (x <? y) = false)
  -> contrato_sort_values (@sort_estable F AF).
Proof.
  intros Hna. split; [apply sort_estable_permuta|].
  intros l. unfold sort_estable, ascendente.
  set (R := fun a b : Anual.fila F =>
              (Anual.coste_total_anual b <? Anual.coste_total_anual a) = false).
  assert (Hcola : forall a b, In b (filter coste_falta l) -> R a b).
  { intros a b Hb. apply filter_In in Hb. destruct Hb as [_ Hb]. now apply Hna. }
  assert (Hfaltas : StronglySorted R (filter coste_falta l)).
  { induction (filter coste_falta l) as [|b bs IH]; constructor.
    - apply IH. intros a b' Hb'. apply Hcola. now right.
    - apply Forall_forall. intros b' Hb'. apply Hcola. now right. }
  pose proof (@insertar_desde_ascendente
                (filter (fun r => negb (coste_falta r)) l) []
                (SSorted_nil _)) as Hs.
  fold R in Hs. unfold ascendente in Hs. fold R in Hs.
  induction Hs as [|a s Hs IH Hall]; simpl; [exact Hfaltas|].
  constructor; [exact IH|].
  apply Forall_app. split; [exact Hall|].
  apply Forall_forall. intros b Hb. now apply Hcola.
Qed.

End OrdenRanking.

Lemma ascendente_le_total (l : list (Anual.fila Qc)) :
  ascendente (@Anual.coste_total_anual Qc) l <-> StronglySorted le_total l.
Proof.
  unfold ascendente. split; apply StronglySorted_impl; intros a b H.
  - now apply Qcltb_ge in H.
  - now apply Qcltb_ge.
Qed.

Lemma sort_estable_contrato_exacto : contrato_sort_values (@sort_estable Qc exact).
Proof. apply (sort_estable_contrato (OF := orden_exact)). intros x y H. discriminate H. Qed.

Lemma no_na_exacto (s : list Qc) : no_na s = s.
Proof.
  unfold no_na. induction s as [|x s IH]; [reflexivity|].
  change (x :: filter (fun y : Qc => negb (isna y)) s = x :: s). now f_equal.
Qed.

(** The order of the ranking, for a [sort_values] that permutes the rows
    and returns those of this catalog ascending. *)
Lemma ranking_ordenado_si_asciende {F : Type} {AF : Arith F} {OF : Orden F}
  (sort_values : list (Anual.fila F) -> list (Anual.fila F))
  (consumo_df : list (Consumo F)) (tarifas_df : list (Tarifa.t F)) (kv kp : F) :
  permuta sort_values ->
  ascendente (@Anual.coste_total_anual F)
    (sort_values (map (fila_anual_de (kwh_de punta_LV (clasificado consumo_df))
                                     (kwh_de llano_LV (clasificado consumo_df))
                                     (kwh_de valle_LV (clasificado consumo_df))
                                     (kwh_de valle_SD (clasificado consumo_df))
                                     (kwh_total_de (clasificado consumo_df)) kv kp)
                      tarifas_df)) ->
  tarifas_df <> [] ->
  (forall t, In t tarifas_df ->
     finito (Anual.coste_total_anual
               (fila_anual_de (kwh_de punta_LV (clasificado consumo_df))
                              (kwh_de llano_LV (clasificado consumo_df))
                              (kwh_de valle_LV (clasificado consumo_df))
                              (kwh_de valle_SD (clasificado consumo_df))
                              (kwh_total_de (clasificado consumo_df)) kv kp t))) ->
  exists filas,
    calcular_costes_anuales_por_tarifa sort_values consumo_df tarifas_df kv kp = Ok filas
    /\ length filas = length tarifas_df
    /\ StronglySorted
         (fun a b => (Anual.coste_total_anual (base_anual a)
                      <= Anual.coste_total_anual (base_anual b))%num)
         filas
    /\ exists primera resto,
        filas = primera :: resto
        /\ (cero <= ahorro_vs_peor_eur (kpis_anual primera))%num
        /\ Forall (fun r => (Anual.coste_total_anual (base_anual primera)
                             <= Anual.coste_total_anual (base_anual r))%num)
                  filas.
Proof.
  intros Hperm Hs Ht Hv.
  destruct (ranking_filas consumo_df kv kp Hperm Ht)
    as [filas [orden [E [P [Hbase HF]]]]].
  cbv zeta in Hbase, HF.
  remember (sort_values
              (map (fila_anual_de (kwh_de punta_LV (clasificado consumo_df))
                                  (kwh_de llano_LV (clasificado consumo_df))
                                  (kwh_de valle_LV (clasificado consumo_df))
                                  (kwh_de valle_SD (clasificado consumo_df))
                                  (kwh_total_de (clasificado consumo_df)) kv kp)
                   tarifas_df)) as res eqn:Eres.
  exists filas. split; [exact E|].
  assert (Hlen : length filas = length tarifas_df).
  { rewrite <- (Forall2_length HF). symmetry. now apply Permutation_length. }
  split; [exact Hlen|].
  assert (Hfin : forall r, In r filas
                           -> finito (Anual.coste_total_anual (base_anual r))).
  { intros r Hr. destruct (Forall2_In_derecha HF r Hr) as [t [Hin ->]].
    unfold base_anual, fila_ranking_de. simpl.
    apply Hv. eapply Permutation_in; [apply Permutation_sym; exact P | exact Hin]. }
  assert (Hval : forall r, In r filas
                           -> valido (Anual.coste_total_anual (base_anual r))).
  { intros r Hr. now apply finito_valido, Hfin. }
  assert (Hsorted : StronglySorted
                      (fun a b => (Anual.coste_total_anual (base_anual a)
                                   <= Anual.coste_total_anual (base_anual b))%num)
                      filas).
  { rewrite <- Hbase in Hs. unfold ascendente in Hs.
    apply StronglySorted_map_inv in Hs.
    clear E HF Hbase Hlen Hfin. induction Hs as [|r filas Hs IH Hall]; constructor.
    - apply IH. intros x Hx. apply Hval. now right.
    - apply Forall_forall. intros x Hx. rewrite Forall_forall in Hall.
      apply menor_false; [apply Hval; now right | apply Hval; now left | now apply Hall]. }
  split; [exact Hsorted|].
  destruct filas as [|primera resto].
  - destruct tarifas_df; [congruence | discriminate].
  - exists primera, resto. split; [reflexivity|]. split.
    + assert (Htot : forall c, In c (map (@Anual.coste_total_anual F) res)
                               -> finito c).
      { intros c Hc. rewrite <- Hbase, map_map in Hc. apply in_map_iff in Hc.
        destruct Hc as [r [<- Hr]]. now apply Hfin. }
      assert (Hvs : Forall valido (map (@Anual.coste_total_anual F) res)).
      { apply Forall_forall. intros c Hc. now apply finito_valido, Htot. }
      assert (Hne : map (@Anual.coste_total_anual F) res <> []).
      { rewrite <- Hbase. discriminate. }
      assert (Hin : In (Anual.coste_total_anual (base_anual primera))
                       (map (@Anual.coste_total_anual F) res)).
      { apply in_map. rewrite <- Hbase. now left. }
      pose proof (@serie_max_cota _ _ _ _ _ Hvs Hin) as Hcota.
      pose proof (Htot _ (@serie_max_In _ _ _ _ Hvs Hne)) as Hpeor.
      pose proof (Hfin primera (or_introl eq_refl)) as Hprim.
      inversion HF as [|t0 ? orden' ? Ep _]; subst orden.
      rewrite Ep in Hcota, Hprim |- *.
      unfold base_anual, kpis_anual, fila_ranking_de in Hcota, Hprim |- *.
      simpl in Hcota, Hprim |- *.
      now apply resta_no_negativa.
    + inversion Hsorted as [|? ? _ Hall]; subst.
      constructor; [|exact Hall].
      apply menor_o_igual_refl, Hval. now left.
Qed.

(** C4, as amended. In an ordered arithmetic (binary64, or the rationals),
    for a catalog that is not empty and annual totals that are all finite
    (every rational is), and whatever order the sort of the platform leaves
    rows of equal cost in ([mezcla]): the ranking has one row per tariff and
    is in non-decreasing order of total cost; its first row has savings
    against the worst tariff that are not negative and a total cost at most
    that of every row. Nothing is said of the order of the rows of equal
    cost. *)
Theorem ranking_anual_ordenado {F : Type} {AF : Arith F} {OF : Orden F}
  (mezcla : list (Anual.fila F) -> list (Anual.fila F))
  (consumo_df : list (Consumo F)) (tarifas_df : list (Tarifa.t F)) (kv kp : F) :
  permuta mezcla -> tarifas_df <> [] ->
  (forall t, In t tarifas_df ->
     finito (Anual.coste_total_anual
               (fila_anual_de (kwh_de punta_LV (clasificado consumo_df))
                              (kwh_de llano_LV (clasificado consumo_df))
                              (kwh_de valle_LV (clasificado consumo_df))
                              (kwh_de valle_SD (clasificado consumo_df))
                              (kwh_total_de (clasificado consumo_df)) kv kp t))) ->
  exists filas,
    calcular_costes_anuales_por_tarifa (sort_values_quicksort mezcla)
      consumo_df tarifas_df kv kp = Ok filas
    /\ length filas = length tarifas_df
    /\ StronglySorted
         (fun a b => (Anual.coste_total_anual (base_anual a)
                      <= Anual.coste_total_anual (base_anual b))%num)
         filas
    /\ exists primera resto,
        filas = primera :: resto
        /\ (cero <= ahorro_vs_peor_eur (kpis_anual primera))%num
        /\ Forall (fun r => (Anual.coste_total_anual (base_anual primera)
                             <= Anual.coste_total_anual (base_anual r))%num)
                  filas.
Proof.
  intros Hm Ht Hv.
  apply ranking_ordenado_si_asciende; [now apply sort_values_quicksort_permuta | | exact Ht | exact Hv].
  unfold sort_values_quicksort. apply sort_estable_ascendente.
  apply Forall_forall. intros r Hr.
  apply (Permutation_in _ (Permutation_sym (Hm _))) in Hr.
  apply in_map_iff in Hr. destruct Hr as [t [<- Hin]].
  apply finito_valido. now apply Hv.
Qed.

(** The theorem on two tariffs in binary64, the rows reversed before the
    sort: the tariff with power charges, first in the catalog, is last in
    the ranking. *)
Lemma ranking_anual_ordenado_ejemplo :
  exists filas : list (FilaRanking float),
    calcular_costes_anuales_por_tarifa (sort_values_quicksort (@rev (Anual.fila float)))
      consumo_escenario [tarifa_con_potencia; tarifa_escenario]
      potencia_kw_valle_main potencia_kw_punta_llano_main = Ok filas
    /\ length filas = length [tarifa_con_potencia; tarifa_escenario]
    /\ StronglySorted
         (fun a b => (Anual.coste_total_anual (base_anual a)
                      <= Anual.coste_total_anual (base_anual b))%num)
         filas
    /\ exists primera resto,
        filas = primera :: resto
        /\ (cero <= ahorro_vs_peor_eur (kpis_anual primera))%num
        /\ Forall (fun r => (Anual.coste_total_anual (base_anual primera)
                             <= Anual.coste_total_anual (base_anual r))%num)
                  filas.
Proof.
  assert (H1 : permuta (@rev (Anual.fila float))) by (intros l; apply Permutation_rev).
  assert (H2 : [tarifa_con_potencia; tarifa_escenario] <> []) by discriminate.
  apply (ranking_anual_ordenado (OF := orden_binary64) consumo_escenario
           potencia_kw_valle_main potencia_kw_punta_llano_main H1 H2).
  intros t [<-|[<-|[]]]; vm_compute; reflexivity.
Defined.

(** The stable sort keeps two tariffs of equal total cost in the order of
    the catalog, and puts after them the tariff whose total is missing,
    wherever the catalog has it. *)
Example sort_estable_empate_y_falta :
  exists f1 f2 f3 : FilaRanking float,
    calcular_costes_anuales_por_tarifa sort_estable consumo_escenario
      [tarifa_sin_precio; tarifa_con_potencia; tarifa_gemela]
      potencia_kw_valle_main potencia_kw_punta_llano_main = Ok [f1; f2; f3]
    /\ Anual.coste_total_anual (base_anual f1) = Anual.coste_total_anual (base_anual f2)
    /\ Anual.tarifa (base_anual f1) = Tarifa.tarifa tarifa_con_potencia
    /\ Anual.tarifa (base_anual f2) = Tarifa.tarifa tarifa_gemela
    /\ Anual.tarifa (base_anual f3) = Tarifa.tarifa tarifa_sin_precio.
Proof.
  do 3 eexists. split; [vm_compute; reflexivity|]. repeat split.
Qed.

(** C4 as stated fails when a total is not finite.  A tariff with a missing
    price has a total that is NaN: its row is last and the total of the
    first row is not at most it.  A tariff whose total overflows to infinity
    is its own worst reference: the savings against it are infinity minus
    infinity, NaN, which is not at least zero. *)
Lemma ranking_con_total_no_finito :
  (exists f1 f2 : FilaRanking float,
      calcular_costes_anuales_por_tarifa sort_estable consumo_escenario
        [tarifa_sin_precio; tarifa_escenario]
        potencia_kw_valle_main potencia_kw_punta_llano_main = Ok [f1; f2]
      /\ Anual.tarifa (base_anual f1) = Tarifa.tarifa tarifa_escenario
      /\ Anual.tarifa (base_anual f2) = Tarifa.tarifa tarifa_sin_precio
      /\ PrimFloat.is_nan (Anual.coste_total_anual (base_anual f2)) = true
      /\ PrimFloat.leb (Anual.coste_total_anual (base_anual f1))
                       (Anual.coste_total_anual (base_anual f2)) = false)
  /\ (exists f : FilaRanking float,
         calcular_costes_anuales_por_tarifa sort_estable consumo_escenario
           [tarifa_desbordada]
           potencia_kw_valle_main potencia_kw_punta_llano_main = Ok [f]
         /\ Anual.coste_total_anual (base_anual f) = PrimFloat.infinity
         /\ PrimFloat.is_nan (ahorro_vs_peor_eur (kpis_anual f)) = true
         /\ PrimFloat.leb 0%float (ahorro_vs_peor_eur (kpis_anual f)) = false).
Proof.
  split.
  - eexists. eexists. split; [vm_compute; reflexivity|]. repeat split.
  - eexists. split; [vm_compute; reflexivity|]. repeat split.
Qed.

(** ** Total kWh in exact arithmetic *)

(** Without rounding the compensation stays at zero: the grouped sum is
    the sum. *)
Lemma suma_compensada_paso_exacto (x : Qc) (s : list Qc) (a : Qc) :
  suma_compensada (x :: s) a (Qc_of_Z 0) = suma_compensada s (a + x)%Qc (Qc_of_Z 0).
Proof.
  cbn [suma_compensada].
  change (@isna Qc exact x) with false. cbv iota.
  change (@resta Qc exact) with Qcminus. change (@suma Qc exact) with Qcplus.
  change (@cero Qc exact) with (Qc_of_Z 0). change (Qc_of_Z 0) with 0%Qc.
  cbv zeta.
  change (@isna Qc exact (a + (x - 0) - a - (x - 0))%Qc) with false. cbv iota.
  replace (a + (x - 0) - a - (x - 0))%Qc with 0%Qc by ring.
  replace (a + (x - 0))%Qc with (a + x)%Qc by ring.
  reflexivity.
Qed.

Lemma suma_desde_exacto (s : list Qc) (a : Qc) :
  suma_compensada s a (Qc_of_Z 0)
  = (a + suma_compensada s (Qc_of_Z 0) (Qc_of_Z 0))%Qc.
Proof.
  revert a. induction s as [|x s IH]; intros a.
  - cbn [suma_compensada]. change (Qc_of_Z 0) with 0%Qc. ring.
  - rewrite !suma_compensada_paso_exacto.
    rewrite (IH (a + x)%Qc), (IH (Qc_of_Z 0 + x)%Qc).
    change (Qc_of_Z 0) with 0%Qc. ring.
Qed.

Lemma serie_sum_cons_exacto (x : Qc) (s : list Qc) :
  serie_sum (x :: s) = (x + serie_sum s)%Qc.
Proof.
  unfold serie_sum. change (@cero Qc exact) with (Qc_of_Z 0).
  rewrite suma_compensada_paso_exacto, suma_desde_exacto.
  change (Qc_of_Z 0) with 0%Qc. ring.
Qed.

(** Without rounding, the total of a window is the sum of the kWh of all
    its records. *)
Lemma kwh_total_exacto (ventana : list (Consumo Qc * Periodo)) :
  kwh_total_de ventana = serie_sum (map (fun r => kwh (fst r)) ventana).
Proof.
  unfold kwh_total_de. rewrite !kwh_de_suma.
  induction ventana as [|[c p] w IH]; [reflexivity|].
  change (map (fun r => kwh (fst r)) ((c, p) :: w))
    with (kwh c :: map (fun r : Consumo Qc * Periodo => kwh (fst r)) w).
  rewrite serie_sum_cons_exacto, <- IH.
  unfold del_periodo. simpl filter.
  destruct p; simpl Periodo_eqb; cbv iota;
    change (map (fun r => kwh (fst r)) ((c, ?p) :: ?l))
      with (kwh c :: map (fun r : Consumo Qc * Periodo => kwh (fst r)) l);
    simpl map; rewrite serie_sum_cons_exacto;
    change (@suma Qc exact) with Qcplus; ring.
Qed.

(** ** The kWh of a window and its records *)

Lemma kwh_del_periodo_clasificado {F : Type} (p : Periodo) (l : list (Consumo F)) :
  map (fun r => kwh (fst r)) (del_periodo p (clasificado l))
  = map (@kwh F) (registros_del_periodo p l).
Proof.
  unfold del_periodo, clasificado, registros_del_periodo.
  induction l as [|c l IH]; [reflexivity|].
  cbn [map filter fst snd].
  destruct (Periodo_eqb (regla_periodo (hour (timestamp c)) (es_fin_semana c)) p);
    cbn [map fst]; now rewrite IH.
Qed.

Lemma del_mes_clasificado {F : Type} (anio mes : N) (l : list (Consumo F)) :
  del_mes (anio, mes) (clasificado l) = clasificado (registros_del_mes anio mes l).
Proof.
  unfold del_mes, clasificado, registros_del_mes.
  induction l as [|c l IH]; [reflexivity|].
  cbn [map filter]. unfold clave at 1, clave_eqb at 1. cbn [fst snd].
  destruct ((year (timestamp c) =? anio) && (month (timestamp c) =? mes))%N;
    cbn [map]; now rewrite IH.
Qed.

(** Every record of a window carries one of the four labels, and only
    one. *)
Lemma registros_por_periodo {F : Type} (ventana : list (Consumo F)) :
  Permutation ventana
    (registros_del_periodo punta_LV ventana ++ registros_del_periodo llano_LV ventana
     ++ registros_del_periodo valle_LV ventana ++ registros_del_periodo valle_SD ventana).
Proof.
  unfold registros_del_periodo.
  induction ventana as [|c w IH]; [constructor|].
  cbn [filter].
  destruct (regla_periodo (hour (timestamp c)) (es_fin_semana c)); cbn [Periodo_eqb].
  - cbn [app]. now constructor.
  - now apply Permutation_cons_app.
  - rewrite app_assoc. rewrite app_assoc in IH. now apply Permutation_cons_app.
  - rewrite !app_assoc. rewrite !app_assoc in IH. now apply Permutation_cons_app.
Qed.

Lemma serie_sum_exacta (s : list Qc) : serie_sum s = suma_exacta s.
Proof.
  induction s as [|x s IH]; [reflexivity|].
  rewrite serie_sum_cons_exacto, IH. reflexivity.
Qed.

(** Without rounding, the sums of the four labels add up to the sum of all
    the records: each record carries one label and only one. *)
Lemma suma_por_periodos_exacto (l : list (Consumo Qc)) :
  (suma_exacta (map (@kwh Qc) (registros_del_periodo punta_LV l))
   + suma_exacta (map (@kwh Qc) (registros_del_periodo llano_LV l))
   + suma_exacta (map (@kwh Qc) (registros_del_periodo valle_LV l))
   + suma_exacta (map (@kwh Qc) (registros_del_periodo valle_SD l)))%Qc
  = suma_exacta (map (@kwh Qc) l).
Proof.
  unfold registros_del_periodo.
  induction l as [|c l IH]; [cbn; ring|].
  cbn [filter map suma_exacta]. rewrite <- IH.
  destruct (regla_periodo (hour (timestamp c)) (es_fin_semana c));
    cbn [Periodo_eqb map suma_exacta]; ring.
Qed.

(** C8. In both tables, in binary64 as in exact arithmetic, the kWh of the
    window of a row ([kwh_anuales], [kwh_mes]) is the sum of its four period
    columns, and each column is the grouped sum of the kWh of the records of
    the window (the whole frame, or the records of the month of the row) to
    which the priority rule gives that label; the four labels split the
    records of any window, none left out and none counted twice.  Without
    rounding the kWh of the window is the sum of the kWh of all its
    records. *)
Theorem kwh_por_periodo_suman_total :
  (forall (F : Type) (AF : Arith F) (OF : Orden F)
          (sort_values : list (Anual.fila F) -> list (Anual.fila F))
          (consumo_df : list (Consumo F)) (tarifas_df : list (Tarifa.t F)) (kv kp : F),
      permuta sort_values -> consumo_df <> [] -> tarifas_df <> [] ->
      let suma_de p (ventana : list (Consumo F)) :=
        serie_sum (map (@kwh F) (registros_del_periodo p ventana)) in
      (exists filas,
          calcular_costes_anuales_por_tarifa sort_values consumo_df tarifas_df kv kp
          = Ok filas
          /\ Forall (fun r =>
               Anual.kwh_anuales (base_anual r)
               = (kwh_punta_LV (dist_anual r) + kwh_llano_LV (dist_anual r)
                  + kwh_valle_LV (dist_anual r) + kwh_valle_SD (dist_anual r))%num
               /\ kwh_punta_LV (dist_anual r) = suma_de punta_LV consumo_df
               /\ kwh_llano_LV (dist_anual r) = suma_de llano_LV consumo_df
               /\ kwh_valle_LV (dist_anual r) = suma_de valle_LV consumo_df
               /\ kwh_valle_SD (dist_anual r) = suma_de valle_SD consumo_df)
             filas)
      /\ (exists filas,
             calcular_mejor_tarifa_por_mes consumo_df tarifas_df kv kp = Ok filas
             /\ Forall (fun r =>
                  let ventana :=
                    registros_del_mes (Mes.anio (base_mes r)) (Mes.mes (base_mes r))
                                      consumo_df in
                  Mes.kwh_mes (base_mes r)
                  = (kwh_punta_LV (dist_mes r) + kwh_llano_LV (dist_mes r)
                     + kwh_valle_LV (dist_mes r) + kwh_valle_SD (dist_mes r))%num
                  /\ kwh_punta_LV (dist_mes r) = suma_de punta_LV ventana
                  /\ kwh_llano_LV (dist_mes r) = suma_de llano_LV ventana
                  /\ kwh_valle_LV (dist_mes r) = suma_de valle_LV ventana
                  /\ kwh_valle_SD (dist_mes r) = suma_de valle_SD ventana)
                filas)
      /\ (forall ventana : list (Consumo F),
             Permutation ventana
               (registros_del_periodo punta_LV ventana
                ++ registros_del_periodo llano_LV ventana
                ++ registros_del_periodo valle_LV ventana
                ++ registros_del_periodo valle_SD ventana)))
  /\ (forall (sort_values : list (Anual.fila Qc) -> list (Anual.fila Qc))
             (consumo_df : list (Consumo Qc)) (tarifas_df : list (Tarifa.t Qc))
             (kv kp : Qc),
         permuta sort_values -> consumo_df <> [] -> tarifas_df <> [] ->
         (exists filas,
             calcular_costes_anuales_por_tarifa sort_values consumo_df tarifas_df kv kp
             = Ok filas
             /\ Forall (fun r =>
                  Anual.kwh_anuales (base_anual r)
                  = suma_exacta (map (@kwh Qc) consumo_df))
                filas)
         /\ (exists filas,
                calcular_mejor_tarifa_por_mes consumo_df tarifas_df kv kp = Ok filas
                /\ Forall (fun r =>
                     Mes.kwh_mes (base_mes r)
                     = suma_exacta
                         (map (@kwh Qc)
                              (registros_del_mes (Mes.anio (base_mes r))
                                                 (Mes.mes (base_mes r)) consumo_df)))
                   filas)).
Proof.
  assert (G : forall (F : Type) (AF : Arith F) (OF : Orden F)
          (sort_values : list (Anual.fila F) -> list (Anual.fila F))
          (consumo_df : list (Consumo F)) (tarifas_df : list (Tarifa.t F)) (kv kp : F),
      permuta sort_values -> consumo_df <> [] -> tarifas_df <> [] ->
      let suma_de p (ventana : list (Consumo F)) :=
        serie_sum (map (@kwh F) (registros_del_periodo p ventana)) in
      (exists filas,
          calcular_costes_anuales_por_tarifa sort_values consumo_df tarifas_df kv kp
          = Ok filas
          /\ Forall (fun r =>
               Anual.kwh_anuales (base_anual r)
               = (kwh_punta_LV (dist_anual r) + kwh_llano_LV (dist_anual r)
                  + kwh_valle_LV (dist_anual r) + kwh_valle_SD (dist_anual r))%num
               /\ kwh_punta_LV (dist_anual r) = suma_de punta_LV consumo_df
               /\ kwh_llano_LV (dist_anual r) = suma_de llano_LV consumo_df
               /\ kwh_valle_LV (dist_anual r) = suma_de valle_LV consumo_df
               /\ kwh_valle_SD (dist_anual r) = suma_de valle_SD consumo_df)
             filas)
      /\ (exists filas,
             calcular_mejor_tarifa_por_mes consumo_df tarifas_df kv kp = Ok filas
             /\ Forall (fun r =>
                  let ventana :=
                    registros_del_mes (Mes.anio (base_mes r)) (Mes.mes (base_mes r))
                                      consumo_df in
                  Mes.kwh_mes (base_mes r)
                  = (kwh_punta_LV (dist_mes r) + kwh_llano_LV (dist_mes r)
                     + kwh_valle_LV (dist_mes r) + kwh_valle_SD (dist_mes r))%num
                  /\ kwh_punta_LV (dist_mes r) = suma_de punta_LV ventana
                  /\ kwh_llano_LV (dist_mes r) = suma_de llano_LV ventana
                  /\ kwh_valle_LV (dist_mes r) = suma_de valle_LV ventana
                  /\ kwh_valle_SD (dist_mes r) = suma_de valle_SD ventana)
                filas)
      /\ (forall ventana : list (Consumo F),
             Permutation ventana
               (registros_del_periodo punta_LV ventana
                ++ registros_del_periodo llano_LV ventana
                ++ registros_del_periodo valle_LV ventana
                ++ registros_del_periodo valle_SD ventana))).
  { intros F AF OF sort_values consumo_df tarifas_df kv kp Hperm Hc Ht suma_de.
    destruct (kwh_por_periodo_columnas kv kp Hperm Hc Ht) as [Ha [Hm _]].
    cbv zeta in Ha, Hm. split; [|split; [|apply registros_por_periodo]].
    - destruct Ha as [filas [E HF]]. exists filas. split; [exact E|].
      eapply Forall_impl; [|exact HF].
      intros r [H0 [H1 [H2 [H3 H4]]]]. unfold suma_de.
      rewrite <- !kwh_del_periodo_clasificado. repeat split; assumption.
    - destruct Hm as [filas [E HF]]. exists filas. split; [exact E|].
      apply Forall_forall. intros r Hr.
      destruct (Forall2_In_derecha (Forall2_In_izquierda HF) r Hr)
        as [grupo [_ [Hin [Hk [H0 [H1 [H2 [H3 H4]]]]]]]].
      apply grupo_del_mes in Hin. rewrite <- Hk in Hin.
      rewrite del_mes_clasificado in Hin. rewrite Hin in H1, H2, H3, H4.
      cbv zeta. unfold suma_de.
      rewrite <- !kwh_del_periodo_clasificado. repeat split; assumption. }
  split; [exact G|].
  intros sort_values consumo_df tarifas_df kv kp Hperm Hc Ht.
  destruct (G Qc exact orden_exact sort_values consumo_df tarifas_df kv kp Hperm Hc Ht)
    as [[filas [E HF]] [[filas' [E' HF']] _]].
  cbv zeta in HF, HF'. split.
  - exists filas. split; [exact E|].
    eapply Forall_impl; [|exact HF].
    intros r [H0 [H1 [H2 [H3 H4]]]].
    rewrite H0, H1, H2, H3, H4, !serie_sum_exacta.
    apply suma_por_periodos_exacto.
  - exists filas'. split; [exact E'|].
    eapply Forall_impl; [|exact HF'].
    intros r [H0 [H1 [H2 [H3 H4]]]].
    rewrite H0, H1, H2, H3, H4, !serie_sum_exacta.
    apply suma_por_periodos_exacto.
Qed.

(** The theorem on seven records over two months, three of them at peak
    in March: in binary64 with two tariffs, and without rounding. *)
Lemma kwh_por_periodo_suman_total_ejemplo :
  (exists filas,
      calcular_mejor_tarifa_por_mes consumo_marzo_abril
        [tarifa_escenario; tarifa_con_potencia]
        potencia_kw_valle_main potencia_kw_punta_llano_main = Ok filas
      /\ Forall (fun r =>
           let ventana :=
             registros_del_mes (Mes.anio (base_mes r)) (Mes.mes (base_mes r))
                               consumo_marzo_abril in
           Mes.kwh_mes (base_mes r)
           = (kwh_punta_LV (dist_mes r) + kwh_llano_LV (dist_mes r)
              + kwh_valle_LV (dist_mes r) + kwh_valle_SD (dist_mes r))%float
           /\ kwh_punta_LV (dist_mes r)
              = serie_sum (map (@kwh float) (registros_del_periodo punta_LV ventana))
           /\ kwh_llano_LV (dist_mes r)
              = serie_sum (map (@kwh float) (registros_del_periodo llano_LV ventana))
           /\ kwh_valle_LV (dist_mes r)
              = serie_sum (map (@kwh float) (registros_del_periodo valle_LV ventana))
           /\ kwh_valle_SD (dist_mes r)
              = serie_sum (map (@kwh float) (registros_del_periodo valle_SD ventana)))
         filas)
  /\ (exists filas,
         calcular_costes_anuales_por_tarifa sort_estable consumo_marzo_abril_exacto
           [tarifa_exacta_1; tarifa_exacta_2]
           potencia_kw_valle_exacta potencia_kw_punta_llano_exacta = Ok filas
         /\ Forall (fun r =>
              Anual.kwh_anuales (base_anual r)
              = suma_exacta (map (@kwh Qc) consumo_marzo_abril_exacto))
            filas).
Proof.
  split.
  - assert (H1 : consumo_marzo_abril <> []) by discriminate.
    assert (H2 : [tarifa_escenario; tarifa_con_potencia] <> []) by discriminate.
    exact (proj1 (proj2 (proj1 kwh_por_periodo_suman_total float binary64 orden_binary64
                           sort_estable consumo_marzo_abril
                           [tarifa_escenario; tarifa_con_potencia]
                           potencia_kw_valle_main potencia_kw_punta_llano_main
                           sort_estable_permuta H1 H2))).
  - assert (H1 : consumo_marzo_abril_exacto <> []) by discriminate.
    assert (H2 : [tarifa_exacta_1; tarifa_exacta_2] <> []) by discriminate.
    exact (proj1 (proj2 kwh_por_periodo_suman_total sort_estable
                    consumo_marzo_abril_exacto [tarifa_exacta_1; tarifa_exacta_2]
                    potencia_kw_valle_exacta potencia_kw_punta_llano_exacta
                    sort_estable_permuta H1 H2)).
Defined.

(** The grouped sum on the three records at peak of March: 0.1, 0.2 and 0.3
    kWh give 0.6, where adding them one after the other gives
    0.6000000000000001. *)
Example suma_de_punta_de_marzo :
  serie_sum (map (@kwh float)
               (registros_del_periodo punta_LV (registros_del_mes 2025 3 consumo_marzo_abril)))
  = 0.6%float
  /\ PrimFloat.eqb (0.1 + 0.2 + 0.3)%float 0.6%float = false.
Proof. split; reflexivity. Qed.

(** ** The theorems on the scenario in binary64 *)

Lemma coste_por_ventana_escenario :
  permuta (@sort_estable float binary64)
  /\ consumo_escenario <> []
  /\ [tarifa_escenario; tarifa_con_potencia] <> []
  /\ let df := clasificado consumo_escenario in
     let kv := potencia_kw_valle_main in
     let kp := potencia_kw_punta_llano_main in
     exists filas orden,
       calcular_costes_anuales_por_tarifa sort_estable consumo_escenario
         [tarifa_escenario; tarifa_con_potencia] kv kp = Ok filas
       /\ Permutation [tarifa_escenario; tarifa_con_potencia] orden
       /\ Forall2 (fun t r =>
            Anual.comercializadora (base_anual r) = Tarifa.comercializadora t
            /\ Anual.tarifa (base_anual r) = Tarifa.tarifa t
            /\ Anual.coste_energia_anual (base_anual r)
            = (kwh_de punta_LV df * Tarifa.punta_LV t
               + kwh_de llano_LV df * Tarifa.llano_LV t
               + kwh_de valle_LV df * Tarifa.valle_LV t
               + kwh_de valle_SD df * Tarifa.valle_SD t)%num
            /\ Anual.coste_potencia_anual (base_anual r)
               = (Tarifa.potencia_mes_valle t * kv * doce
                  + Tarifa.potencia_mes_punta_llano t * kp * doce)%num
            /\ Anual.coste_total_anual (base_anual r)
               = (Anual.coste_energia_anual (base_anual r)
                  + Anual.coste_potencia_anual (base_anual r))%num)
          orden filas.
Proof.
  assert (H1 : consumo_escenario <> []) by discriminate.
  assert (H2 : [tarifa_escenario; tarifa_con_potencia] <> []) by discriminate.
  split; [apply sort_estable_permuta|]. split; [exact H1|]. split; [exact H2|].
  exact (proj1 (coste_por_ventana (OF := orden_binary64) potencia_kw_valle_main
                  potencia_kw_punta_llano_main sort_estable_permuta H1 H2)).
Defined.


(** * Further properties of the engine *)

(** ** When the pipelines fail *)

Section Fallos.

Context {F : Type} {AF : Arith F} {OF : Orden F}.
Local Open Scope num_scope.

(** X1. The annual pipeline fails in one case only: on an empty catalog it
    raises [KeyError] (there is no column to sort by), whatever the data; on
    any other catalog it returns its table, even for a frame of no records. *)
Theorem ranking_anual_falla_solo_sin_tarifas
  (sort_values : list (Anual.fila F) -> list (Anual.fila F))
  (consumo_df : list (Consumo F)) (tarifas_df : list (Tarifa.t F)) (kv kp : F) :
  match tarifas_df with
  | [] =>
      calcular_costes_anuales_por_tarifa sort_values consumo_df tarifas_df kv kp
      = Raise KeyError
  | _ :: _ =>
      exists filas,
        calcular_costes_anuales_por_tarifa sort_values consumo_df tarifas_df kv kp
        = Ok filas
        /\ map base_anual filas
           = sort_values (map (fila_anual_del_consumo consumo_df kv kp) tarifas_df)
  end.
Proof.
  destruct tarifas_df as [|t ts] eqn:Et.
  - apply ranking_sin_tarifas.
  - assert (Hne : t :: ts <> []) by discriminate.
    pose proof (ranking_desplegado sort_values consumo_df kv kp Hne) as E.
    cbv zeta in E. eexists. split; [exact E|].
    apply base_anual_decorada.
Qed.

(** X2. The monthly pipeline fails in two cases only: a frame of no records
    raises [KeyError] (no row to sort), whatever the catalog; records with an
    empty catalog raise [TypeError] ([mejor] is still [None] when it is read);
    records and a catalog that are not empty give a table that is not
    empty. *)
Theorem mejor_mensual_falla_solo_sin_datos
  (consumo_df : list (Consumo F)) (tarifas_df : list (Tarifa.t F)) (kv kp : F) :
  match consumo_df, tarifas_df with
  | [], _ => calcular_mejor_tarifa_por_mes consumo_df tarifas_df kv kp = Raise KeyError
  | _ :: _, [] =>
      calcular_mejor_tarifa_por_mes consumo_df tarifas_df kv kp = Raise TypeError
  | _ :: _, _ :: _ =>
      exists fila filas,
        calcular_mejor_tarifa_por_mes consumo_df tarifas_df kv kp = Ok (fila :: filas)
  end.
Proof.
  destruct consumo_df as [|c cs] eqn:Ec.
  - apply mensual_sin_consumo.
  - assert (Hc : c :: cs <> []) by discriminate.
    destruct tarifas_df as [|t ts] eqn:Et.
    + now apply mensual_sin_tarifas.
    + assert (Ht : t :: ts <> []) by discriminate.
      destruct (mensual_desplegado kv kp Hc Ht) as [resultados [HF E]].
      rewrite E.
      destruct resultados as [|x xs].
      * inversion HF as [E0|]. symmetry in E0.
        apply groupby_anio_mes_no_vacio in E0; [contradiction|].
        unfold clasificado. discriminate.
      * simpl. eauto.
Qed.

End Fallos.

(** ** The rows of the ranking and their references *)

Section Referencias.

Context {F : Type} {AF : Arith F} {OF : Orden F}.
Local Open Scope num_scope.

(** The rows of the ranking in terms of the catalog: each is the decorated
    loop row of one tariff, and the tariffs so used are the catalog,
    permuted. *)
Lemma ranking_del_catalogo (sort_values : list (Anual.fila F) -> list (Anual.fila F))
  (consumo_df : list (Consumo F)) (tarifas_df : list (Tarifa.t F)) (kv kp : F) :
  permuta sort_values -> tarifas_df <> [] ->
  let costes :=
    map (@Anual.coste_total_anual F)
        (sort_values (map (fila_anual_del_consumo consumo_df kv kp) tarifas_df)) in
  exists filas orden d,
    calcular_costes_anuales_por_tarifa sort_values consumo_df tarifas_df kv kp = Ok filas
    /\ Permutation tarifas_df orden
    /\ filas = map (fun t => fila_ranking_de (serie_median costes) (serie_max costes) d
                               (fila_anual_del_consumo consumo_df kv kp t))
                   orden
    /\ Permutation costes
         (map (fun t => Anual.coste_total_anual
                          (fila_anual_del_consumo consumo_df kv kp t))
              tarifas_df).
Proof.
  intros Hperm Hne costes.
  destruct (ranking_filas consumo_df kv kp Hperm Hne) as [filas [orden [E [P [Hbase HF]]]]].
  cbv zeta in Hbase, HF.
  exists filas, orden,
    (distribucion_de (kwh_de punta_LV (clasificado consumo_df))
                     (kwh_de llano_LV (clasificado consumo_df))
                     (kwh_de valle_LV (clasificado consumo_df))
                     (kwh_de valle_SD (clasificado consumo_df))
                     (kwh_total_de (clasificado consumo_df))).
  split; [exact E|]. split; [exact P|]. split.
  - pose proof (@Forall2_map_eq _ _ _ _ (fun r : FilaRanking F => r) _ _ HF) as M.
    rewrite map_id in M. exact M.
  - unfold costes.
    rewrite <- (map_map (fila_anual_del_consumo consumo_df kv kp)
                        (@Anual.coste_total_anual F)).
    apply Permutation_map.
    apply Permutation_sym, Hperm.
Qed.

(** X3. The ranking lists every tariff of the catalog once: the pairs
    (comercializadora, tarifa) of its rows are those of the catalog,
    permuted. *)
Theorem ranking_lista_cada_tarifa
  (sort_values : list (Anual.fila F) -> list (Anual.fila F))
  (consumo_df : list (Consumo F)) (tarifas_df : list (Tarifa.t F)) (kv kp : F) :
  permuta sort_values -> tarifas_df <> [] ->
  exists filas,
    calcular_costes_anuales_por_tarifa sort_values consumo_df tarifas_df kv kp = Ok filas
    /\ Permutation (map (@nombre_tarifa F) tarifas_df)
                   (map (fun r => nombre_fila_anual (base_anual r)) filas).
Proof.
  intros Hperm Hne.
  destruct (ranking_del_catalogo consumo_df kv kp Hperm Hne)
    as [filas [orden [d [E [P [-> _]]]]]].
  eexists. split; [exact E|].
  rewrite map_map. simpl.
  apply (Permutation_map (@nombre_tarifa F)) in P. exact P.
Qed.

(** The totals of the sorted rows are the totals of the catalog. *)
Lemma costes_del_catalogo (sort_values : list (Anual.fila F) -> list (Anual.fila F))
  (consumo_df : list (Consumo F)) (tarifas_df : list (Tarifa.t F)) (kv kp c : F) :
  permuta sort_values ->
  In c (map (@Anual.coste_total_anual F)
            (sort_values (map (fila_anual_del_consumo consumo_df kv kp) tarifas_df)))
  <-> exists t, In t tarifas_df
                /\ c = Anual.coste_total_anual (fila_anual_del_consumo consumo_df kv kp t).
Proof.
  intros Hperm. rewrite in_map_iff. split.
  - intros [r [<- Hr]].
    apply (Permutation_in _ (Permutation_sym (Hperm _))) in Hr.
    apply in_map_iff in Hr. destruct Hr as [t [<- Ht]]. now exists t.
  - intros [t [Ht ->]]. eexists. split; [reflexivity|].
    apply (Permutation_in _ (Hperm _)). now apply in_map.
Qed.

(** X4. The worst-cost reference of the ranking is the largest total of the
    table: one row has it as its total, no row has a larger one, and the
    savings against it are [peor - total], which is never negative. *)
Theorem referencia_peor_es_el_maximo
  (sort_values : list (Anual.fila F) -> list (Anual.fila F))
  (consumo_df : list (Consumo F)) (tarifas_df : list (Tarifa.t F)) (kv kp : F) :
  permuta sort_values -> tarifas_df <> [] ->
  (forall t, In t tarifas_df ->
     finito (Anual.coste_total_anual (fila_anual_del_consumo consumo_df kv kp t))) ->
  exists filas peor,
    calcular_costes_anuales_por_tarifa sort_values consumo_df tarifas_df kv kp = Ok filas
    /\ Exists (fun r => Anual.coste_total_anual (base_anual r) = peor) filas
    /\ Forall (fun r =>
                 ref_peor_coste_total (kpis_anual r) = peor
                 /\ Anual.coste_total_anual (base_anual r) <= peor
                 /\ ahorro_vs_peor_eur (kpis_anual r)
                    = peor - Anual.coste_total_anual (base_anual r)
                 /\ cero <= ahorro_vs_peor_eur (kpis_anual r))
              filas.
Proof.
  intros Hperm Hne Hfin.
  destruct (ranking_del_catalogo consumo_df kv kp Hperm Hne)
    as [filas [orden [d [E [P [-> Pc]]]]]].
  set (costes := map (@Anual.coste_total_anual F)
                     (sort_values (map (fila_anual_del_consumo consumo_df kv kp)
                                       tarifas_df))) in *.
  assert (Hcf : forall c, In c costes -> finito c).
  { intros c Hc. apply (costes_del_catalogo _ _ _ _ _ Hperm) in Hc.
    destruct Hc as [t [Ht ->]]. now apply Hfin. }
  assert (Hvs : Forall valido costes).
  { apply Forall_forall. intros c Hc. now apply finito_valido, Hcf. }
  assert (Hcne : costes <> []).
  { intros E0. apply Permutation_length in Pc. rewrite E0, length_map in Pc.
    destruct tarifas_df; [congruence | discriminate]. }
  pose proof (@serie_max_In _ _ _ _ Hvs Hcne) as Hmax.
  eexists. exists (serie_max costes). split; [exact E|]. split.
  - apply (costes_del_catalogo _ _ _ _ _ Hperm) in Hmax.
    destruct Hmax as [t [Ht Et]].
    apply Exists_exists. eexists. split.
    + apply in_map. eapply Permutation_in; [exact P | exact Ht].
    + unfold base_anual, fila_ranking_de. simpl. now symmetry.
  - apply Forall_forall. intros r Hr. apply in_map_iff in Hr.
    destruct Hr as [t [<- Ht]].
    apply (Permutation_in _ (Permutation_sym P)) in Ht.
    unfold base_anual, kpis_anual, fila_ranking_de. simpl.
    assert (Hin : In (Anual.coste_total_anual (fila_anual_del_consumo consumo_df kv kp t))
                     costes).
    { apply (costes_del_catalogo _ _ _ _ _ Hperm). now exists t. }
    pose proof (@serie_max_cota _ _ _ _ _ Hvs Hin) as Hle.
    split; [reflexivity|]. split; [exact Hle|]. split; [reflexivity|].
    apply resta_no_negativa; [now apply Hfin | now apply Hcf | exact Hle].
Qed.

End Referencias.

(** ** The savings of the monthly winner *)

Section AhorroMensual.

Context {F : Type} {AF : Arith F} {OF : Orden F}.
Local Open Scope num_scope.

(** X5. In every row of the monthly table the worst-cost reference is at
    least the total of every tariff for that month, and the savings of the
    winner against it are never negative. *)
Theorem ahorro_mensual_vs_peor_no_negativo
  (consumo_df : list (Consumo F)) (tarifas_df : list (Tarifa.t F)) (kv kp : F) :
  consumo_df <> [] -> tarifas_df <> [] ->
  (forall grupo t,
      In grupo (groupby_anio_mes (clasificado consumo_df)) -> In t tarifas_df ->
      finito (total_del_grupo (snd grupo) kv kp t)) ->
  exists filas,
    calcular_mejor_tarifa_por_mes consumo_df tarifas_df kv kp = Ok filas
    /\ Forall2 (fun grupo r =>
         (forall t, In t tarifas_df ->
            total_del_grupo (snd grupo) kv kp t <= ref_peor_coste_total (kpis_mes r))
         /\ ahorro_vs_peor_eur (kpis_mes r)
            = ref_peor_coste_total (kpis_mes r) - Mes.coste_total_mes (base_mes r)
         /\ cero <= ahorro_vs_peor_eur (kpis_mes r))
       (groupby_anio_mes (clasificado consumo_df)) filas.
Proof.
  intros Hc Ht Hfin.
  destruct (mensual_desplegado kv kp Hc Ht) as [resultados [HF E]].
  eexists. split; [exact E|].
  apply Forall2_map_derecha. apply Forall2_In_izquierda in HF.
  eapply Forall2_impl; [|exact HF].
  intros [k g] x [Hin Ex]. simpl snd.
  destruct (mejor_del_grupo_fila kv kp k g Ht) as [t [Hint Et]].
  cbv zeta in Et. rewrite Et in Ex. injection Ex as <-.
  unfold kpis_mes, base_mes, fila_mejor_de. simpl.
  fold (total_del_grupo g kv kp).
  set (costes := map (total_del_grupo g kv kp) tarifas_df).
  assert (Hcf : forall c, In c costes -> finito c).
  { intros c Hc'. apply in_map_iff in Hc'. destruct Hc' as [t' [<- Ht']].
    exact (Hfin (k, g) t' Hin Ht'). }
  assert (Hvs : Forall valido costes).
  { apply Forall_forall. intros c Hc'. now apply finito_valido, Hcf. }
  assert (Hcne : costes <> []).
  { unfold costes. destruct tarifas_df; [congruence | discriminate]. }
  assert (Hcota : forall t', In t' tarifas_df
                             -> total_del_grupo g kv kp t' <= serie_max costes).
  { intros t' Ht'. apply serie_max_cota; [exact Hvs|]. now apply in_map. }
  split; [exact Hcota|]. split; [reflexivity|].
  apply resta_no_negativa.
  - exact (Hfin (k, g) t Hin Hint).
  - apply Hcf. now apply serie_max_In.
  - now apply Hcota.
Qed.

End AhorroMensual.

(** ** The median reference *)

Section Mediana.

Context {F : Type} {AF : Arith F}.
Local Open Scope num_scope.

Lemma insertar_permuta (x : F) (l : list F) : Permutation (x :: l) (insertar x l).
Proof.
  induction l as [|y l IH]; simpl; [reflexivity|].
  destruct (x <? y); [reflexivity|].
  eapply Permutation_trans; [apply perm_swap|]. now constructor.
Qed.

Lemma ordenar_permuta (l : list F) : Permutation l (ordenar l).
Proof.
  induction l as [|x l IH]; simpl; [constructor|].
  eapply Permutation_trans; [|apply insertar_permuta]. now constructor.
Qed.

End Mediana.

Lemma media_entre (a b x y : Qc) :
  (a <= x)%Qc -> (x <= b)%Qc -> (a <= y)%Qc -> (y <= b)%Qc ->
  (a <= (x + y) / Qc_of_Z 2)%Qc /\ ((x + y) / Qc_of_Z 2 <= b)%Qc.
Proof.
  intros Hax Hxb Hay Hyb.
  assert (E2 : Qc_of_Z 2 = (1 + 1)%Qc) by (apply Qc_is_canon; reflexivity).
  rewrite E2.
  assert (H2 : (0 <= / (1 + 1))%Qc) by (vm_compute; discriminate).
  assert (Ea : a = ((a + a) / (1 + 1))%Qc) by (field; discriminate).
  assert (Eb : b = ((b + b) / (1 + 1))%Qc) by (field; discriminate).
  split.
  - rewrite Ea at 1. unfold Qcdiv. apply Qcmult_le_compat_r; [|exact H2].
    now apply Qcplus_le_compat.
  - rewrite Eb at 1. unfold Qcdiv. apply Qcmult_le_compat_r; [|exact H2].
    now apply Qcplus_le_compat.
Qed.

(** Without rounding, [Series.median()] lies between any two bounds of the
    cells. *)
Lemma serie_median_entre (s : list Qc) (a b : Qc) :
  s <> [] -> (forall x, In x s -> (a <= x)%Qc /\ (x <= b)%Qc) ->
  (a <= serie_median s)%Qc /\ (serie_median s <= b)%Qc.
Proof.
  intros Hne Hs. unfold serie_median. rewrite no_na_exacto.
  pose proof (ordenar_permuta s) as P.
  assert (Hv : forall i, (i < length (ordenar s))%nat
                         -> (a <= nth i (ordenar s) nan)%Qc
                            /\ (nth i (ordenar s) nan <= b)%Qc).
  { intros i Hi. apply Hs. apply (Permutation_in _ (Permutation_sym P)).
    now apply nth_In. }
  assert (Hlen : length (ordenar s) <> 0%nat).
  { rewrite <- (Permutation_length P). destruct s; [congruence | discriminate]. }
  destruct (length (ordenar s)) as [|n] eqn:En; [congruence|].
  assert (Hd : (Nat.div2 (S n) < S n)%nat) by (apply Nat.lt_div2; lia).
  destruct (Nat.even (S n)).
  - destruct (Hv (Nat.div2 (S n) - 1)%nat) as [H1 H2]; [lia|].
    destruct (Hv (Nat.div2 (S n))) as [H3 H4]; [exact Hd|].
    now apply media_entre.
  - now apply Hv.
Qed.

(** X6. Without rounding, the winner of a month never costs more than the
    median of the month: in every row of the monthly table the total is at
    most the median reference, the median reference at most the worst one,
    and the savings against the median are not negative. *)
Theorem ahorro_mensual_vs_mediana_no_negativo
  (consumo_df : list (Consumo Qc)) (tarifas_df : list (Tarifa.t Qc)) (kv kp : Qc) :
  consumo_df <> [] -> tarifas_df <> [] ->
  exists filas,
    calcular_mejor_tarifa_por_mes consumo_df tarifas_df kv kp = Ok filas
    /\ Forall (fun r =>
         (Mes.coste_total_mes (base_mes r) <= ref_mediana_coste_total (kpis_mes r))%Qc
         /\ (ref_mediana_coste_total (kpis_mes r) <= ref_peor_coste_total (kpis_mes r))%Qc
         /\ (Qc_of_Z 0 <= ahorro_vs_mediana_eur (kpis_mes r))%Qc)
       filas.
Proof.
  intros Hc Ht.
  destruct (mensual_desplegado kv kp Hc Ht) as [resultados [HF E]].
  eexists. split; [exact E|].
  apply Forall_forall. intros r Hr. apply in_map_iff in Hr.
  destruct Hr as [x [<- Hx]].
  destruct (Forall2_In_derecha HF x Hx) as [[k g] [_ Ex]].
  rewrite mejor_del_grupo_eq in Ex. cbv zeta in Ex.
  destruct (bucle_desde_vacio (OF := orden_exact) (fst k) (snd k)
              (kwh_de punta_LV g) (kwh_de llano_LV g)
              (kwh_de valle_LV g) (kwh_de valle_SD g) (kwh_total_de g) kv kp Ht)
    as [m [Em [i [t [Hi [-> [Hmin _]]]]]]].
  { intros t' _. exact I. }
  rewrite Em in Ex. injection Ex as <-.
  unfold kpis_mes, base_mes, fila_mejor_de. simpl.
  fold (total_del_grupo g kv kp) in *.
  set (costes := map (total_del_grupo g kv kp) tarifas_df).
  assert (Hcne : costes <> []).
  { unfold costes. destruct tarifas_df; [congruence | discriminate]. }
  assert (Hvs : Forall (valido (F := Qc)) costes).
  { apply Forall_forall. intros c _. exact I. }
  destruct (@serie_median_entre costes (total_del_grupo g kv kp t) (serie_max costes) Hcne)
    as [H1 H2].
  { intros c Hc'. split.
    - apply in_map_iff in Hc'. destruct Hc' as [t' [<- Ht']]. now apply Hmin.
    - exact (@serie_max_cota Qc exact orden_exact costes c Hvs Hc'). }
  split; [exact H1|]. split; [exact H2|].
  exact (proj1 (Qcle_minus_iff _ _) H1).
Qed.

Lemma ordenada_ultimo {A : Type} (R : A -> A -> Prop) (l : list A) (d y : A) :
  StronglySorted R l -> In y l -> y = last l d \/ R y (last l d).
Proof.
  induction 1 as [|x l Hs IH Hall]; intros Hy; [destruct Hy|].
  destruct l as [|x' l'].
  - destruct Hy as [<-|[]]. now left.
  - change (last (x :: x' :: l') d) with (last (x' :: l') d).
    destruct Hy as [<-|Hy]; [|now apply IH].
    right. rewrite Forall_forall in Hall. apply Hall.
    destruct (@exists_last _ (x' :: l')) as [l0 [z E]]; [discriminate|].
    rewrite E, last_last. apply in_or_app. right. now left.
Qed.

Lemma resta_no_positiva_exacto (x p : Qc) : (p <= x)%Qc -> (p - x <= Qc_of_Z 0)%Qc.
Proof.
  intros H. change (Qc_of_Z 0) with 0%Qc. apply (proj2 (Qcle_minus_iff (p - x) 0)).
  replace (0 + - (p - x))%Qc with (x + - p)%Qc by ring.
  exact (proj1 (Qcle_minus_iff p x) H).
Qed.

(** X7. Without rounding, with a [sort_values] that meets its contract, the
    median reference of the ranking is the same in every row and lies between
    the total of the first row and the total of the last one: the savings
    against the median are not negative in the first row and not positive in
    the last. *)
Theorem mediana_entre_primera_y_ultima
  (sort_values : list (Anual.fila Qc) -> list (Anual.fila Qc))
  (consumo_df : list (Consumo Qc)) (tarifas_df : list (Tarifa.t Qc)) (kv kp : Qc) :
  contrato_sort_values sort_values -> tarifas_df <> [] ->
  exists primera resto mediana,
    calcular_costes_anuales_por_tarifa sort_values consumo_df tarifas_df kv kp
    = Ok (primera :: resto)
    /\ Forall (fun r => ref_mediana_coste_total (kpis_anual r) = mediana)
              (primera :: resto)
    /\ (Anual.coste_total_anual (base_anual primera) <= mediana)%Qc
    /\ (mediana <= Anual.coste_total_anual (base_anual (last resto primera)))%Qc
    /\ (Qc_of_Z 0 <= ahorro_vs_mediana_eur (kpis_anual primera))%Qc
    /\ (ahorro_vs_mediana_eur (kpis_anual (last resto primera)) <= Qc_of_Z 0)%Qc.
Proof.
  intros [Hperm Hasc] Ht.
  destruct (ranking_filas (OF := orden_exact) consumo_df kv kp Hperm Ht)
    as [filas [orden [E [P [Hbase HF]]]]].
  cbv zeta in Hbase, HF.
  pose proof (Hasc (map (fila_anual_de (kwh_de punta_LV (clasificado consumo_df))
                                       (kwh_de llano_LV (clasificado consumo_df))
                                       (kwh_de valle_LV (clasificado consumo_df))
                                       (kwh_de valle_SD (clasificado consumo_df))
                                       (kwh_total_de (clasificado consumo_df)) kv kp)
                        tarifas_df)) as Hs.
  remember (sort_values
              (map (fila_anual_de (kwh_de punta_LV (clasificado consumo_df))
                                  (kwh_de llano_LV (clasificado consumo_df))
                                  (kwh_de valle_LV (clasificado consumo_df))
                                  (kwh_de valle_SD (clasificado consumo_df))
                                  (kwh_total_de (clasificado consumo_df)) kv kp)
                   tarifas_df)) as res eqn:Eres.
  remember (serie_median (map (@Anual.coste_total_anual Qc) res)) as mediana eqn:Emed.
  remember (serie_max (map (@Anual.coste_total_anual Qc) res)) as peor eqn:Epeor.
  assert (Hrow : forall r, In r filas ->
                   ref_mediana_coste_total (kpis_anual r) = mediana
                   /\ ahorro_vs_mediana_eur (kpis_anual r)
                      = (mediana - Anual.coste_total_anual (base_anual r))%Qc).
  { intros r Hr. destruct (Forall2_In_derecha HF r Hr) as [t [_ ->]].
    split; reflexivity. }
  assert (Hsorted : StronglySorted
                      (fun a b => le_total (base_anual a) (base_anual b)) filas).
  { apply StronglySorted_map_inv. rewrite Hbase. now apply ascendente_le_total. }
  destruct filas as [|primera resto].
  { apply Forall2_length in HF. apply Permutation_length in P.
    destruct tarifas_df; [congruence|]. destruct orden; simpl in *; discriminate. }
  assert (Hult : In (last resto primera) (primera :: resto)).
  { destruct resto as [|r0 rs]; [now left|]. right.
    destruct (@exists_last _ (r0 :: rs)) as [l0 [z Ez]]; [discriminate|].
    rewrite Ez, last_last. apply in_or_app. right. now left. }
  assert (Hentre : (Anual.coste_total_anual (base_anual primera) <= mediana)%Qc
                   /\ (mediana
                       <= Anual.coste_total_anual (base_anual (last resto primera)))%Qc).
  { rewrite Emed. apply serie_median_entre.
    - rewrite <- Hbase. discriminate.
    - intros c Hc. rewrite <- Hbase, map_map in Hc. apply in_map_iff in Hc.
      destruct Hc as [r [<- Hr]]. split.
      + inversion Hsorted as [|? ? _ Hall]; subst.
        destruct Hr as [<-|Hr]; [apply Qcle_refl|].
        rewrite Forall_forall in Hall. now apply Hall.
      + destruct (ordenada_ultimo primera r Hsorted Hr) as [Eu|Hu].
        * change (last (primera :: resto) primera) with
            (last (primera :: resto) primera) in Eu.
          assert (El : last (primera :: resto) primera = last resto primera).
          { destruct resto; reflexivity. }
          rewrite El in Eu. rewrite <- Eu. apply Qcle_refl.
        * assert (El : last (primera :: resto) primera = last resto primera).
          { destruct resto; reflexivity. }
          rewrite El in Hu. exact Hu. }
  destruct Hentre as [H1 H2].
  exists primera, resto, mediana. split; [exact E|]. split.
  - apply Forall_forall. intros r Hr. now apply Hrow.
  - split; [exact H1|]. split; [exact H2|]. split.
    + rewrite (proj2 (Hrow primera (or_introl eq_refl))).
      exact (proj1 (Qcle_minus_iff _ _) H1).
    + rewrite (proj2 (Hrow _ Hult)). now apply resta_no_positiva_exacto.
Qed.

(** ** The distribution of the consumption *)

Lemma pct_kwh_suman_cien_exacto (a b c d : Qc) :
  (a + b + c + d)%Qc <> Qc_of_Z 0 ->
  (porcentaje a (a + b + c + d)%Qc + porcentaje b (a + b + c + d)%Qc
   + porcentaje c (a + b + c + d)%Qc + porcentaje d (a + b + c + d)%Qc)%Qc
  = Qc_of_Z 100.
Proof.
  intros Hne. rewrite !porcentaje_exacto by exact Hne. field. exact Hne.
Qed.

Section DistribucionMensual.

Context {F : Type} {AF : Arith F}.

(** The winner of a group and the distribution recomputed for its row are
    taken from the same records. *)
Lemma fila_mejor_del_grupo (consumo_df : list (Consumo F)) (tarifas_df : list (Tarifa.t F))
  (kv kp : F) (grupo : (N * N) * list (Consumo F * Periodo))
  (x : Mes.fila F * KpisAhorro F) :
  tarifas_df <> [] ->
  In grupo (groupby_anio_mes (clasificado consumo_df)) ->
  mejor_del_grupo tarifas_df kv kp grupo = Ok x ->
  Mes.kwh_mes (fst x) = kwh_total_de (snd grupo)
  /\ dist_mes (fila_mejor_de (clasificado consumo_df) x)
     = distribucion_de (kwh_de punta_LV (snd grupo)) (kwh_de llano_LV (snd grupo))
                       (kwh_de valle_LV (snd grupo)) (kwh_de valle_SD (snd grupo))
                       (kwh_total_de (snd grupo)).
Proof.
  intros Ht Hin Ex.
  pose proof (mejor_del_grupo_clave _ _ _ _ Ex) as Hk.
  pose proof (grupo_del_mes _ _ Hin) as Hg.
  destruct grupo as [k g]. cbn [fst snd] in Hk, Hg |- *.
  destruct (mejor_del_grupo_fila kv kp k g Ht) as [t [_ Et]].
  cbv zeta in Et. rewrite Et in Ex. injection Ex as <-.
  split; [reflexivity|].
  unfold dist_mes, fila_mejor_de. cbn [snd].
  rewrite Hk, <- Hg. reflexivity.
Qed.

End DistribucionMensual.

(** X8. In every row of the ranking and of the monthly table, in binary64
    as in exact arithmetic, the four shares of the consumption by period are 0
    when the kWh of the row compare equal to zero; and in exact arithmetic
    the four shares sum to 100 when the kWh of the row are not zero. *)
Theorem pct_kwh_suman_cien :
  (forall (F : Type) (AF : Arith F) (OF : Orden F)
          (sort_values : list (Anual.fila F) -> list (Anual.fila F))
          (consumo_df : list (Consumo F)) (tarifas_df : list (Tarifa.t F)) (kv kp : F),
      permuta sort_values -> consumo_df <> [] -> tarifas_df <> [] ->
      (exists filas,
          calcular_costes_anuales_por_tarifa sort_values consumo_df tarifas_df kv kp
          = Ok filas
          /\ Forall (fun r =>
               (Anual.kwh_anuales (base_anual r) =? cero)%num = true
               -> pct_kwh_punta_LV (dist_anual r) = cero
                  /\ pct_kwh_llano_LV (dist_anual r) = cero
                  /\ pct_kwh_valle_LV (dist_anual r) = cero
                  /\ pct_kwh_valle_SD (dist_anual r) = cero)
             filas)
      /\ (exists filas,
             calcular_mejor_tarifa_por_mes consumo_df tarifas_df kv kp = Ok filas
             /\ Forall (fun r =>
                  (Mes.kwh_mes (base_mes r) =? cero)%num = true
                  -> pct_kwh_punta_LV (dist_mes r) = cero
                     /\ pct_kwh_llano_LV (dist_mes r) = cero
                     /\ pct_kwh_valle_LV (dist_mes r) = cero
                     /\ pct_kwh_valle_SD (dist_mes r) = cero)
                filas))
  /\ (forall (sort_values : list (Anual.fila Qc) -> list (Anual.fila Qc))
             (consumo_df : list (Consumo Qc)) (tarifas_df : list (Tarifa.t Qc))
             (kv kp : Qc),
         permuta sort_values -> consumo_df <> [] -> tarifas_df <> [] ->
         (exists filas,
             calcular_costes_anuales_por_tarifa sort_values consumo_df tarifas_df kv kp
             = Ok filas
             /\ Forall (fun r =>
                  Anual.kwh_anuales (base_anual r) <> Qc_of_Z 0
                  -> (pct_kwh_punta_LV (dist_anual r) + pct_kwh_llano_LV (dist_anual r)
                      + pct_kwh_valle_LV (dist_anual r)
                      + pct_kwh_valle_SD (dist_anual r))%Qc
                     = Qc_of_Z 100)
                filas)
         /\ (exists filas,
                calcular_mejor_tarifa_por_mes consumo_df tarifas_df kv kp = Ok filas
                /\ Forall (fun r =>
                     Mes.kwh_mes (base_mes r) <> Qc_of_Z 0
                     -> (pct_kwh_punta_LV (dist_mes r) + pct_kwh_llano_LV (dist_mes r)
                         + pct_kwh_valle_LV (dist_mes r)
                         + pct_kwh_valle_SD (dist_mes r))%Qc
                        = Qc_of_Z 100)
                   filas)).
Proof.
  split.
  - intros F AF OF sort_values consumo_df tarifas_df kv kp Hperm Hc Ht. split.
    + destruct (ranking_filas consumo_df kv kp Hperm Ht) as [filas [orden [E [_ [_ HF]]]]].
      exists filas. split; [exact E|].
      apply Forall_forall. intros r Hr.
      destruct (Forall2_In_derecha HF r Hr) as [t [_ ->]].
      unfold base_anual, dist_anual, fila_ranking_de. simpl.
      intros Hz. repeat split; now apply porcentaje_cero.
    + destruct (mensual_desplegado kv kp Hc Ht) as [resultados [HF E]].
      eexists. split; [exact E|].
      apply Forall_forall. intros r Hr. apply in_map_iff in Hr.
      destruct Hr as [x [<- Hx]].
      apply Forall2_In_izquierda in HF.
      destruct (Forall2_In_derecha HF x Hx) as [grupo [_ [Hin Ex]]].
      destruct (@fila_mejor_del_grupo _ _ consumo_df tarifas_df kv kp grupo x Ht Hin Ex)
        as [Ek Ed].
      rewrite Ed. unfold base_mes, fila_mejor_de. simpl. rewrite Ek.
      intros Hz. repeat split; now apply porcentaje_cero.
  - intros sort_values consumo_df tarifas_df kv kp Hperm Hc Ht. split.
    + destruct (ranking_filas (OF := orden_exact) consumo_df kv kp Hperm Ht)
        as [filas [orden [E [_ [_ HF]]]]].
      exists filas. split; [exact E|].
      apply Forall_forall. intros r Hr.
      destruct (Forall2_In_derecha HF r Hr) as [t [_ ->]].
      unfold base_anual, dist_anual, fila_ranking_de. simpl.
      apply pct_kwh_suman_cien_exacto.
    + destruct (mensual_desplegado kv kp Hc Ht) as [resultados [HF E]].
      eexists. split; [exact E|].
      apply Forall_forall. intros r Hr. apply in_map_iff in Hr.
      destruct Hr as [x [<- Hx]].
      apply Forall2_In_izquierda in HF.
      destruct (Forall2_In_derecha HF x Hx) as [grupo [_ [Hin Ex]]].
      destruct (@fila_mejor_del_grupo _ _ consumo_df tarifas_df kv kp grupo x Ht Hin Ex)
        as [Ek Ed].
      rewrite Ed. unfold base_mes, fila_mejor_de. simpl. rewrite Ek.
      apply pct_kwh_suman_cien_exacto.
Qed.

(** ** The months of the monthly table *)

Section MesesDeLaTabla.

Context {F : Type} {AF : Arith F}.

(** X9. The monthly table has one row for each (year, month) that occurs
    in the records and for no other, and its rows are in strictly ascending
    order of (year, month): no month is repeated. *)
Theorem tabla_mensual_un_mes_por_fila
  (consumo_df : list (Consumo F)) (tarifas_df : list (Tarifa.t F)) (kv kp : F) :
  consumo_df <> [] -> tarifas_df <> [] ->
  exists filas,
    calcular_mejor_tarifa_por_mes consumo_df tarifas_df kv kp = Ok filas
    /\ StronglySorted
         (fun a b =>
            (Mes.anio (base_mes a) < Mes.anio (base_mes b))%N
            \/ (Mes.anio (base_mes a) = Mes.anio (base_mes b)
                /\ (Mes.mes (base_mes a) < Mes.mes (base_mes b))%N))
         filas
    /\ forall anio mes : N,
         (exists r, In r filas /\ Mes.anio (base_mes r) = anio /\ Mes.mes (base_mes r) = mes)
         <-> (exists c, In c consumo_df
                        /\ year (timestamp c) = anio /\ month (timestamp c) = mes).
Proof.
  intros Hc Ht.
  destruct (mensual_desplegado kv kp Hc Ht) as [resultados [HF E]].
  eexists. split; [exact E|].
  assert (Hkeys : map (fun r : FilaMejor F => (Mes.anio (base_mes r), Mes.mes (base_mes r)))
                      (map (fila_mejor_de (clasificado consumo_df)) resultados)
                  = claves (clasificado consumo_df)).
  { rewrite map_map. unfold base_mes, fila_mejor_de. simpl.
    transitivity (map fst (groupby_anio_mes (clasificado consumo_df))).
    - apply Forall2_map_eq. eapply Forall2_impl; [|exact HF].
      intros grupo x Ex. now apply mejor_del_grupo_clave in Ex.
    - unfold groupby_anio_mes. rewrite map_map. simpl. apply map_id. }
  split.
  - apply (@StronglySorted_map_inv _ _
             (fun a b : N * N =>
                (fst a < fst b)%N \/ (fst a = fst b /\ (snd a < snd b)%N))
             (fun r : FilaMejor F => (Mes.anio (base_mes r), Mes.mes (base_mes r)))).
    rewrite Hkeys.
    eapply StronglySorted_impl; [|apply claves_sorted].
    intros a b H. now apply clave_ltb_spec.
  - intros anio mes.
    transitivity (In (anio, mes) (claves (clasificado consumo_df))).
    + rewrite <- Hkeys, in_map_iff. split.
      * intros [r [Hr [<- <-]]]. now exists r.
      * intros [r [Er Hr]]. exists r. injection Er as <- <-. auto.
    + rewrite claves_In. unfold clasificado, clave. split.
      * intros [r [Hr Er]]. apply in_map_iff in Hr. destruct Hr as [c [<- Hin]].
        simpl in Er. injection Er as <- <-. now exists c.
      * intros [c [Hin [<- <-]]]. eexists. split; [apply in_map; exact Hin | reflexivity].
Qed.

End MesesDeLaTabla.

(** ** Months and year, without rounding *)

Lemma serie_sum_nil_exacto : serie_sum (@nil Qc) = Qc_of_Z 0.
Proof. reflexivity. Qed.

Lemma serie_sum_ceros_exacto {A : Type} (l : list A) :
  serie_sum (map (fun _ => Qc_of_Z 0) l) = Qc_of_Z 0.
Proof.
  induction l as [|x l IH]; [reflexivity|].
  cbn [map]. rewrite serie_sum_cons_exacto, IH.
  change (Qc_of_Z 0) with 0%Qc. ring.
Qed.

Lemma serie_sum_mas_exacto {A : Type} (f g : A -> Qc) (l : list A) :
  serie_sum (map (fun x => (f x + g x)%Qc) l)
  = (serie_sum (map f l) + serie_sum (map g l))%Qc.
Proof.
  induction l as [|x l IH]; cbn [map].
  - rewrite serie_sum_nil_exacto. change (Qc_of_Z 0) with 0%Qc. ring.
  - rewrite !serie_sum_cons_exacto, IH. ring.
Qed.

Lemma serie_sum_por_exacto {A : Type} (f : A -> Qc) (c : Qc) (l : list A) :
  serie_sum (map (fun x => (f x * c)%Qc) l) = (serie_sum (map f l) * c)%Qc.
Proof.
  induction l as [|x l IH]; cbn [map].
  - rewrite serie_sum_nil_exacto. change (Qc_of_Z 0) with 0%Qc. ring.
  - rewrite !serie_sum_cons_exacto, IH. ring.
Qed.

Lemma serie_sum_menor_exacto (xs ys : list Qc) :
  Forall2 Qcle xs ys -> (serie_sum xs <= serie_sum ys)%Qc.
Proof.
  induction 1 as [|x y xs ys Hxy _ IH].
  - apply Qcle_refl.
  - rewrite !serie_sum_cons_exacto. now apply Qcplus_le_compat.
Qed.

(** The kWh of a list of classified records. *)
Lemma claves_NoDup {F : Type} {AF : Arith F} (df : list (Consumo F * Periodo)) :
  NoDup (claves df).
Proof.
  pose proof (claves_sorted df) as H.
  induction H as [|k ks Hs IH Hall]; constructor; [|exact IH].
  intros Hin. rewrite Forall_forall in Hall. specialize (Hall k Hin).
  apply clave_ltb_spec in Hall. lia.
Qed.

Section ParticionPorMes.

Let kwh_de_fila (r : Consumo Qc * Periodo) : Qc := kwh (fst r).
Let suma_kwh (l : list (Consumo Qc * Periodo)) : Qc := serie_sum (map kwh_de_fila l).

Lemma suma_por_mes_otro (r : Consumo Qc * Periodo) (l : list (Consumo Qc * Periodo))
  (ks : list (N * N)) :
  ~ In (clave r) ks ->
  serie_sum (map (fun k => suma_kwh (del_mes k (r :: l))) ks)
  = serie_sum (map (fun k => suma_kwh (del_mes k l)) ks).
Proof.
  induction ks as [|k ks IH]; intros Hn; [reflexivity|].
  cbn [map]. rewrite !serie_sum_cons_exacto, IH by (intros H; apply Hn; now right).
  f_equal. unfold del_mes. cbn [filter].
  destruct (clave_eqb (clave r) k) eqn:E; [|reflexivity].
  apply clave_eqb_eq in E. exfalso. apply Hn. now left.
Qed.

Lemma suma_por_mes_uno (r : Consumo Qc * Periodo) (l : list (Consumo Qc * Periodo))
  (ks : list (N * N)) :
  NoDup ks -> In (clave r) ks ->
  serie_sum (map (fun k => suma_kwh (del_mes k (r :: l))) ks)
  = (kwh (fst r) + serie_sum (map (fun k => suma_kwh (del_mes k l)) ks))%Qc.
Proof.
  induction 1 as [|k ks Hk Hnd IH]; intros Hin; [destruct Hin|].
  cbn [map]. rewrite !serie_sum_cons_exacto.
  unfold del_mes at 1. cbn [filter].
  destruct (clave_eqb (clave r) k) eqn:E.
  - apply clave_eqb_eq in E. subst k.
    rewrite suma_por_mes_otro by exact Hk.
    unfold suma_kwh at 1. cbn [map]. rewrite serie_sum_cons_exacto.
    fold (del_mes (clave r) l). fold (suma_kwh (del_mes (clave r) l)).
    unfold kwh_de_fila. ring.
  - destruct Hin as [Hin|Hin].
    + subst k. now rewrite clave_eqb_refl in E.
    + rewrite (IH Hin). fold (del_mes k l). ring.
Qed.

(** Splitting a list of records by month loses and repeats nothing: the
    kWh of the months add up to the kWh of the list. *)
Lemma suma_por_mes (l : list (Consumo Qc * Periodo)) (ks : list (N * N)) :
  NoDup ks -> (forall r, In r l -> In (clave r) ks) ->
  serie_sum (map (fun k => suma_kwh (del_mes k l)) ks) = suma_kwh l.
Proof.
  intros Hnd. induction l as [|r l IH]; intros Hin.
  - unfold del_mes, suma_kwh. cbn [filter map]. apply serie_sum_ceros_exacto.
  - rewrite suma_por_mes_uno; [|exact Hnd | apply Hin; now left].
    rewrite IH by (intros x Hx; apply Hin; now right).
    unfold suma_kwh. cbn [map]. now rewrite serie_sum_cons_exacto.
Qed.

Lemma del_periodo_del_mes (p : Periodo) (k : N * N) (l : list (Consumo Qc * Periodo)) :
  del_periodo p (del_mes k l) = del_mes k (del_periodo p l).
Proof.
  unfold del_periodo, del_mes. induction l as [|r l IH]; [reflexivity|].
  cbn [filter].
  destruct (clave_eqb (clave r) k) eqn:E1, (Periodo_eqb (snd r) p) eqn:E2;
    cbn [filter]; rewrite ?E1, ?E2, IH; reflexivity.
Qed.

(** The kWh of one period over the year are the kWh of that period over
    the months. *)
Lemma kwh_de_por_mes (p : Periodo) (df : list (Consumo Qc * Periodo)) :
  serie_sum (map (fun k => kwh_de p (del_mes k df)) (claves df)) = kwh_de p df.
Proof.
  rewrite kwh_de_suma.
  change (serie_sum (map (fun r : Consumo Qc * Periodo => kwh (fst r)) (del_periodo p df)))
    with (suma_kwh (del_periodo p df)).
  rewrite <- (suma_por_mes (del_periodo p df) (claves_NoDup df)).
  - f_equal. apply map_ext. intros k.
    rewrite kwh_de_suma, del_periodo_del_mes. reflexivity.
  - intros r Hr. apply claves_In. exists r. split; [|reflexivity].
    unfold del_periodo in Hr. now apply filter_In in Hr.
Qed.

Lemma kwh_total_por_mes (df : list (Consumo Qc * Periodo)) :
  serie_sum (map (fun k => kwh_total_de (del_mes k df)) (claves df)) = kwh_total_de df.
Proof.
  rewrite kwh_total_exacto.
  change (serie_sum (map (fun r : Consumo Qc * Periodo => kwh (fst r)) df))
    with (suma_kwh df).
  rewrite <- (suma_por_mes df (claves_NoDup df)).
  - f_equal. apply map_ext. intros k. apply kwh_total_exacto.
  - intros r Hr. apply claves_In. now exists r.
Qed.

End ParticionPorMes.

Lemma Qc_of_Z_succ (n : nat) :
  Qc_of_Z (Z.of_nat (S n)) = (Qc_of_Z (Z.of_nat n) + 1)%Qc.
Proof.
  unfold Qc_of_Z, Qcplus. apply Q2Qc_eq_iff. cbn [this Q2Qc].
  rewrite Qred_correct, Nat2Z.inj_succ. unfold Z.succ.
  rewrite inject_Z_plus. reflexivity.
Qed.

Lemma serie_sum_constante_exacto {A : Type} (c : Qc) (l : list A) :
  serie_sum (map (fun _ => c) l) = (Qc_of_Z (Z.of_nat (length l)) * c)%Qc.
Proof.
  induction l as [|x l IH]; cbn [map length].
  - rewrite serie_sum_nil_exacto. change (Qc_of_Z (Z.of_nat 0)) with 0%Qc.
    change (Qc_of_Z 0) with 0%Qc. ring.
  - rewrite serie_sum_cons_exacto, IH, Qc_of_Z_succ. ring.
Qed.

(** The rows of the monthly table against the groups of the data. *)
Lemma filas_mensuales_por_grupo {F : Type} {AF : Arith F} {A : Type}
  (consumo_df : list (Consumo F)) (tarifas_df : list (Tarifa.t F)) (kv kp : F)
  (resultados : list (Mes.fila F * KpisAhorro F))
  (col : FilaMejor F -> A) (val : (N * N) * list (Consumo F * Periodo) -> A) :
  Forall2 (fun grupo x => mejor_del_grupo tarifas_df kv kp grupo = Ok x)
          (groupby_anio_mes (clasificado consumo_df)) resultados ->
  (forall grupo x,
      In grupo (groupby_anio_mes (clasificado consumo_df)) ->
      mejor_del_grupo tarifas_df kv kp grupo = Ok x ->
      col (fila_mejor_de (clasificado consumo_df) x) = val grupo) ->
  map col (map (fila_mejor_de (clasificado consumo_df)) resultados)
  = map val (groupby_anio_mes (clasificado consumo_df)).
Proof.
  intros HF H. rewrite map_map. apply Forall2_map_eq.
  apply Forall2_In_izquierda in HF. eapply Forall2_impl; [|exact HF].
  intros grupo x [Hin Ex]. now apply H.
Qed.

(** X10. Without rounding, the kWh of the rows of the monthly table add up
    to the kWh of the year that every row of the ranking carries. *)
Theorem kwh_de_los_meses_suman_el_anual
  (sort_values : list (Anual.fila Qc) -> list (Anual.fila Qc))
  (consumo_df : list (Consumo Qc)) (tarifas_df : list (Tarifa.t Qc)) (kv kp : Qc) :
  permuta sort_values -> consumo_df <> [] -> tarifas_df <> [] ->
  exists filas_anual filas_mes,
    calcular_costes_anuales_por_tarifa sort_values consumo_df tarifas_df kv kp
    = Ok filas_anual
    /\ calcular_mejor_tarifa_por_mes consumo_df tarifas_df kv kp = Ok filas_mes
    /\ Forall (fun r =>
                 serie_sum (map (fun m => Mes.kwh_mes (base_mes m)) filas_mes)
                 = Anual.kwh_anuales (base_anual r))
              filas_anual.
Proof.
  intros Hperm Hc Ht.
  destruct (ranking_filas (OF := orden_exact) consumo_df kv kp Hperm Ht)
    as [filas [orden [E [_ [_ HF]]]]].
  destruct (mensual_desplegado kv kp Hc Ht) as [resultados [HF2 E2]].
  exists filas. eexists. split; [exact E|]. split; [exact E2|].
  apply Forall_forall. intros r Hr.
  destruct (Forall2_In_derecha HF r Hr) as [t [_ ->]].
  unfold base_anual, fila_ranking_de. simpl.
  rewrite (@filas_mensuales_por_grupo Qc exact Qc consumo_df tarifas_df kv kp resultados
             (fun m => Mes.kwh_mes (base_mes m))
             (fun grupo => kwh_total_de (snd grupo)) HF2).
  - unfold groupby_anio_mes. rewrite map_map. simpl.
    apply kwh_total_por_mes.
  - intros grupo x Hin Ex.
    exact (proj1 (@fila_mejor_del_grupo _ _ consumo_df tarifas_df kv kp grupo x Ht Hin Ex)).
Qed.

(** X11. Without rounding, changing tariff every month to the winner of
    the month never costs more than keeping any one tariff of the catalog:
    the totals of the rows of the monthly table add up to at most the monthly
    totals of that tariff over the same months. *)
Theorem cambio_mensual_no_supera_tarifa_fija
  (consumo_df : list (Consumo Qc)) (tarifas_df : list (Tarifa.t Qc)) (kv kp : Qc)
  (t : Tarifa.t Qc) :
  consumo_df <> [] -> In t tarifas_df ->
  exists filas_mes,
    calcular_mejor_tarifa_por_mes consumo_df tarifas_df kv kp = Ok filas_mes
    /\ (serie_sum (map (fun m => Mes.coste_total_mes (base_mes m)) filas_mes)
        <= serie_sum (map (fun grupo => total_del_grupo (snd grupo) kv kp t)
                          (groupby_anio_mes (clasificado consumo_df))))%Qc.
Proof.
  intros Hc Hin.
  assert (Ht : tarifas_df <> []) by (intros E; rewrite E in Hin; destruct Hin).
  destruct (mensual_desplegado kv kp Hc Ht) as [resultados [HF E]].
  eexists. split; [exact E|].
  apply serie_sum_menor_exacto.
  rewrite map_map. apply Forall2_flip.
  apply Forall2_map_derecha.
  apply Forall2_flip. apply Forall2_map_derecha. apply Forall2_flip.
  eapply Forall2_impl; [|exact HF].
  intros [k g] x Ex. unfold base_mes, fila_mejor_de. simpl.
  rewrite mejor_del_grupo_eq in Ex. cbv zeta in Ex.
  destruct (bucle_desde_vacio (OF := orden_exact) (fst k) (snd k)
              (kwh_de punta_LV g) (kwh_de llano_LV g)
              (kwh_de valle_LV g) (kwh_de valle_SD g) (kwh_total_de g) kv kp Ht)
    as [m [Em [i [t' [Hi [-> [Hmin _]]]]]]].
  { intros t0 _. exact I. }
  rewrite Em in Ex. injection Ex as <-. simpl.
  now apply Hmin.
Qed.

Lemma energia_por_mes (df : list (Consumo Qc * Periodo)) (t : Tarifa.t Qc) :
  serie_sum (map (fun k => energia_del_grupo (del_mes k df) t) (claves df))
  = energia_del_grupo df t.
Proof.
  unfold energia_del_grupo, coste_energia_de.
  change (@suma Qc exact) with Qcplus. change (@prod Qc exact) with Qcmult.
  rewrite (serie_sum_mas_exacto
             (fun k => (kwh_de punta_LV (del_mes k df) * Tarifa.punta_LV t
                        + kwh_de llano_LV (del_mes k df) * Tarifa.llano_LV t
                        + kwh_de valle_LV (del_mes k df) * Tarifa.valle_LV t)%Qc)
             (fun k => (kwh_de valle_SD (del_mes k df) * Tarifa.valle_SD t)%Qc)).
  rewrite (serie_sum_mas_exacto
             (fun k => (kwh_de punta_LV (del_mes k df) * Tarifa.punta_LV t
                        + kwh_de llano_LV (del_mes k df) * Tarifa.llano_LV t)%Qc)
             (fun k => (kwh_de valle_LV (del_mes k df) * Tarifa.valle_LV t)%Qc)).
  rewrite (serie_sum_mas_exacto
             (fun k => (kwh_de punta_LV (del_mes k df) * Tarifa.punta_LV t)%Qc)
             (fun k => (kwh_de llano_LV (del_mes k df) * Tarifa.llano_LV t)%Qc)).
  rewrite (serie_sum_por_exacto (fun k => kwh_de punta_LV (del_mes k df))).
  rewrite (serie_sum_por_exacto (fun k => kwh_de llano_LV (del_mes k df))).
  rewrite (serie_sum_por_exacto (fun k => kwh_de valle_LV (del_mes k df))).
  rewrite (serie_sum_por_exacto (fun k => kwh_de valle_SD (del_mes k df))).
  now rewrite !kwh_de_por_mes.
Qed.

(** X12. Without rounding, for every tariff the energy cost of its row of
    the ranking is the sum over the months of the data of the energy cost the
    monthly loop computes for it, and its monthly totals add up to that energy
    cost plus its monthly power cost once per month. *)
Theorem coste_anual_por_meses
  (sort_values : list (Anual.fila Qc) -> list (Anual.fila Qc))
  (consumo_df : list (Consumo Qc)) (tarifas_df : list (Tarifa.t Qc)) (kv kp : Qc) :
  permuta sort_values -> tarifas_df <> [] ->
  let grupos := groupby_anio_mes (clasificado consumo_df) in
  exists filas orden,
    calcular_costes_anuales_por_tarifa sort_values consumo_df tarifas_df kv kp = Ok filas
    /\ Permutation tarifas_df orden
    /\ Forall2 (fun t r =>
         Anual.coste_energia_anual (base_anual r)
         = serie_sum (map (fun grupo => energia_del_grupo (snd grupo) t) grupos)
         /\ serie_sum (map (fun grupo => total_del_grupo (snd grupo) kv kp t) grupos)
            = (Anual.coste_energia_anual (base_anual r)
               + Qc_of_Z (Z.of_nat (length grupos)) * coste_potencia_mes_de kv kp t)%Qc)
       orden filas.
Proof.
  intros Hperm Ht grupos.
  destruct (ranking_filas (OF := orden_exact) consumo_df kv kp Hperm Ht)
    as [filas [orden [E [P [_ HF]]]]].
  exists filas, orden. split; [exact E|]. split; [exact P|].
  eapply Forall2_impl; [|exact HF]. intros t r ->.
  match goal with
  | |- ?a = _ /\ _ => change a with (energia_del_grupo (clasificado consumo_df) t)
  end.
  assert (Een : serie_sum (map (fun grupo => energia_del_grupo (snd grupo) t) grupos)
                = energia_del_grupo (clasificado consumo_df) t).
  { unfold grupos, groupby_anio_mes. rewrite map_map. simpl. apply energia_por_mes. }
  split; [now symmetry|].
  rewrite <- Een.
  change (fun grupo : N * N * list (Consumo Qc * Periodo) =>
            total_del_grupo (snd grupo) kv kp t)
    with (fun grupo : N * N * list (Consumo Qc * Periodo) =>
            (energia_del_grupo (snd grupo) t + coste_potencia_mes_de kv kp t)%Qc).
  rewrite (serie_sum_mas_exacto (fun grupo => energia_del_grupo (snd grupo) t)
                                (fun _ => coste_potencia_mes_de kv kp t)).
  now rewrite serie_sum_constante_exacto.
Qed.

(** ** The average cost *)

(** X13. Without rounding, in every row of the ranking the average cost
    times the kWh of the year gives back the total cost when the kWh are
    positive, and the average cost is 0 when they are not (zero, or negative
    for a frame of surplus records). *)
Theorem coste_medio_por_kwh_es_el_total
  (sort_values : list (Anual.fila Qc) -> list (Anual.fila Qc))
  (consumo_df : list (Consumo Qc)) (tarifas_df : list (Tarifa.t Qc)) (kv kp : Qc) :
  permuta sort_values -> tarifas_df <> [] ->
  exists filas,
    calcular_costes_anuales_por_tarifa sort_values consumo_df tarifas_df kv kp = Ok filas
    /\ Forall (fun r =>
         ((Qc_of_Z 0 < Anual.kwh_anuales (base_anual r))%Qc
          -> (Anual.coste_medio_eur_kwh (base_anual r) * Anual.kwh_anuales (base_anual r))%Qc
             = Anual.coste_total_anual (base_anual r))
         /\ ((Anual.kwh_anuales (base_anual r) <= Qc_of_Z 0)%Qc
             -> Anual.coste_medio_eur_kwh (base_anual r) = Qc_of_Z 0))
       filas.
Proof.
  intros Hperm Ht.
  destruct (ranking_filas (OF := orden_exact) consumo_df kv kp Hperm Ht)
    as [filas [orden [E [_ [_ HF]]]]].
  exists filas. split; [exact E|].
  apply Forall_forall. intros r Hr.
  destruct (Forall2_In_derecha HF r Hr) as [t [_ ->]].
  unfold base_anual, fila_ranking_de, fila_anual_de. cbn [fst snd].
  cbn [Anual.kwh_anuales Anual.coste_medio_eur_kwh Anual.coste_total_anual].
  set (total := (coste_energia_de _ _ _ _ t + coste_potencia_anual_de kv kp t)%num).
  set (kwh_anio := kwh_total_de (clasificado consumo_df)).
  change (@menor Qc exact) with Qcltb. change (@cociente Qc exact) with Qcdiv.
  change (@cero Qc exact) with (Qc_of_Z 0).
  split.
  - intros Hpos. rewrite (proj2 (Qcltb_lt _ _) Hpos).
    field. intros E0. apply (Qclt_not_eq _ _ Hpos). symmetry. exact E0.
  - intros Hle. now rewrite (proj2 (Qcltb_ge _ _) Hle).
Qed.

(** ** Cheaper prices, cheaper tariff *)

Lemma serie_sum_no_negativa_exacto (s : list Qc) :
  Forall (fun x => (Qc_of_Z 0 <= x)%Qc) s -> (Qc_of_Z 0 <= serie_sum s)%Qc.
Proof.
  induction 1 as [|x s Hx _ IH].
  - apply Qcle_refl.
  - rewrite serie_sum_cons_exacto.
    replace (Qc_of_Z 0) with (Qc_of_Z 0 + Qc_of_Z 0)%Qc by (apply Qcplus_0_l).
    now apply Qcplus_le_compat.
Qed.

Lemma kwh_de_no_negativo (p : Periodo) (consumo_df : list (Consumo Qc)) :
  (forall c, In c consumo_df -> (Qc_of_Z 0 <= kwh c)%Qc) ->
  (Qc_of_Z 0 <= kwh_de p (clasificado consumo_df))%Qc.
Proof.
  intros H. rewrite kwh_de_suma. apply serie_sum_no_negativa_exacto.
  apply Forall_forall. intros x Hx. apply in_map_iff in Hx.
  destruct Hx as [r [<- Hr]]. unfold del_periodo in Hr. apply filter_In in Hr.
  destruct Hr as [Hr _]. unfold clasificado in Hr. apply in_map_iff in Hr.
  destruct Hr as [c [<- Hc]]. now apply H.
Qed.

Lemma prod_menor_exacto (k x y : Qc) :
  (Qc_of_Z 0 <= k)%Qc -> (x <= y)%Qc -> (k * x <= k * y)%Qc.
Proof.
  intros Hk Hxy. rewrite (Qcmult_comm k x), (Qcmult_comm k y).
  now apply Qcmult_le_compat_r.
Qed.

(** X14. Without rounding, with records of no negative kWh and contracted
    powers that are not negative, a tariff whose four prices and two power
    charges are at most those of another one has a row in the ranking whose
    total cost is at most that of the row of the other. *)
Theorem tarifa_no_mas_cara_no_cuesta_mas
  (sort_values : list (Anual.fila Qc) -> list (Anual.fila Qc))
  (consumo_df : list (Consumo Qc)) (tarifas_df : list (Tarifa.t Qc)) (kv kp : Qc)
  (a b : Tarifa.t Qc) :
  permuta sort_values -> In a tarifas_df -> In b tarifas_df ->
  no_mas_cara a b ->
  (forall c, In c consumo_df -> (Qc_of_Z 0 <= kwh c)%Qc) ->
  (Qc_of_Z 0 <= kv)%Qc -> (Qc_of_Z 0 <= kp)%Qc ->
  exists filas fila_a fila_b,
    calcular_costes_anuales_por_tarifa sort_values consumo_df tarifas_df kv kp = Ok filas
    /\ In fila_a filas /\ In fila_b filas
    /\ nombre_fila_anual (base_anual fila_a) = nombre_tarifa a
    /\ nombre_fila_anual (base_anual fila_b) = nombre_tarifa b
    /\ (Anual.coste_total_anual (base_anual fila_a)
        <= Anual.coste_total_anual (base_anual fila_b))%Qc.
Proof.
  intros Hperm Ha Hb [H1 [H2 [H3 [H4 [H5 H6]]]]] Hkwh Hkv Hkp.
  assert (Ht : tarifas_df <> []) by (intros E; rewrite E in Ha; destruct Ha).
  destruct (ranking_del_catalogo (OF := orden_exact) consumo_df kv kp Hperm Ht)
    as [filas [orden [d [E [P [-> _]]]]]].
  eexists. eexists. eexists. split; [exact E|].
  split; [apply in_map; eapply Permutation_in; [exact P | exact Ha]|].
  split; [apply in_map; eapply Permutation_in; [exact P | exact Hb]|].
  split; [reflexivity|]. split; [reflexivity|].
  unfold base_anual, fila_ranking_de, fila_anual_del_consumo, fila_anual_de.
  cbn [fst snd Anual.coste_total_anual].
  unfold coste_energia_de, coste_potencia_anual_de.
  change (@suma Qc exact) with Qcplus. change (@prod Qc exact) with Qcmult.
  assert (H12 : (Qc_of_Z 0 <= doce)%Qc) by (vm_compute; discriminate).
  repeat apply Qcplus_le_compat;
    try (apply prod_menor_exacto; [now apply kwh_de_no_negativo | assumption]);
    apply Qcmult_le_compat_r; try exact H12;
    apply Qcmult_le_compat_r; assumption.
Qed.

(** ** The order of the records *)

Lemma serie_sum_permutacion_exacto (s s' : list Qc) :
  Permutation s s' -> serie_sum s = serie_sum s'.
Proof.
  induction 1 as [|x s s' _ IH|x y s|s s' s'' _ IH1 _ IH2].
  - reflexivity.
  - now rewrite !serie_sum_cons_exacto, IH.
  - rewrite !serie_sum_cons_exacto. ring.
  - now rewrite IH1.
Qed.

Lemma filter_permutacion {A : Type} (f : A -> bool) (l l' : list A) :
  Permutation l l' -> Permutation (filter f l) (filter f l').
Proof.
  induction 1 as [|x l l' _ IH|x y l|l l' l'' _ IH1 _ IH2]; cbn [filter].
  - constructor.
  - destruct (f x); [now constructor | exact IH].
  - destruct (f x), (f y); try reflexivity. apply perm_swap.
  - now apply Permutation_trans with (filter f l').
Qed.

Lemma kwh_de_permutacion (p : Periodo) (df df' : list (Consumo Qc * Periodo)) :
  Permutation df df' -> kwh_de p df = kwh_de p df'.
Proof.
  intros P. rewrite !kwh_de_suma. apply serie_sum_permutacion_exacto.
  apply Permutation_map. unfold del_periodo. now apply filter_permutacion.
Qed.

(** Two strictly ascending lists of keys with the same members are the
    same list. *)
Lemma claves_ordenadas_iguales (l l' : list (N * N)) :
  StronglySorted clave_lt l -> StronglySorted clave_lt l' ->
  (forall k, In k l <-> In k l') -> l = l'.
Proof.
  intros Hl. revert l'. induction Hl as [|a l Hs IH Ha]; intros l' Hl' Hin.
  - destruct l' as [|b l']; [reflexivity|].
    destruct (proj2 (Hin b) (or_introl eq_refl)).
  - destruct Hl' as [|b l' Hs' Hb].
    + destruct (proj1 (Hin a) (or_introl eq_refl)).
    + rewrite Forall_forall in Ha, Hb.
      assert (Irr : forall k, ~ clave_lt k k).
      { intros k H. apply clave_ltb_spec in H. lia. }
      assert (Eab : a = b).
      { destruct (proj1 (Hin a) (or_introl eq_refl)) as [E|Ha'];
          [now symmetry|].
        destruct (proj2 (Hin b) (or_introl eq_refl)) as [E|Hb']; [exact E|].
        exfalso. apply (Irr a).
        apply clave_lt_trans with b; [now apply Ha | now apply Hb]. }
      subst b. f_equal. apply IH; [exact Hs'|].
      intros k. split; intros Hk.
      * destruct (proj1 (Hin k) (or_intror Hk)) as [E|Hk']; [|exact Hk'].
        subst k. exfalso. apply (Irr a). now apply Ha.
      * destruct (proj2 (Hin k) (or_intror Hk)) as [E|Hk']; [|exact Hk'].
        subst k. exfalso. apply (Irr a). now apply Hb.
Qed.

Lemma claves_permutacion {F : Type} {AF : Arith F} (df df' : list (Consumo F * Periodo)) :
  Permutation df df' -> claves df = claves df'.
Proof.
  intros P. apply claves_ordenadas_iguales; try apply claves_sorted.
  intros k. rewrite !claves_In. split; intros [r [Hr E]]; exists r; split; try exact E.
  - now apply (Permutation_in _ P).
  - now apply (Permutation_in _ (Permutation_sym P)).
Qed.

Lemma para_cada_ext {A B : Type} (f g : A -> Resultado B) (l : list A) :
  (forall x, In x l -> f x = g x) -> para_cada f l = para_cada g l.
Proof.
  induction l as [|x l IH]; intros H; [reflexivity|]. cbn [para_cada].
  rewrite (H x (or_introl eq_refl)), IH; [reflexivity|].
  intros y Hy. apply H. now right.
Qed.

Lemma para_cada_map {A B C : Type} (f : B -> Resultado C) (h : A -> B) (l : list A) :
  para_cada f (map h l) = para_cada (fun x => f (h x)) l.
Proof.
  induction l as [|x l IH]; [reflexivity|]. cbn [map para_cada]. now rewrite IH.
Qed.

Lemma mejor_del_grupo_permutacion (tarifas_df : list (Tarifa.t Qc)) (kv kp : Qc)
  (k : N * N) (g g' : list (Consumo Qc * Periodo)) :
  Permutation g g' ->
  mejor_del_grupo tarifas_df kv kp (k, g) = mejor_del_grupo tarifas_df kv kp (k, g').
Proof.
  intros P. rewrite !mejor_del_grupo_eq. unfold kwh_total_de.
  now rewrite !(kwh_de_permutacion _ P).
Qed.

Lemma distribucion_del_mes_permutacion (df df' : list (Consumo Qc * Periodo))
  (anio mes : N) :
  Permutation df df' ->
  distribucion_del_mes df anio mes = distribucion_del_mes df' anio mes.
Proof.
  intros P. rewrite !distribucion_del_mes_Ok. unfold kwh_total_de.
  assert (P' : Permutation (del_mes (anio, mes) df) (del_mes (anio, mes) df')).
  { unfold del_mes. now apply filter_permutacion. }
  now rewrite !(kwh_de_permutacion _ P').
Qed.

(** X15. Without rounding, the two tables do not depend on the order of
    the consumption records: a frame and any rearrangement of its rows give
    the same result, table or exception. *)
Theorem tablas_sin_orden_de_registros
  (sort_values : list (Anual.fila Qc) -> list (Anual.fila Qc))
  (consumo_df consumo_df' : list (Consumo Qc)) (tarifas_df : list (Tarifa.t Qc))
  (kv kp : Qc) :
  Permutation consumo_df consumo_df' ->
  calcular_costes_anuales_por_tarifa sort_values consumo_df tarifas_df kv kp
  = calcular_costes_anuales_por_tarifa sort_values consumo_df' tarifas_df kv kp
  /\ calcular_mejor_tarifa_por_mes consumo_df tarifas_df kv kp
     = calcular_mejor_tarifa_por_mes consumo_df' tarifas_df kv kp.
Proof.
  intros P.
  assert (Pc : Permutation (clasificado consumo_df) (clasificado consumo_df')).
  { unfold clasificado. now apply Permutation_map. }
  split.
  - unfold calcular_costes_anuales_por_tarifa.
    rewrite !con_periodo_ok. cbn [bind].
    change (dict_get (groupby_periodo_kwh_sum ?d) ?p cero) with (kwh_de p d).
    now rewrite !(kwh_de_permutacion _ Pc).
  - unfold calcular_mejor_tarifa_por_mes.
    rewrite !con_periodo_ok. cbn [bind].
    unfold groupby_anio_mes. rewrite (claves_permutacion Pc), !para_cada_map.
    rewrite (para_cada_ext
               (fun k => mejor_del_grupo tarifas_df kv kp
                           (k, del_mes k (clasificado consumo_df)))
               (fun k => mejor_del_grupo tarifas_df kv kp
                           (k, del_mes k (clasificado consumo_df')))).
    + destruct (para_cada _ (claves (clasificado consumo_df'))) as [resultados|e];
        [|reflexivity].
      cbn [bind]. destruct resultados as [|x xs]; [reflexivity|].
      cbv zeta.
      destruct (_anadir_pct_energia_potencia _ _ _ _) as [res|e]; [|reflexivity].
      cbn [bind].
      rewrite (para_cada_ext
                 (fun row => distribucion_del_mes (clasificado consumo_df)
                               (Mes.anio (fst (fst row))) (Mes.mes (fst (fst row))))
                 (fun row => distribucion_del_mes (clasificado consumo_df')
                               (Mes.anio (fst (fst row))) (Mes.mes (fst (fst row))))).
      * reflexivity.
      * intros row _. now apply distribucion_del_mes_permutacion.
    + intros k _. apply mejor_del_grupo_permutacion.
      unfold del_mes. now apply filter_permutacion.
Qed.

(** ** A catalog of one tariff *)

Lemma kpis_de_una_exacto (x : Qc) :
  let k := kpis_de (serie_median [x]) (serie_max [x]) x in
  ref_mediana_coste_total k = x /\ ref_peor_coste_total k = x
  /\ ahorro_vs_mediana_eur k = Qc_of_Z 0 /\ ahorro_vs_peor_eur k = Qc_of_Z 0
  /\ ahorro_vs_mediana_pct k = Qc_of_Z 0 /\ ahorro_vs_peor_pct k = Qc_of_Z 0.
Proof.
  assert (Em : serie_median [x] = x) by reflexivity.
  assert (Ep : serie_max [x] = x) by reflexivity.
  cbv zeta. unfold kpis_de. cbn [ref_mediana_coste_total ref_peor_coste_total
    ahorro_vs_mediana_eur ahorro_vs_peor_eur ahorro_vs_mediana_pct ahorro_vs_peor_pct].
  rewrite Em, Ep.
  assert (E0 : (x - x)%num = Qc_of_Z 0).
  { change (x - x)%num with (x - x)%Qc. change (Qc_of_Z 0) with 0%Qc. ring. }
  rewrite E0.
  assert (Epct : porcentaje (Qc_of_Z 0) x = Qc_of_Z 0).
  { unfold porcentaje. destruct (x =? cero)%num; [reflexivity|].
    change ((Qc_of_Z 0 / x) * cien)%num with ((0 / x) * Qc_of_Z 100)%Qc.
    change (Qc_of_Z 0) with 0%Qc. unfold Qcdiv. ring. }
  rewrite Epct. repeat split.
Qed.

(** X16. Without rounding, with a catalog of one tariff the ranking has the
    one row of that tariff and every month of the monthly table is won by it;
    in all these rows both references are the total of the row and the four
    savings columns are 0. *)
Theorem catalogo_de_una_tarifa
  (sort_values : list (Anual.fila Qc) -> list (Anual.fila Qc))
  (consumo_df : list (Consumo Qc)) (t : Tarifa.t Qc) (kv kp : Qc) :
  permuta sort_values -> consumo_df <> [] ->
  (exists r,
      calcular_costes_anuales_por_tarifa sort_values consumo_df [t] kv kp = Ok [r]
      /\ nombre_fila_anual (base_anual r) = nombre_tarifa t
      /\ ref_mediana_coste_total (kpis_anual r) = Anual.coste_total_anual (base_anual r)
      /\ ref_peor_coste_total (kpis_anual r) = Anual.coste_total_anual (base_anual r)
      /\ ahorro_vs_mediana_eur (kpis_anual r) = Qc_of_Z 0
      /\ ahorro_vs_peor_eur (kpis_anual r) = Qc_of_Z 0
      /\ ahorro_vs_mediana_pct (kpis_anual r) = Qc_of_Z 0
      /\ ahorro_vs_peor_pct (kpis_anual r) = Qc_of_Z 0)
  /\ (exists filas,
         calcular_mejor_tarifa_por_mes consumo_df [t] kv kp = Ok filas
         /\ Forall (fun r =>
              Mes.comercializadora (base_mes r) = Tarifa.comercializadora t
              /\ Mes.tarifa (base_mes r) = Tarifa.tarifa t
              /\ ref_mediana_coste_total (kpis_mes r) = Mes.coste_total_mes (base_mes r)
              /\ ref_peor_coste_total (kpis_mes r) = Mes.coste_total_mes (base_mes r)
              /\ ahorro_vs_mediana_eur (kpis_mes r) = Qc_of_Z 0
              /\ ahorro_vs_peor_eur (kpis_mes r) = Qc_of_Z 0
              /\ ahorro_vs_mediana_pct (kpis_mes r) = Qc_of_Z 0
              /\ ahorro_vs_peor_pct (kpis_mes r) = Qc_of_Z 0)
            filas).
Proof.
  intros Hperm Hc.
  assert (Ht : [t] <> []) by discriminate.
  split.
  - pose proof (ranking_desplegado (OF := orden_exact) sort_values consumo_df kv kp Ht) as E.
    cbv zeta in E. cbn [map] in E.
    match type of E with
    | context [sort_values [?x]] =>
        assert (Es : sort_values [x] = [x])
          by (apply Permutation_length_1_inv, Hperm);
        rewrite Es in E
    end.
    cbn [map] in E. eexists. split; [exact E|].
    unfold base_anual, kpis_anual, fila_ranking_de. cbn [fst snd].
    split; [reflexivity|].
    apply kpis_de_una_exacto.
  - destruct (mensual_desplegado kv kp Hc Ht) as [resultados [HF E]].
    eexists. split; [exact E|].
    apply Forall_forall. intros r Hr. apply in_map_iff in Hr.
    destruct Hr as [x [<- Hx]].
    destruct (Forall2_In_derecha HF x Hx) as [[k g] [_ Ex]].
    destruct (mejor_del_grupo_fila kv kp k g Ht) as [t' [[<-|[]] Et]].
    cbv zeta in Et. rewrite Et in Ex. injection Ex as <-.
    unfold base_mes, kpis_mes, fila_mejor_de. cbn [fst snd map].
    split; [reflexivity|]. split; [reflexivity|].
    apply kpis_de_una_exacto.
Qed.

(** ** The hours of a day *)

(** X17. Of the 24 hourly records of one day the classifier labels, on a
    working day, 8 as valley (00-08), 8 as peak (10-14, 18-22) and 8 as flat,
    none as weekend valley; on a weekend day it labels all 24 as weekend
    valley. *)
Theorem reparto_de_las_horas_del_dia (timestamp : list Timestamp) :
  map hour timestamp = horas_del_dia ->
  (exists etiquetas,
      _clasificar_periodo timestamp (map (fun _ => false) timestamp) = Ok etiquetas
      /\ cuenta valle_LV etiquetas = 8%nat /\ cuenta punta_LV etiquetas = 8%nat
      /\ cuenta llano_LV etiquetas = 8%nat /\ cuenta valle_SD etiquetas = 0%nat)
  /\ (exists etiquetas,
         _clasificar_periodo timestamp (map (fun _ => true) timestamp) = Ok etiquetas
         /\ cuenta valle_SD etiquetas = 24%nat).
Proof.
  intros Hh.
  pose proof (clasificar_periodo_por_filas (fun t : Timestamp => t) (fun _ => false)
                timestamp) as E1.
  pose proof (clasificar_periodo_por_filas (fun t : Timestamp => t) (fun _ => true)
                timestamp) as E2.
  rewrite map_id in E1, E2.
  split.
  - eexists. split; [exact E1|].
    rewrite <- (map_map hour (fun h => regla_periodo h false)), Hh.
    repeat split.
  - eexists. split; [exact E2|].
    rewrite <- (map_map hour (fun h => regla_periodo h true)), Hh.
    reflexivity.
Qed.

(** ** A frame of no records *)

(** X18. For a frame of no records and a catalog that is not empty the
    annual pipeline still returns one row per tariff (the monthly one raises):
    in binary64 as in exact arithmetic every row has 0 kWh, an average cost
    of 0 and a distribution of zeros; without rounding its energy cost is 0
    and its total cost is its power cost. *)
Theorem ranking_sin_registros :
  (forall (sort_values : list (Anual.fila float) -> list (Anual.fila float))
          (tarifas_df : list (Tarifa.t float)) (kv kp : float),
      permuta sort_values -> tarifas_df <> [] ->
      exists filas,
        calcular_costes_anuales_por_tarifa sort_values [] tarifas_df kv kp = Ok filas
        /\ length filas = length tarifas_df
        /\ Forall (fun r =>
             Anual.kwh_anuales (base_anual r) = 0%float
             /\ Anual.coste_medio_eur_kwh (base_anual r) = 0%float
             /\ dist_anual r
                = {| kwh_punta_LV := 0%float; kwh_llano_LV := 0%float;
                     kwh_valle_LV := 0%float; kwh_valle_SD := 0%float;
                     pct_kwh_punta_LV := 0%float; pct_kwh_llano_LV := 0%float;
                     pct_kwh_valle_LV := 0%float; pct_kwh_valle_SD := 0%float |})
           filas)
  /\ (forall (sort_values : list (Anual.fila Qc) -> list (Anual.fila Qc))
             (tarifas_df : list (Tarifa.t Qc)) (kv kp : Qc),
         permuta sort_values -> tarifas_df <> [] ->
         exists filas,
           calcular_costes_anuales_por_tarifa sort_values [] tarifas_df kv kp = Ok filas
           /\ length filas = length tarifas_df
           /\ Forall (fun r =>
                Anual.kwh_anuales (base_anual r) = Qc_of_Z 0
                /\ Anual.coste_medio_eur_kwh (base_anual r) = Qc_of_Z 0
                /\ Anual.coste_energia_anual (base_anual r) = Qc_of_Z 0
                /\ Anual.coste_total_anual (base_anual r)
                   = Anual.coste_potencia_anual (base_anual r)
                /\ dist_anual r
                   = {| kwh_punta_LV := Qc_of_Z 0; kwh_llano_LV := Qc_of_Z 0;
                        kwh_valle_LV := Qc_of_Z 0; kwh_valle_SD := Qc_of_Z 0;
                        pct_kwh_punta_LV := Qc_of_Z 0; pct_kwh_llano_LV := Qc_of_Z 0;
                        pct_kwh_valle_LV := Qc_of_Z 0; pct_kwh_valle_SD := Qc_of_Z 0 |})
              filas).
Proof.
  split.
  - intros sort_values tarifas_df kv kp Hperm Ht.
    destruct (ranking_filas (OF := orden_binary64) [] kv kp Hperm Ht)
      as [filas [orden [E [P [_ HF]]]]].
    exists filas. split; [exact E|]. split.
    { rewrite <- (Forall2_length HF). symmetry. now apply Permutation_length. }
    apply Forall_forall. intros r Hr.
    destruct (Forall2_In_derecha HF r Hr) as [t [_ ->]].
    repeat split.
  - intros sort_values tarifas_df kv kp Hperm Ht.
    destruct (ranking_filas (OF := orden_exact) [] kv kp Hperm Ht)
      as [filas [orden [E [P [_ HF]]]]].
    exists filas. split; [exact E|]. split.
    { rewrite <- (Forall2_length HF). symmetry. now apply Permutation_length. }
    apply Forall_forall. intros r Hr.
    destruct (Forall2_In_derecha HF r Hr) as [t [_ ->]].
    unfold base_anual, dist_anual, fila_ranking_de, fila_anual_de. cbn [fst snd].
    cbn [Anual.kwh_anuales Anual.coste_medio_eur_kwh Anual.coste_energia_anual
         Anual.coste_total_anual Anual.coste_potencia_anual].
    assert (Een : coste_energia_de (kwh_de punta_LV (clasificado (@nil (Consumo Qc))))
                    (kwh_de llano_LV (clasificado (@nil (Consumo Qc))))
                    (kwh_de valle_LV (clasificado (@nil (Consumo Qc))))
                    (kwh_de valle_SD (clasificado (@nil (Consumo Qc)))) t
                  = Qc_of_Z 0).
    { unfold coste_energia_de.
      change (kwh_de ?p (clasificado (@nil (Consumo Qc)))) with 0%Qc.
      change (@suma Qc exact) with Qcplus. change (@prod Qc exact) with Qcmult.
      change (Qc_of_Z 0) with 0%Qc. ring. }
    rewrite Een.
    split; [reflexivity|]. split; [reflexivity|]. split; [reflexivity|].
    split; [|reflexivity].
    change (@suma Qc exact) with Qcplus. change (Qc_of_Z 0) with 0%Qc. ring.
Qed.

(** ** The further properties on example data *)

Lemma ranking_lista_cada_tarifa_ejemplo :
  exists filas,
    calcular_costes_anuales_por_tarifa sort_estable consumo_dos_meses
      [tarifa_con_potencia; tarifa_escenario]
      potencia_kw_valle_main potencia_kw_punta_llano_main = Ok filas
    /\ Permutation (map (@nombre_tarifa float) [tarifa_con_potencia; tarifa_escenario])
                   (map (fun r => nombre_fila_anual (base_anual r)) filas).
Proof.
  apply (ranking_lista_cada_tarifa (OF := orden_binary64)).
  - apply sort_estable_permuta.
  - discriminate.
Defined.

Lemma referencia_peor_es_el_maximo_ejemplo :
  exists filas peor,
    calcular_costes_anuales_por_tarifa sort_estable consumo_dos_meses
      [tarifa_con_potencia; tarifa_escenario]
      potencia_kw_valle_main potencia_kw_punta_llano_main = Ok filas
    /\ Exists (fun r => Anual.coste_total_anual (base_anual r) = peor) filas
    /\ Forall (fun r =>
                 ref_peor_coste_total (kpis_anual r) = peor
                 /\ PrimFloat.leb (Anual.coste_total_anual (base_anual r)) peor = true
                 /\ ahorro_vs_peor_eur (kpis_anual r)
                    = (peor - Anual.coste_total_anual (base_anual r))%float
                 /\ PrimFloat.leb 0%float (ahorro_vs_peor_eur (kpis_anual r)) = true)
              filas.
Proof.
  apply (referencia_peor_es_el_maximo (OF := orden_binary64)).
  - apply sort_estable_permuta.
  - discriminate.
  - intros t [<-|[<-|[]]]; vm_compute; reflexivity.
Defined.

Lemma ahorro_mensual_vs_peor_no_negativo_ejemplo :
  exists filas,
    calcular_mejor_tarifa_por_mes consumo_dos_meses
      [tarifa_con_potencia; tarifa_escenario]
      potencia_kw_valle_main potencia_kw_punta_llano_main = Ok filas
    /\ Forall2 (fun grupo r =>
         (forall t, In t [tarifa_con_potencia; tarifa_escenario] ->
            PrimFloat.leb (total_del_grupo (snd grupo) potencia_kw_valle_main
                                           potencia_kw_punta_llano_main t)
                          (ref_peor_coste_total (kpis_mes r)) = true)
         /\ ahorro_vs_peor_eur (kpis_mes r)
            = (ref_peor_coste_total (kpis_mes r) - Mes.coste_total_mes (base_mes r))%float
         /\ PrimFloat.leb 0%float (ahorro_vs_peor_eur (kpis_mes r)) = true)
       (groupby_anio_mes (clasificado consumo_dos_meses)) filas.
Proof.
  apply (ahorro_mensual_vs_peor_no_negativo (OF := orden_binary64)).
  - discriminate.
  - discriminate.
  - intros grupo t [<-|[<-|[]]] [<-|[<-|[]]]; vm_compute; reflexivity.
Defined.

Lemma ahorro_mensual_vs_mediana_no_negativo_ejemplo :
  exists filas,
    calcular_mejor_tarifa_por_mes consumo_dos_meses_exacto
      [tarifa_exacta_1; tarifa_exacta_barata]
      potencia_kw_valle_exacta potencia_kw_punta_llano_exacta = Ok filas
    /\ Forall (fun r =>
         (Mes.coste_total_mes (base_mes r) <= ref_mediana_coste_total (kpis_mes r))%Qc
         /\ (ref_mediana_coste_total (kpis_mes r) <= ref_peor_coste_total (kpis_mes r))%Qc
         /\ (Qc_of_Z 0 <= ahorro_vs_mediana_eur (kpis_mes r))%Qc)
       filas.
Proof.
  apply ahorro_mensual_vs_mediana_no_negativo; discriminate.
Defined.

Lemma mediana_entre_primera_y_ultima_ejemplo :
  exists primera resto mediana,
    calcular_costes_anuales_por_tarifa sort_estable consumo_dos_meses_exacto
      [tarifa_exacta_1; tarifa_exacta_barata]
      potencia_kw_valle_exacta potencia_kw_punta_llano_exacta
    = Ok (primera :: resto)
    /\ Forall (fun r => ref_mediana_coste_total (kpis_anual r) = mediana)
              (primera :: resto)
    /\ (Anual.coste_total_anual (base_anual primera) <= mediana)%Qc
    /\ (mediana <= Anual.coste_total_anual (base_anual (last resto primera)))%Qc
    /\ (Qc_of_Z 0 <= ahorro_vs_mediana_eur (kpis_anual primera))%Qc
    /\ (ahorro_vs_mediana_eur (kpis_anual (last resto primera)) <= Qc_of_Z 0)%Qc.
Proof.
  apply mediana_entre_primera_y_ultima.
  - apply sort_estable_contrato_exacto.
  - discriminate.
Defined.

Lemma tabla_mensual_un_mes_por_fila_ejemplo :
  exists filas,
    calcular_mejor_tarifa_por_mes consumo_dos_meses
      [tarifa_con_potencia; tarifa_escenario]
      potencia_kw_valle_main potencia_kw_punta_llano_main = Ok filas
    /\ StronglySorted
         (fun a b =>
            (Mes.anio (base_mes a) < Mes.anio (base_mes b))%N
            \/ (Mes.anio (base_mes a) = Mes.anio (base_mes b)
                /\ (Mes.mes (base_mes a) < Mes.mes (base_mes b))%N))
         filas
    /\ forall anio mes : N,
         (exists r, In r filas /\ Mes.anio (base_mes r) = anio /\ Mes.mes (base_mes r) = mes)
         <-> (exists c, In c consumo_dos_meses
                        /\ year (timestamp c) = anio /\ month (timestamp c) = mes).
Proof.
  apply tabla_mensual_un_mes_por_fila; discriminate.
Defined.

Lemma kwh_de_los_meses_suman_el_anual_ejemplo :
  exists filas_anual filas_mes,
    calcular_costes_anuales_por_tarifa sort_estable consumo_dos_meses_exacto
      [tarifa_exacta_1; tarifa_exacta_barata]
      potencia_kw_valle_exacta potencia_kw_punta_llano_exacta
    = Ok filas_anual
    /\ calcular_mejor_tarifa_por_mes consumo_dos_meses_exacto
         [tarifa_exacta_1; tarifa_exacta_barata]
         potencia_kw_valle_exacta potencia_kw_punta_llano_exacta = Ok filas_mes
    /\ Forall (fun r =>
                 serie_sum (map (fun m => Mes.kwh_mes (base_mes m)) filas_mes)
                 = Anual.kwh_anuales (base_anual r))
              filas_anual.
Proof.
  apply kwh_de_los_meses_suman_el_anual.
  - apply sort_estable_permuta.
  - discriminate.
  - discriminate.
Defined.

Lemma cambio_mensual_no_supera_tarifa_fija_ejemplo :
  exists filas_mes,
    calcular_mejor_tarifa_por_mes consumo_dos_meses_exacto
      [tarifa_exacta_1; tarifa_exacta_barata]
      potencia_kw_valle_exacta potencia_kw_punta_llano_exacta = Ok filas_mes
    /\ (serie_sum (map (fun m => Mes.coste_total_mes (base_mes m)) filas_mes)
        <= serie_sum (map (fun grupo =>
                             total_del_grupo (snd grupo) potencia_kw_valle_exacta
                                             potencia_kw_punta_llano_exacta tarifa_exacta_1)
                          (groupby_anio_mes (clasificado consumo_dos_meses_exacto))))%Qc.
Proof.
  apply cambio_mensual_no_supera_tarifa_fija.
  - discriminate.
  - now left.
Defined.

Lemma coste_anual_por_meses_ejemplo :
  let kv := potencia_kw_valle_exacta in
  let kp := potencia_kw_punta_llano_exacta in
  let grupos := groupby_anio_mes (clasificado consumo_dos_meses_exacto) in
  exists filas orden,
    calcular_costes_anuales_por_tarifa sort_estable consumo_dos_meses_exacto
      [tarifa_exacta_1; tarifa_exacta_barata] kv kp = Ok filas
    /\ Permutation [tarifa_exacta_1; tarifa_exacta_barata] orden
    /\ Forall2 (fun t r =>
         Anual.coste_energia_anual (base_anual r)
         = serie_sum (map (fun grupo => energia_del_grupo (snd grupo) t) grupos)
         /\ serie_sum (map (fun grupo => total_del_grupo (snd grupo) kv kp t) grupos)
            = (Anual.coste_energia_anual (base_anual r)
               + Qc_of_Z (Z.of_nat (length grupos)) * coste_potencia_mes_de kv kp t)%Qc)
       orden filas.
Proof.
  apply coste_anual_por_meses.
  - apply sort_estable_permuta.
  - discriminate.
Defined.

Lemma coste_medio_por_kwh_es_el_total_ejemplo :
  exists filas,
    calcular_costes_anuales_por_tarifa sort_estable consumo_dos_meses_exacto
      [tarifa_exacta_1; tarifa_exacta_barata]
      potencia_kw_valle_exacta potencia_kw_punta_llano_exacta = Ok filas
    /\ Forall (fun r =>
         ((Qc_of_Z 0 < Anual.kwh_anuales (base_anual r))%Qc
          -> (Anual.coste_medio_eur_kwh (base_anual r) * Anual.kwh_anuales (base_anual r))%Qc
             = Anual.coste_total_anual (base_anual r))
         /\ ((Anual.kwh_anuales (base_anual r) <= Qc_of_Z 0)%Qc
             -> Anual.coste_medio_eur_kwh (base_anual r) = Qc_of_Z 0))
       filas.
Proof.
  apply coste_medio_por_kwh_es_el_total.
  - apply sort_estable_permuta.
  - discriminate.
Defined.

Lemma tarifa_no_mas_cara_no_cuesta_mas_ejemplo :
  exists filas fila_a fila_b,
    calcular_costes_anuales_por_tarifa sort_estable consumo_dos_meses_exacto
      [tarifa_exacta_1; tarifa_exacta_barata]
      potencia_kw_valle_exacta potencia_kw_punta_llano_exacta = Ok filas
    /\ In fila_a filas /\ In fila_b filas
    /\ nombre_fila_anual (base_anual fila_a) = nombre_tarifa tarifa_exacta_barata
    /\ nombre_fila_anual (base_anual fila_b) = nombre_tarifa tarifa_exacta_1
    /\ (Anual.coste_total_anual (base_anual fila_a)
        <= Anual.coste_total_anual (base_anual fila_b))%Qc.
Proof.
  apply tarifa_no_mas_cara_no_cuesta_mas.
  - apply sort_estable_permuta.
  - right. now left.
  - now left.
  - repeat split; vm_compute; discriminate.
  - intros c [<-|[<-|[<-|[<-|[]]]]]; vm_compute; discriminate.
  - vm_compute; discriminate.
  - vm_compute; discriminate.
Defined.

Lemma tablas_sin_orden_de_registros_ejemplo :
  calcular_costes_anuales_por_tarifa sort_estable consumo_dos_meses_exacto
    [tarifa_exacta_1; tarifa_exacta_barata]
    potencia_kw_valle_exacta potencia_kw_punta_llano_exacta
  = calcular_costes_anuales_por_tarifa sort_estable consumo_dos_meses_reordenado
      [tarifa_exacta_1; tarifa_exacta_barata]
      potencia_kw_valle_exacta potencia_kw_punta_llano_exacta
  /\ calcular_mejor_tarifa_por_mes consumo_dos_meses_exacto
       [tarifa_exacta_1; tarifa_exacta_barata]
       potencia_kw_valle_exacta potencia_kw_punta_llano_exacta
     = calcular_mejor_tarifa_por_mes consumo_dos_meses_reordenado
         [tarifa_exacta_1; tarifa_exacta_barata]
         potencia_kw_valle_exacta potencia_kw_punta_llano_exacta.
Proof.
  apply tablas_sin_orden_de_registros.
  unfold consumo_dos_meses_exacto, consumo_dos_meses_reordenado.
  apply Permutation_sym.
  exact (@Permutation_cons_append _ [_; _; _] _).
Defined.

Lemma catalogo_de_una_tarifa_ejemplo :
  (exists r,
      calcular_costes_anuales_por_tarifa sort_estable consumo_dos_meses_exacto
        [tarifa_exacta_1] potencia_kw_valle_exacta potencia_kw_punta_llano_exacta
      = Ok [r]
      /\ nombre_fila_anual (base_anual r) = nombre_tarifa tarifa_exacta_1
      /\ ref_mediana_coste_total (kpis_anual r) = Anual.coste_total_anual (base_anual r)
      /\ ref_peor_coste_total (kpis_anual r) = Anual.coste_total_anual (base_anual r)
      /\ ahorro_vs_mediana_eur (kpis_anual r) = Qc_of_Z 0
      /\ ahorro_vs_peor_eur (kpis_anual r) = Qc_of_Z 0
      /\ ahorro_vs_mediana_pct (kpis_anual r) = Qc_of_Z 0
      /\ ahorro_vs_peor_pct (kpis_anual r) = Qc_of_Z 0)
  /\ (exists filas,
         calcular_mejor_tarifa_por_mes consumo_dos_meses_exacto [tarifa_exacta_1]
           potencia_kw_valle_exacta potencia_kw_punta_llano_exacta = Ok filas
         /\ Forall (fun r =>
              Mes.comercializadora (base_mes r) = Tarifa.comercializadora tarifa_exacta_1
              /\ Mes.tarifa (base_mes r) = Tarifa.tarifa tarifa_exacta_1
              /\ ref_mediana_coste_total (kpis_mes r) = Mes.coste_total_mes (base_mes r)
              /\ ref_peor_coste_total (kpis_mes r) = Mes.coste_total_mes (base_mes r)
              /\ ahorro_vs_mediana_eur (kpis_mes r) = Qc_of_Z 0
              /\ ahorro_vs_peor_eur (kpis_mes r) = Qc_of_Z 0
              /\ ahorro_vs_mediana_pct (kpis_mes r) = Qc_of_Z 0
              /\ ahorro_vs_peor_pct (kpis_mes r) = Qc_of_Z 0)
            filas).
Proof.
  apply catalogo_de_una_tarifa.
  - apply sort_estable_permuta.
  - discriminate.
Defined.

Lemma reparto_de_las_horas_del_dia_ejemplo :
  (exists etiquetas,
      _clasificar_periodo dia_4_de_marzo (map (fun _ => false) dia_4_de_marzo)
      = Ok etiquetas
      /\ cuenta valle_LV etiquetas = 8%nat /\ cuenta punta_LV etiquetas = 8%nat
      /\ cuenta llano_LV etiquetas = 8%nat /\ cuenta valle_SD etiquetas = 0%nat)
  /\ (exists etiquetas,
         _clasificar_periodo dia_4_de_marzo (map (fun _ => true) dia_4_de_marzo)
         = Ok etiquetas
         /\ cuenta valle_SD etiquetas = 24%nat).
Proof.
  apply reparto_de_las_horas_del_dia. reflexivity.
Defined.

(** * Further properties of the ingestion helpers *)

(** ** Characters and blanks *)

Ltac por_caracter c :=
  destruct c as [[] [] [] [] [] [] [] []]; vm_compute; intros; congruence.

Lemma digito_no_espacio (c : Ascii.ascii) : es_digito c = true -> es_espacio c = false.
Proof. por_caracter c. Qed.

Lemma digito_no_dos_puntos (c : Ascii.ascii) : es_digito c = true -> es_dos_puntos c = false.
Proof. por_caracter c. Qed.

Lemma digito_no_punto (c : Ascii.ascii) : es_digito c = true -> es_punto c = false.
Proof. por_caracter c. Qed.

Lemma digito_no_salto (c : Ascii.ascii) : es_digito c = true -> es_salto c = false.
Proof. por_caracter c. Qed.

Lemma salto_es_espacio (c : Ascii.ascii) : es_salto c = true -> es_espacio c = true.
Proof. por_caracter c. Qed.

Lemma rstrip_cons (c : Ascii.ascii) (r : string) :
  es_espacio c = false -> rstrip (String c r) = String c (rstrip r).
Proof.
  intros H. cbn [rstrip]. rewrite H. now destruct (rstrip r).
Qed.

Lemma lstrip_relleno (izq s : string) :
  todo es_espacio izq = true -> lstrip (izq ++ s) = lstrip s.
Proof.
  induction izq as [|c izq IH]; cbn [todo append lstrip]; [reflexivity|].
  intros H. apply andb_true_iff in H. destruct H as [Hc H].
  rewrite Hc. now apply IH.
Qed.

Lemma rstrip_blancos (der : string) : todo es_espacio der = true -> rstrip der = EmptyString.
Proof.
  induction der as [|c der IH]; cbn [todo rstrip]; [reflexivity|].
  intros H. apply andb_true_iff in H. destruct H as [Hc H].
  now rewrite IH, Hc.
Qed.

Lemma rstrip_relleno (s der : string) :
  todo es_espacio der = true -> rstrip (s ++ der) = rstrip s.
Proof.
  intros H. induction s as [|c s IH]; cbn [append rstrip].
  - now apply rstrip_blancos.
  - now rewrite IH.
Qed.

Lemma rstrip_rstrip (s : string) : rstrip (rstrip s) = rstrip s.
Proof.
  induction s as [|c s IH]; [reflexivity|]. cbn [rstrip].
  destruct (rstrip s) as [|c' r] eqn:E.
  - destruct (es_espacio c) eqn:Ec; [reflexivity|]. cbn [rstrip]. now rewrite Ec.
  - cbn [rstrip]. cbn [rstrip] in IH. rewrite IH. reflexivity.
Qed.

(** What [lstrip] returns is empty or starts with a character that is not
    a blank, and [rstrip] keeps it so. *)
Lemma lstrip_rstrip_lstrip (s : string) : lstrip (rstrip (lstrip s)) = rstrip (lstrip s).
Proof.
  induction s as [|c s IH]; [reflexivity|]. cbn [lstrip].
  destruct (es_espacio c) eqn:Ec; [exact IH|].
  rewrite (@rstrip_cons c s Ec). cbn [lstrip]. now rewrite Ec.
Qed.

Lemma strip_strip (s : string) : strip (strip s) = strip s.
Proof.
  unfold strip. now rewrite lstrip_rstrip_lstrip, rstrip_rstrip.
Qed.

Lemma strip_relleno (izq s der : string) :
  todo es_espacio izq = true -> todo es_espacio der = true ->
  strip (izq ++ s ++ der) = strip s.
Proof.
  intros Hi Hd. unfold strip. rewrite (@lstrip_relleno izq (s ++ der) Hi).
  (* the blanks on the right are dropped whether or not [s] is all blanks *)
  revert Hd. generalize der. clear. intros der Hd.
  induction s as [|c s IH]; cbn [append lstrip].
  - assert (E : lstrip der = EmptyString).
    { clear -Hd. induction der as [|c der IH]; [reflexivity|].
      cbn [todo] in Hd. apply andb_true_iff in Hd. destruct Hd as [Hc Hd].
      cbn [lstrip]. rewrite Hc. now apply IH. }
    now rewrite E.
  - destruct (es_espacio c); [exact IH|].
    change (String c (s ++ der)) with (String c s ++ der)%string.
    now apply rstrip_relleno.
Qed.

(** ** The hour text *)

Lemma normalizar_hora_por_celda (hora_series : list string) :
  _normalizar_hora_a_hhmmss hora_series = map normalizar_hora hora_series.
Proof.
  unfold _normalizar_hora_a_hhmmss.
  induction hora_series as [|x l IH]; [reflexivity|].
  cbn [map combine fst snd]. f_equal. exact IH.
Qed.

Arguments es_digito : simpl never.
Arguments es_espacio : simpl never.
Arguments es_dos_puntos : simpl never.
Arguments es_punto : simpl never.
Arguments es_salto : simpl never.

Lemma clases_de_dos_puntos :
  es_digito dos_puntos = false /\ es_dos_puntos dos_puntos = true
  /\ es_espacio dos_puntos = false /\ es_punto dos_puntos = false
  /\ es_salto dos_puntos = false.
Proof. repeat split. Qed.

Lemma clases_de_punto :
  es_digito punto = false /\ es_dos_puntos punto = false
  /\ es_espacio punto = false /\ es_punto punto = true /\ es_salto punto = false.
Proof. repeat split. Qed.

Lemma resto_de_linea_rstrip (s : string) :
  todo no_salto s = true -> resto_de_linea (rstrip s) = Some EmptyString.
Proof.
  induction s as [|c s IH]; cbn [todo rstrip]; [reflexivity|].
  intros H. apply andb_true_iff in H. destruct H as [Hc H].
  unfold no_salto in Hc. apply negb_true_iff in Hc.
  specialize (IH H).
  destruct (rstrip s) as [|c' r].
  - destruct (es_espacio c); [reflexivity|]. cbn [resto_de_linea]. now rewrite Hc.
  - cbn [resto_de_linea] in IH |- *. now rewrite Hc.
Qed.

Ltac clases :=
  repeat match goal with
    | H : es_digito ?c = true |- _ =>
        lazymatch goal with
        | _ : es_espacio c = false |- _ => fail
        | _ => pose proof (digito_no_espacio _ H);
               pose proof (digito_no_dos_puntos _ H);
               pose proof (digito_no_punto _ H);
               pose proof (digito_no_salto _ H)
        end
    end;
  destruct clases_de_dos_puntos as [? [? [? [? ?]]]];
  destruct clases_de_punto as [? [? [? [? ?]]]].

Ltac reescribir :=
  repeat match goal with
    | H : ?f ?c = ?b |- context [?f ?c] => rewrite H
    end.

Ltac evaluar :=
  repeat (progress (unfold strip, fraccion_en_cabeza, coincide_hhmm, coincide_h_mm_ss;
                    cbn [lstrip rstrip quitar_fraccion coincide fin_de_cadena
                         resto_de_linea append substring orb andb];
                    reescribir)).

(** X19. [_normalizar_hora_a_hhmmss] brings the hour texts it is written
    for to [HH:MM:SS], blanks around them aside: [H:MM] and [HH:MM] get their
    seconds, [H:MM] and [H:MM:SS] get a leading zero, [HH:MM:SS] stays, and
    whatever follows a dot after [HH:MM:SS] on the same line is dropped. *)
Theorem normalizar_hora_formas (a b c d e f : Ascii.ascii) (izq der frac : string) :
  es_digito a = true -> es_digito b = true -> es_digito c = true ->
  es_digito d = true -> es_digito e = true -> es_digito f = true ->
  todo es_espacio izq = true -> todo es_espacio der = true ->
  todo no_salto frac = true ->
  let p := dos_puntos in
  let O := EmptyString in
  _normalizar_hora_a_hhmmss
    [ (izq ++ String a (String p (String c (String d O))) ++ der)%string;
      (izq ++ String a (String b (String p (String c (String d O)))) ++ der)%string;
      (izq ++ String a (String p (String c (String d (String p (String e (String f O))))))
           ++ der)%string;
      (izq ++ String a (String b (String p (String c (String d
                (String p (String e (String f O))))))) ++ der)%string;
      (izq ++ (String a (String b (String p (String c (String d
                 (String p (String e (String f (String punto frac))))))))) ++ der)%string ]
  = [ ("0" ++ String a (String p (String c (String d ":00"))))%string;
      String a (String b (String p (String c (String d ":00"))));
      ("0" ++ String a (String p (String c (String d (String p (String e (String f O)))))))
        %string;
      String a (String b (String p (String c (String d (String p (String e (String f O)))))));
      String a (String b (String p (String c (String d (String p (String e (String f O))))))) ].
Proof.
  intros Ha Hb Hc Hd He Hf Hi Hder Hfrac p O. subst p O.
  rewrite normalizar_hora_por_celda. cbn [map].
  clases.
  unfold normalizar_hora. rewrite !strip_relleno by assumption.
  repeat match goal with |- _ :: _ = _ :: _ => f_equal end.
  - evaluar. reflexivity.
  - evaluar. reflexivity.
  - evaluar. reflexivity.
  - evaluar. reflexivity.
  - unfold strip. cbn [lstrip]. reescribir.
    rewrite !rstrip_cons by assumption.
    cbn [quitar_fraccion]. unfold fraccion_en_cabeza. cbn [coincide]. reescribir.
    rewrite resto_de_linea_rstrip by assumption. evaluar. reflexivity.
Qed.

Lemma normalizar_hora_formas_ejemplo :
  _normalizar_hora_a_hhmmss
    [" 1:30  "; " 12:30  "; " 1:30:15  "; " 12:30:15  "; " 12:30:15.250  "]%string
  = ["01:30:00"; "12:30:00"; "01:30:15"; "12:30:15"; "12:30:15"]%string.
Proof.
  exact (@normalizar_hora_formas
           (Ascii.ascii_of_N 49) (Ascii.ascii_of_N 50) (Ascii.ascii_of_N 51)
           (Ascii.ascii_of_N 48) (Ascii.ascii_of_N 49) (Ascii.ascii_of_N 53)
           " " "  " "250"
           eq_refl eq_refl eq_refl eq_refl eq_refl eq_refl eq_refl eq_refl eq_refl).
Defined.

Lemma rstrip_digitos (s : string) : todo es_digito s = true -> rstrip s = s.
Proof.
  induction s as [|c s IH]; cbn [todo]; [reflexivity|].
  intros H. apply andb_true_iff in H. destruct H as [Hc H].
  rewrite rstrip_cons by now apply digito_no_espacio. now rewrite IH.
Qed.

Lemma quitar_fraccion_digitos (s : string) :
  todo es_digito s = true -> quitar_fraccion s = s.
Proof.
  induction s as [|c s IH]; cbn [todo]; [reflexivity|].
  intros H. apply andb_true_iff in H. destruct H as [Hc H].
  cbn [quitar_fraccion]. rewrite (IH H).
  assert (E : fraccion_en_cabeza (String c s) = None).
  { unfold fraccion_en_cabeza. cbn [coincide]. rewrite Hc.
    destruct s as [|c2 s]; [reflexivity|].
    cbn [todo] in H. apply andb_true_iff in H. destruct H as [Hc2 H]. rewrite Hc2.
    destruct s as [|c3 s]; [reflexivity|].
    cbn [todo] in H. apply andb_true_iff in H. destruct H as [Hc3 H].
    now rewrite (digito_no_dos_puntos _ Hc3). }
  now rewrite E.
Qed.

(** X20. An hour with one digit and a fraction of seconds, [H:MM:SS.fff],
    is the one shape the normalisation leaves as it is: the fraction is not
    dropped and the hour gets no leading zero. *)
Theorem normalizar_hora_una_cifra_con_fraccion (a c d e f : Ascii.ascii) (frac : string) :
  es_digito a = true -> es_digito c = true -> es_digito d = true ->
  es_digito e = true -> es_digito f = true -> todo es_digito frac = true ->
  let p := dos_puntos in
  _normalizar_hora_a_hhmmss
    [ String a (String p (String c (String d (String p (String e (String f
        (String punto frac))))))) ]
  = [ String a (String p (String c (String d (String p (String e (String f
        (String punto frac))))))) ].
Proof.
  intros Ha Hc Hd He Hf Hfrac p. subst p.
  rewrite normalizar_hora_por_celda. cbn [map]. f_equal.
  clases. unfold normalizar_hora, strip. cbn [lstrip]. reescribir.
  rewrite !rstrip_cons by assumption. rewrite (rstrip_digitos _ Hfrac).
  assert (Eq : quitar_fraccion
                 (String a (String dos_puntos (String c (String d (String dos_puntos
                    (String e (String f (String punto frac))))))))
               = String a (String dos_puntos (String c (String d (String dos_puntos
                    (String e (String f (String punto frac)))))))).
  { cbn [quitar_fraccion]. unfold fraccion_en_cabeza. cbn [coincide]. reescribir.
    now rewrite (quitar_fraccion_digitos _ Hfrac). }
  rewrite Eq.
  unfold coincide_hhmm, coincide_h_mm_ss. cbn [coincide]. reescribir.
  cbn [fin_de_cadena orb].
  destruct frac as [|x frac]; cbn [fin_de_cadena]; reescribir; reflexivity.
Qed.

Lemma normalizar_hora_una_cifra_con_fraccion_ejemplo :
  _normalizar_hora_a_hhmmss ["9:30:15.250"%string] = ["9:30:15.250"%string].
Proof.
  exact (@normalizar_hora_una_cifra_con_fraccion
           (Ascii.ascii_of_N 57) (Ascii.ascii_of_N 51) (Ascii.ascii_of_N 48)
           (Ascii.ascii_of_N 49) (Ascii.ascii_of_N 53) "250"
           eq_refl eq_refl eq_refl eq_refl eq_refl eq_refl).
Defined.

(** ** The rows given as 24:00 *)

Lemma normalizar_hora_strip (h : string) : normalizar_hora (strip h) = normalizar_hora h.
Proof. unfold normalizar_hora. now rewrite strip_strip. Qed.

Lemma combine_map_map {A B C : Type} (f : A -> B) (g : A -> C) (l : list A) :
  combine (map f l) (map g l) = map (fun x => (f x, g x)) l.
Proof.
  induction l as [|x l IH]; cbn [map combine]; [reflexivity | now rewrite IH].
Qed.

Lemma mascara_24_de_una_celda (h : string) :
  isin ["24:00"; "24:00:00"]%string (strip h) || isin ["24:00:00"]%string (normalizar_hora h)
  = String.eqb (normalizar_hora h) "24:00:00".
Proof.
  unfold isin. cbn [existsb]. rewrite !orb_false_r.
  destruct (String.eqb_spec (strip h) "24:00") as [E|_].
  - unfold normalizar_hora. rewrite E. reflexivity.
  - destruct (String.eqb_spec (strip h) "24:00:00") as [E|_]; [|reflexivity].
    unfold normalizar_hora. rewrite E. reflexivity.
Qed.

(** X21. The rows [read_consumo_datadis_csv] moves to the next day are
    those whose hour text normalises to [24:00:00], whichever way it was
    written ([24:00], [24:00:00], with blanks or with a fraction of seconds);
    their hour is sent to [pd.to_datetime] as [00:00:00], the others as
    normalised, so that no hour sent is [24:00:00]. *)
Theorem filas_de_las_24 (col_fecha col_hora : list string) :
  let r := preparar_fecha_hora col_fecha col_hora in
  mask_24 r = map (fun h => String.eqb (normalizar_hora h) "24:00:00") col_hora
  /\ hora_norm r
     = map (fun h => if String.eqb (normalizar_hora h) "24:00:00"
                     then "00:00:00"%string else normalizar_hora h)
           col_hora
  /\ Forall (fun h => h <> "24:00:00"%string) (hora_norm r).
Proof.
  cbv zeta. unfold preparar_fecha_hora.
  destruct (_inferir_formato_fecha _) as [df yf].
  cbn [mask_24 hora_norm].
  rewrite normalizar_hora_por_celda, !map_map.
  assert (Em : serie_or (map (fun x => isin ["24:00"; "24:00:00"]%string (strip x)) col_hora)
                        (map (fun x => isin ["24:00:00"]%string (normalizar_hora (strip x)))
                             col_hora)
               = map (fun h => String.eqb (normalizar_hora h) "24:00:00") col_hora).
  { rewrite serie_or_map. apply map_ext. intros h.
    rewrite normalizar_hora_strip. apply mascara_24_de_una_celda. }
  rewrite Em.
  assert (En : map (fun fila : bool * string =>
                      if fst fila then "00:00:00"%string else snd fila)
                   (combine (map (fun h => String.eqb (normalizar_hora h) "24:00:00") col_hora)
                            (map (fun x => normalizar_hora (strip x)) col_hora))
               = map (fun h => if String.eqb (normalizar_hora h) "24:00:00"
                               then "00:00:00"%string else normalizar_hora h)
                     col_hora).
  { rewrite combine_map_map, map_map. apply map_ext. intros h.
    cbn [fst snd]. now rewrite normalizar_hora_strip. }
  rewrite En.
  split; [reflexivity|]. split; [reflexivity|].
  apply Forall_forall. intros x Hx. apply in_map_iff in Hx.
  destruct Hx as [h [<- _]].
  destruct (String.eqb_spec (normalizar_hora h) "24:00:00") as [E|N];
    [discriminate | exact N].
Qed.

(** ** The order of day and year *)

Lemma dropna_Some (l : list string) : dropna (map Some l) = l.
Proof.
  unfold dropna. induction l as [|x l IH]; cbn [map flat_map app]; [reflexivity|].
  now rewrite IH.
Qed.

Lemma reemplazar_cambia (a b : Ascii.ascii) (c : Ascii.ascii) (s : string) :
  reemplazar a b (String c s) = String (cambia a b c) (reemplazar a b s).
Proof. reflexivity. Qed.

Section Reemplazo.

Variables a b : Ascii.ascii.
Hypothesis a_no_espacio : es_espacio a = false.
Hypothesis b_no_espacio : es_espacio b = false.

Lemma cambia_espacio (c : Ascii.ascii) : es_espacio (cambia a b c) = es_espacio c.
Proof.
  unfold cambia. destruct (Ascii.eqb_spec c a) as [->|_]; [|reflexivity].
  now rewrite a_no_espacio, b_no_espacio.
Qed.

Lemma lstrip_reemplazar (s : string) :
  lstrip (reemplazar a b s) = reemplazar a b (lstrip s).
Proof.
  induction s as [|c s IH]; [reflexivity|].
  rewrite reemplazar_cambia. cbn [lstrip]. rewrite cambia_espacio.
  destruct (es_espacio c); [exact IH | reflexivity].
Qed.

Lemma rstrip_reemplazar (s : string) :
  rstrip (reemplazar a b s) = reemplazar a b (rstrip s).
Proof.
  induction s as [|c s IH]; [reflexivity|].
  rewrite reemplazar_cambia. cbn [rstrip]. rewrite IH, cambia_espacio.
  destruct (rstrip s); cbn [reemplazar]; [|reflexivity].
  destruct (es_espacio c); reflexivity.
Qed.

Lemma strip_reemplazar (s : string) :
  strip (reemplazar a b s) = reemplazar a b (strip s).
Proof. unfold strip. now rewrite lstrip_reemplazar, rstrip_reemplazar. Qed.

End Reemplazo.

Lemma empieza_por_anio_reemplazar (a : Ascii.ascii) (s : string) :
  es_separador a = true ->
  empieza_por_anio (reemplazar a barra s) = empieza_por_anio s.
Proof.
  intros Ha.
  assert (Hd : forall c, es_digito (cambia a barra c) = es_digito c).
  { intros c. unfold cambia. destruct (Ascii.eqb_spec c a) as [->|_]; [|reflexivity].
    revert Ha. clear. destruct a as [[] [] [] [] [] [] [] []]; vm_compute; congruence. }
  assert (Hs : forall c, es_separador (cambia a barra c) = es_separador c).
  { intros c. unfold cambia. destruct (Ascii.eqb_spec c a) as [->|_]; [|reflexivity].
    now rewrite Ha. }
  unfold empieza_por_anio.
  destruct s as [|c1 [|c2 [|c3 [|c4 [|c5 s]]]]];
    rewrite ?reemplazar_cambia; cbn [coincide reemplazar];
    rewrite ?Hd, ?Hs; try reflexivity.
  destruct (es_digito c1), (es_digito c2), (es_digito c3), (es_digito c4),
    (es_separador c5); reflexivity.
Qed.

(** X22. The order of day and year handed to [pd.to_datetime] is read off
    the first date cell alone: year first when, blanks aside, it starts with
    four digits and one of [-], [/] and [.], day first otherwise and for a
    column of no cells; the two flags are never equal. *)
Theorem orden_de_dia_y_anio (col_fecha col_hora : list string) :
  let r := preparar_fecha_hora col_fecha col_hora in
  yearfirst r = match col_fecha with
                | [] => false
                | primera :: _ => empieza_por_anio (strip primera)
                end
  /\ dayfirst r = negb (yearfirst r).
Proof.
  cbv zeta. unfold preparar_fecha_hora, _inferir_formato_fecha.
  rewrite dropna_Some.
  destruct col_fecha as [|primera resto]; cbn [map]; [split; reflexivity|].
  rewrite (@strip_reemplazar guion barra) by reflexivity.
  rewrite (@strip_reemplazar punto barra) by reflexivity.
  rewrite strip_strip.
  rewrite (@empieza_por_anio_reemplazar guion) by reflexivity.
  rewrite (@empieza_por_anio_reemplazar punto) by reflexivity.
  destruct (empieza_por_anio (strip primera)); split; reflexivity.
Qed.

(** ** The catalogue as it is read *)

Lemma mismo_nombre_spec (a b : string * string) : mismo_nombre a b = true <-> a = b.
Proof.
  destruct a as [a1 a2], b as [b1 b2]. unfold mismo_nombre. cbn [fst snd].
  rewrite andb_true_iff, !String.eqb_eq. split.
  - intros [-> ->]. reflexivity.
  - intros E. inversion E. split; reflexivity.
Qed.

Lemma visto_spec (n : string * string) (vistas : list (string * string)) :
  existsb (mismo_nombre n) vistas = true <-> In n vistas.
Proof.
  rewrite existsb_exists. split.
  - intros [x [Hx E]]. apply mismo_nombre_spec in E. now subst x.
  - intros H. exists n. split; [exact H | now apply mismo_nombre_spec].
Qed.

Section Duplicados.

Context {F : Type}.

Lemma drop_duplicates_desde_primera (vistas : list (string * string))
  (df : list (Tarifa.t F)) (t : Tarifa.t F) :
  In t (drop_duplicates_desde vistas df) ->
  ~ In (nombre_tarifa t) vistas
  /\ exists antes despues,
       df = antes ++ t :: despues
       /\ ~ In (nombre_tarifa t) (map (@nombre_tarifa F) antes).
Proof.
  revert vistas. induction df as [|x df IH]; intros vistas H; [destruct H|].
  cbn [drop_duplicates_desde] in H.
  destruct (existsb (mismo_nombre (nombre_tarifa x)) vistas) eqn:E.
  - destruct (IH _ H) as [Hv [antes [despues [-> Ha]]]]. split; [exact Hv|].
    exists (x :: antes), despues. split; [reflexivity|].
    cbn [map]. intros [Ex|Hin]; [|exact (Ha Hin)].
    apply Hv. rewrite <- Ex. now apply visto_spec.
  - destruct H as [<-|H].
    + split.
      * intros Hin. apply visto_spec in Hin. congruence.
      * exists [], df. split; [reflexivity | intros []].
    + destruct (IH _ H) as [Hv [antes [despues [-> Ha]]]]. split.
      * intros Hin. apply Hv. now right.
      * exists (x :: antes), despues. split; [reflexivity|].
        cbn [map]. intros [Ex|Hin]; [|exact (Ha Hin)].
        apply Hv. now left.
Qed.

Lemma drop_duplicates_desde_NoDup (vistas : list (string * string))
  (df : list (Tarifa.t F)) :
  NoDup (map (@nombre_tarifa F) (drop_duplicates_desde vistas df)).
Proof.
  revert vistas. induction df as [|x df IH]; intros vistas; [constructor|].
  cbn [drop_duplicates_desde].
  destruct (existsb (mismo_nombre (nombre_tarifa x)) vistas); [apply IH|].
  cbn [map]. constructor; [|apply IH].
  intros Hin. apply in_map_iff in Hin. destruct Hin as [t [Et Ht]].
  apply drop_duplicates_desde_primera in Ht. destruct Ht as [Hv _].
  apply Hv. left. now rewrite Et.
Qed.

Lemma drop_duplicates_desde_todas (vistas : list (string * string))
  (df : list (Tarifa.t F)) (t : Tarifa.t F) :
  In t df ->
  In (nombre_tarifa t) vistas
  \/ In (nombre_tarifa t) (map (@nombre_tarifa F) (drop_duplicates_desde vistas df)).
Proof.
  revert vistas. induction df as [|x df IH]; intros vistas H; [destruct H|].
  cbn [drop_duplicates_desde].
  destruct (existsb (mismo_nombre (nombre_tarifa x)) vistas) eqn:E.
  - destruct H as [<-|H]; [left; now apply visto_spec | exact (IH _ H)].
  - cbn [map]. destruct H as [<-|H]; [right; now left|].
    destruct (IH (nombre_tarifa x :: vistas) H) as [[Ex|Hv]|Hin].
    + right. left. exact Ex.
    + left. exact Hv.
    + right. right. exact Hin.
Qed.

Lemma drop_duplicates_desde_sin_repetir (vistas : list (string * string))
  (df : list (Tarifa.t F)) :
  NoDup (map (@nombre_tarifa F) df) ->
  (forall t, In t df -> ~ In (nombre_tarifa t) vistas) ->
  drop_duplicates_desde vistas df = df.
Proof.
  revert vistas. induction df as [|x df IH]; intros vistas Hn Hv; [reflexivity|].
  cbn [drop_duplicates_desde]. cbn [map] in Hn. inversion Hn as [|? ? Hx Hn']; subst.
  destruct (existsb (mismo_nombre (nombre_tarifa x)) vistas) eqn:E.
  - apply visto_spec in E. exfalso. apply (Hv x); [now left | exact E].
  - f_equal. apply IH; [exact Hn'|].
    intros t Ht [Ex|Hin].
    + apply Hx. rewrite Ex. now apply in_map.
    + apply (Hv t); [now right | exact Hin].
Qed.

Lemma limpiar_nombres_limpio (t : Tarifa.t F) :
  limpiar_nombres (limpiar_nombres t) = limpiar_nombres t.
Proof.
  destruct t. unfold limpiar_nombres.
  cbn [Tarifa.comercializadora Tarifa.tarifa Tarifa.punta_LV Tarifa.llano_LV
       Tarifa.valle_LV Tarifa.valle_SD Tarifa.potencia_mes_valle
       Tarifa.potencia_mes_punta_llano].
  now rewrite !strip_strip.
Qed.

Lemma limpiar_comercializadoras_origen (df : list (Tarifa.t F)) (t : Tarifa.t F) :
  In t (limpiar_comercializadoras df) -> exists t0, In t0 df /\ t = limpiar_nombres t0.
Proof.
  intros H. apply drop_duplicates_desde_primera in H.
  destruct H as [_ [antes [despues [E _]]]].
  assert (Hin : In t (map limpiar_nombres df)) by (rewrite E; apply in_elt).
  apply in_map_iff in Hin. destruct Hin as [t0 [E0 H0]]. now exists t0.
Qed.

End Duplicados.

(** On a frame whose names are text: no pair is kept twice, every row
    has its stripped pair in the result, and each row kept is the first of
    its pair. *)
Lemma limpiar_comercializadoras_sin_duplicados {F : Type} (df : list (Tarifa.t F)) :
  let leido := limpiar_comercializadoras df in
  NoDup (map (@nombre_tarifa F) leido)
  /\ (forall t, In t df ->
        In (nombre_tarifa (limpiar_nombres t)) (map (@nombre_tarifa F) leido))
  /\ (forall t, In t leido ->
        exists antes despues,
          map limpiar_nombres df = antes ++ t :: despues
          /\ ~ In (nombre_tarifa t) (map (@nombre_tarifa F) antes)).
Proof.
  cbv zeta. unfold limpiar_comercializadoras, drop_duplicates. repeat split.
  - apply drop_duplicates_desde_NoDup.
  - intros t Ht.
    destruct (@drop_duplicates_desde_todas F [] (map limpiar_nombres df) (limpiar_nombres t))
      as [[]|H]; [now apply in_map | exact H].
  - intros t Ht. now apply drop_duplicates_desde_primera in Ht.
Qed.

(** X23. The catalogue that [read_comercializadoras_csv] returns names no
    tariff twice.  Whatever text [astype(str)] writes for the name cells of
    the frame read: every row of the frame has the pair of its two names, as
    text and without the blanks around them, in one row of the result; and
    each row of the result is the first row of the frame, names as text and
    stripped, to carry its pair. *)
Theorem catalogo_leido_sin_duplicados {C F : Type} (astype_str : C -> string)
  (df : list (Leida.t C F)) :
  let leido := limpiar_lo_leido astype_str df in
  NoDup (map (@nombre_tarifa F) leido)
  /\ (forall t, In t df ->
        In (strip (astype_str (Leida.comercializadora t)),
            strip (astype_str (Leida.tarifa t)))
           (map (@nombre_tarifa F) leido))
  /\ (forall t, In t leido ->
        exists antes despues,
          map (fun fila => limpiar_nombres (nombres_como_texto astype_str fila)) df
          = antes ++ t :: despues
          /\ ~ In (nombre_tarifa t) (map (@nombre_tarifa F) antes)).
Proof.
  cbv zeta. unfold limpiar_lo_leido.
  destruct (limpiar_comercializadoras_sin_duplicados
              (map (nombres_como_texto astype_str) df)) as [H1 [H2 H3]].
  cbv zeta in H1, H2, H3. split; [exact H1|]. split.
  - intros t Ht.
    exact (H2 (nombres_como_texto astype_str t) (in_map _ _ _ Ht)).
  - intros t Ht. destruct (H3 t Ht) as [antes [despues [E Hno]]].
    exists antes, despues. split; [|exact Hno].
    rewrite <- E. symmetry. apply map_map.
Qed.

(** X24. Cleaning a catalogue that has been cleaned changes nothing. *)
Theorem catalogo_leido_estable {F : Type} (df : list (Tarifa.t F)) :
  limpiar_comercializadoras (limpiar_comercializadoras df) = limpiar_comercializadoras df.
Proof.
  set (leido := limpiar_comercializadoras df).
  assert (E : map limpiar_nombres leido = leido).
  { rewrite <- (map_id leido) at 2. apply map_ext_in.
    intros t Ht. apply limpiar_comercializadoras_origen in Ht.
    destruct Ht as [t0 [_ ->]]. apply limpiar_nombres_limpio. }
  unfold limpiar_comercializadoras at 1. rewrite E.
  apply drop_duplicates_desde_sin_repetir.
  - apply drop_duplicates_desde_NoDup.
  - intros t _ [].
Qed.

(** X25. The ranking computed from a catalogue as it is read has one row
    for each pair (comercializadora, tarifa): no two of its rows name the
    same tariff. *)
Theorem ranking_del_catalogo_leido {F : Type} {AF : Arith F} {OF : Orden F}
  (sort_values : list (Anual.fila F) -> list (Anual.fila F))
  (consumo_df : list (Consumo F)) (df : list (Tarifa.t F)) (kv kp : F) :
  permuta sort_values -> df <> [] ->
  exists filas,
    calcular_costes_anuales_por_tarifa sort_values consumo_df
      (limpiar_comercializadoras df) kv kp = Ok filas
    /\ NoDup (map (fun r => nombre_fila_anual (base_anual r)) filas)
    /\ length filas = length (limpiar_comercializadoras df).
Proof.
  intros Hperm Hne.
  assert (Hne' : limpiar_comercializadoras df <> []).
  { destruct df as [|t df]; [congruence|].
    unfold limpiar_comercializadoras, drop_duplicates. cbn. discriminate. }
  destruct (ranking_del_catalogo consumo_df kv kp Hperm Hne')
    as [filas [orden [d [E [P [-> _]]]]]].
  eexists. split; [exact E|].
  apply (Permutation_map (@nombre_tarifa F)) in P.
  split.
  - rewrite map_map. cbn.
    eapply Permutation_NoDup; [exact P|].
    apply drop_duplicates_desde_NoDup.
  - rewrite length_map. apply Permutation_length in P.
    rewrite !length_map in P. symmetry. exact P.
Qed.

Lemma ranking_del_catalogo_leido_ejemplo :
  exists filas,
    calcular_costes_anuales_por_tarifa sort_estable consumo_dos_meses
      (limpiar_comercializadoras catalogo_con_repetida)
      potencia_kw_valle_main potencia_kw_punta_llano_main = Ok filas
    /\ NoDup (map (fun r => nombre_fila_anual (base_anual r)) filas)
    /\ length filas = length (limpiar_comercializadoras catalogo_con_repetida).
Proof.
  apply (ranking_del_catalogo_leido (OF := orden_binary64)).
  - apply sort_estable_permuta.
  - discriminate.
Defined.

Lemma pct_kwh_suman_cien_ejemplo :
  exists filas,
    calcular_mejor_tarifa_por_mes consumo_dos_meses_exacto [tarifa_exacta_1; tarifa_exacta_2]
      potencia_kw_valle_exacta potencia_kw_punta_llano_exacta
    = Ok filas
    /\ Forall (fun r =>
         Mes.kwh_mes (base_mes r) <> Qc_of_Z 0
         -> (pct_kwh_punta_LV (dist_mes r) + pct_kwh_llano_LV (dist_mes r)
             + pct_kwh_valle_LV (dist_mes r) + pct_kwh_valle_SD (dist_mes r))%Qc
            = Qc_of_Z 100)
       filas.
Proof.
  assert (H1 : consumo_dos_meses_exacto <> []) by discriminate.
  assert (H2 : [tarifa_exacta_1; tarifa_exacta_2] <> []) by discriminate.
  exact (proj2 (proj2 pct_kwh_suman_cien sort_estable consumo_dos_meses_exacto
                  [tarifa_exacta_1; tarifa_exacta_2]
                  potencia_kw_valle_exacta potencia_kw_punta_llano_exacta
                  sort_estable_permuta H1 H2)).
Defined.

Lemma ranking_sin_registros_ejemplo :
  exists filas,
    calcular_costes_anuales_por_tarifa sort_estable [] [tarifa_con_potencia; tarifa_escenario]
      potencia_kw_valle_main potencia_kw_punta_llano_main = Ok filas
    /\ length filas = 2%nat
    /\ Forall (fun r =>
         Anual.kwh_anuales (base_anual r) = 0%float
         /\ Anual.coste_medio_eur_kwh (base_anual r) = 0%float
         /\ dist_anual r
            = {| kwh_punta_LV := 0%float; kwh_llano_LV := 0%float;
                 kwh_valle_LV := 0%float; kwh_valle_SD := 0%float;
                 pct_kwh_punta_LV := 0%float; pct_kwh_llano_LV := 0%float;
                 pct_kwh_valle_LV := 0%float; pct_kwh_valle_SD := 0%float |})
       filas.
Proof.
  assert (H : [tarifa_con_potencia; tarifa_escenario] <> []) by discriminate.
  exact (proj1 ranking_sin_registros sort_estable [tarifa_con_potencia; tarifa_escenario]
           potencia_kw_valle_main potencia_kw_punta_llano_main
           (@sort_estable_permuta float binary64) H).
Defined.
